(** * ELDER / MELO editing memory and low-rank adapters: a shallow embedding

    Source: [peft/tuners/elder.py].  The embedding follows the Python code
    function by function.  Tensors of floating-point numbers are idealised as
    lists of real numbers (rounding is not modelled); Python exceptions are
    the constructors of [exn] and a function that can raise returns a
    [result]. *)

From Stdlib Require Import String.
From Stdlib Require Import Reals Lra Lia List ZArith Bool.
From Stdlib Require Import Permutation.
Import ListNotations.
Open Scope R_scope.

Set Implicit Arguments.

(** ** Python exceptions and the error monad *)

Inductive exn : Type :=
| IndexError
| RuntimeError
| UnboundLocalError
| AttributeError
| AssertionError
| KeyError
| ZeroDivisionError.

Inductive result (A : Type) : Type :=
| Ok (a : A)
| Raise (e : exn).

Arguments Ok {A} a.
Arguments Raise {A} e.

Definition bind {A B : Type} (m : result A) (f : A -> result B) : result B :=
  match m with
  | Ok a => f a
  | Raise e => Raise e
  end.

Notation "x <- m ;; k" := (bind m (fun x => k))
  (at level 61, m at next level, right associativity).
Notation "' pat <- m ;; k" := (bind m (fun x => match x with pat => k end))
  (at level 61, pat pattern, m at next level, right associativity).

(** [l[i]] for a Python list and a non-negative index. *)
Definition getitem {A : Type} (l : list A) (i : nat) : result A :=
  match nth_error l i with
  | Some a => Ok a
  | None => Raise IndexError
  end.

(** [l[i]] for a Python sequence and a possibly negative index. *)
Definition py_index {A : Type} (l : list A) (i : Z) : result A :=
  let n := Z.of_nat (length l) in
  if (0 <=? i)%Z then getitem l (Z.to_nat i)
  else if (- n <=? i)%Z then getitem l (Z.to_nat (n + i))
  else Raise IndexError.

(** [l[i] = a] as a functional update; the caller checks the range. *)
Fixpoint setitem {A : Type} (l : list A) (i : nat) (a : A) : list A :=
  match l, i with
  | [], _ => []
  | _ :: l', O => a :: l'
  | b :: l', S i' => b :: setitem l' i' a
  end.

(** ** Tensors *)

Module Tensor.

(** A tensor of shape [H]. *)
Definition vec := list R.
(** A tensor of shape [n, H], as the list of its rows. *)
Definition matrix := list vec.

Definition vadd (a b : vec) : vec := map (fun p => fst p + snd p) (combine a b).
Definition vdiv (a : vec) (n : nat) : vec := map (fun x => x / INR n) a.

(** Python's [sum(key_list)] over tensors: [0 + k1 + k2 + ...]; the
    integer [0] is absorbed by the first tensor.  The callers only pass
    non-empty lists. *)
Definition py_sum (l : list vec) : vec :=
  match l with
  | [] => []
  | k :: ks => fold_left vadd ks k
  end.

Definition rsum (l : list R) : R := fold_right Rplus 0 l.

(** One entry of [torch.cdist(batch_query, key, p=2)]: the Euclidean
    distance (not squared) of two tensors of the same shape. *)
Definition euc (a b : vec) : R :=
  sqrt (rsum (map (fun p => (fst p - snd p) * (fst p - snd p)) (combine a b))).

(** Python's builtin [max(a, b)]: [b] when [b > a], else [a]. *)
Definition py_max (a b : R) : R := if Rlt_dec a b then b else a.

(** [dists.max(0)] of a column tensor with at least one row. *)
Definition tensor_max (d : R) (ds : list R) : R := fold_left Rmax ds d.

(** [dists.min(0)] of a column tensor with at least one row: the minimum
    and the index of its first occurrence. *)
Fixpoint tensor_min (d : R) (ds : list R) : R * nat :=
  match ds with
  | [] => (d, O)
  | d' :: ds' =>
      let (m, i) := tensor_min d' ds' in
      if Rle_dec d m then (d, O) else (m, S i)
  end.

(** [torch.stack(key_list, dim=0)]: raises on an empty list.  The keys of
    one memory layer all have the layer's output width, so the shape
    check of [stack] is not modelled. *)
Definition stack {A : Type} (l : list A) : result (list A) :=
  match l with
  | [] => Raise RuntimeError
  | _ => Ok l
  end.

End Tensor.
Import Tensor.

Definition NO_LORA : Z := (-100)%Z.

(** ** The cluster store *)

Module VecDB.

Record mem_point : Type := mk_point { get_key : vec; get_value : Z }.

(** One row of [self.table]: the dict with keys ['cluster_center'],
    ['radius'], ['key_label'] and ['points']. *)
Record row : Type := mk_row {
  cluster_center : vec;
  radius : R;
  key_label : list Z;
  points : list mem_point
}.

Record t : Type := mk {
  init_radius : R;          (* self.config['init_radius'] *)
  table : list row;
  forget_num : Z;
  conflict_num : Z;
  forget_keys : list vec
}.

Definition init (r0 : R) : t := mk r0 [] 0 0 [].

Definition len (db : t) : nat := length (table db).

Definition with_table (db : t) (tbl : list row) : t :=
  mk (init_radius db) tbl (forget_num db) (conflict_num db) (forget_keys db).

Definition set_radius (c : row) (r : R) : row :=
  mk_row (cluster_center c) r (key_label c) (points c).

Definition set_points (c : row) (ps : list mem_point) : row :=
  mk_row (cluster_center c) (radius c) (key_label c) ps.

Definition add_cluster (db : t) (new_key : vec) (new_value : Z)
           (new_edit_label : list Z) : t :=
  let new_row :=
    mk_row new_key (init_radius db) new_edit_label [mk_point new_key new_value] in
  with_table db (table db ++ [new_row]).

Definition update_cluster (db : t) (index : nat) (new_key : vec) (new_value : Z)
  : result t :=
  c <- getitem (table db) index ;;
  let pts := points c ++ [mk_point new_key new_value] in
  let key_list := map get_key pts in
  let new_cluster_center := vdiv (py_sum key_list) (length key_list) in
  let dists := map (fun k => euc k new_cluster_center) key_list in
  let largest_distance := tensor_max (hd 0 dists) (tl dists) in
  let r := py_max largest_distance (init_radius db) in
  Ok (with_table db
        (setitem (table db) index (mk_row new_cluster_center r (key_label c) pts))).

Definition masked_fill (l : list Z) : list Z :=
  map (fun x => if (x =? -100)%Z then 0%Z else x) l.

(** An int64 value: the representative of [z] modulo 2^64 in
    [-2^63, 2^63). *)
Definition wrap64 (z : Z) : Z :=
  ((z + 9223372036854775808) mod 18446744073709551616 - 9223372036854775808)%Z.

(** Addition of int64 values wraps around. *)
Definition add64 (a b : Z) : Z := wrap64 (a + b).

(** [torch.sum] of an int64 tensor. *)
Definition zsum (l : list Z) : Z := fold_right add64 0%Z l.

Definition label_match (edit_label key_label : list Z) : bool :=
  (zsum (masked_fill edit_label) =? zsum (masked_fill key_label))%Z.

Definition eps : R := 1 / 100000.      (* 1e-5 *)

(** The loop of [split_cluster_radii_in_half] over [enumerate(dists)]:
    the points kept and the keys forgotten, both in order. *)
Fixpoint refilter (center : vec) (cluster_radius : R) (ps : list mem_point)
  : list mem_point * list vec :=
  match ps with
  | [] => ([], [])
  | p :: ps' =>
      let (kept, forgot) := refilter center cluster_radius ps' in
      if Rle_dec (euc (get_key p) center) cluster_radius
      then (p :: kept, forgot)
      else (kept, get_key p :: forgot)
  end.

Definition split_cluster_radii_in_half (db : t) (nearest_cluster : nat)
           (smallest_distance : R) : result t :=
  c0 <- getitem (table db) nearest_cluster ;;
  let tbl1 := setitem (table db) nearest_cluster
                      (set_radius c0 (smallest_distance / 2 - eps)) in
  (* self.table[-1]['radius'] = ... *)
  let last_index := (length tbl1 - 1)%nat in
  cl <- getitem tbl1 last_index ;;
  let tbl2 := setitem tbl1 last_index (set_radius cl (smallest_distance / 2 + eps)) in
  c <- getitem tbl2 nearest_cluster ;;
  let cluster_radius := radius c in
  key_list <- stack (map get_key (points c)) ;;
  let cluster_center := cluster_center c in
  let (kept, forgot) := refilter cluster_center cluster_radius (points c) in
  let filtered_key_list :=
    match kept with
    | [] => [mk_point cluster_center NO_LORA]
    | _ => kept
    end in
  Ok (mk (init_radius db)
         (setitem tbl2 nearest_cluster (set_points c filtered_key_list))
         (forget_num db
          + (Z.of_nat (length key_list) - Z.of_nat (length filtered_key_list)))%Z
         (conflict_num db + 1)%Z
         (forget_keys db ++ forgot)).

(** [search_database]: for every query the distance to the nearest
    cluster centre and the index of that cluster.  [torch.stack] raises
    on an empty table and [view(-1, len(batch_query))] on an empty batch. *)
Definition search_database (db : t) (batch_query : list vec)
  : result (list R * list nat) :=
  match table db, batch_query with
  | [], _ => Raise RuntimeError
  | _, [] => Raise RuntimeError
  | c :: cs, _ =>
      let per_query q :=
        tensor_min (euc q (cluster_center c))
                   (map (fun x => euc q (cluster_center x)) cs) in
      Ok (map (fun q => fst (per_query q)) batch_query,
          map (fun q => snd (per_query q)) batch_query)
  end.

(** The body of the [try] block of [search_cluster] for one query. *)
Definition search_one (tbl : list row) (query : vec) (smallest_distance : R)
           (nearest_cluster : nat) : result Z :=
  c <- getitem tbl nearest_cluster ;;
  if Rgt_dec smallest_distance (radius c) then Ok NO_LORA
  else
    key_list <- stack (map get_key (points c)) ;;
    let dists := map (fun k => euc k query) key_list in
    let (_, nearest_key) := tensor_min (hd 0 dists) (tl dists) in
    p <- getitem (points c) nearest_key ;;
    Ok (get_value p).

(** The loop of [search_cluster] over the zipped arguments.  The
    [except] handler prints and appends nothing; its last [print] reads
    [self.table[nearest_cluster]] again, outside any [try]. *)
Fixpoint search_loop (tbl : list row) (zs : list (vec * R * nat))
         (lora_mapping_block : list Z) : result (list Z) :=
  match zs with
  | [] => Ok lora_mapping_block
  | (query, smallest_distance, nearest_cluster) :: zs' =>
      match search_one tbl query smallest_distance nearest_cluster with
      | Ok v => search_loop tbl zs' (lora_mapping_block ++ [v])
      | Raise _ =>
          _ <- getitem tbl nearest_cluster ;;
          search_loop tbl zs' lora_mapping_block
      end
  end.

Definition search_cluster (db : t) (batch_query : list vec)
           (smallest_distance_list : list R) (nearest_cluster_list : list nat)
  : result (list Z) :=
  search_loop (table db)
              (combine (combine batch_query smallest_distance_list)
                       nearest_cluster_list)
              [].

End VecDB.

(** ** Helpers shared by the layers *)

Fixpoint mapM {A B : Type} (f : A -> result B) (l : list A) : result (list B) :=
  match l with
  | [] => Ok []
  | a :: l' =>
      b <- f a ;;
      bs <- mapM f l' ;;
      Ok (b :: bs)
  end.

Definition dot (a b : vec) : R := rsum (map (fun p => fst p * snd p) (combine a b)).

(** [F.linear(x, W, bias)] on one row: [x W^T + bias], with [W] of shape
    [out, in]. *)
Definition linear_row (W : matrix) (b : option vec) (x : vec) : vec :=
  let y := map (dot x) W in
  match b with
  | Some b => vadd y b
  | None => y
  end.

Definition width_ok (W : matrix) (x : vec) : bool :=
  forallb (fun w => Nat.eqb (length w) (length x)) W.

(** [F.linear] on a tensor of shape [L, in]; a row of the wrong width
    raises. *)
Definition F_linear2 (W : matrix) (b : option vec) (x : matrix) : result matrix :=
  if forallb (width_ok W) x then Ok (map (linear_row W b) x)
  else Raise RuntimeError.

(** [F.linear] on a tensor of shape [B, L, in]. *)
Definition F_linear (W : matrix) (b : option vec) (x : list matrix)
  : result (list matrix) :=
  mapM (F_linear2 W b) x.

(** ** The memory layer: [GraceLayer] and [GraceLinear] *)

Module Grace.

Record layer : Type := mk {
  weight : matrix;
  bias : option vec;
  fan_in_fan_out : bool;
  db : VecDB.t;                  (* self.VecDB *)
  batch_iter : option Z;         (* None until the trainer sets it *)
  edit_label : list (list Z);    (* set by the trainer, one label per example *)
  key_id : Z;                    (* from grace_config *)
  lora_block_mapping : list Z;
  disable_grace : bool;
  block_id : Z;
  training : bool
}.

Definition with_db (st : layer) (d : VecDB.t) : layer :=
  mk (weight st) (bias st) (fan_in_fan_out st) d (batch_iter st) (edit_label st)
     (key_id st) (lora_block_mapping st) (disable_grace st) (block_id st)
     (training st).

Definition with_mapping (st : layer) (m : list Z) : layer :=
  mk (weight st) (bias st) (fan_in_fan_out st) (db st) (batch_iter st)
     (edit_label st) (key_id st) m (disable_grace st) (block_id st) (training st).

Definition with_block_id (st : layer) (b : Z) : layer :=
  mk (weight st) (bias st) (fan_in_fan_out st) (db st) (batch_iter st)
     (edit_label st) (key_id st) (lora_block_mapping st) (disable_grace st) b
     (training st).

(** [self.init_radius], copied from the configuration by [setattr]. *)
Definition init_radius (st : layer) : R := VecDB.init_radius (db st).

Definition search (st : layer) (batch_query : list vec)
  : result (list R * list nat * list Z) :=
  '(smallest_distance_list, nearest_cluster_list) <-
     VecDB.search_database (db st) batch_query ;;
  lora_block_mapping <-
     VecDB.search_cluster (db st) batch_query smallest_distance_list
                          nearest_cluster_list ;;
  Ok (smallest_distance_list, nearest_cluster_list, lora_block_mapping).

Definition current_block (st : layer) : Z := block_id st.

(** The loop of [init_key_value] over [enumerate(batch_query)]. *)
Fixpoint init_loop (st : layer) (index : nat) (batch_query : list vec)
         (lora_block_mapping : list Z) : result (layer * list Z) :=
  match batch_query with
  | [] => Ok (st, lora_block_mapping)
  | query :: rest =>
      new_edit_label <- getitem (edit_label st) index ;;
      let new_value := current_block st in
      let st' := with_db st (VecDB.add_cluster (db st) query new_value new_edit_label) in
      init_loop st' (S index) rest (lora_block_mapping ++ [new_value])
  end.

Definition init_key_value (st : layer) (batch_query : list vec)
  : result (layer * list Z) :=
  '(st', lora_block_mapping) <- init_loop st 0 batch_query [] ;;
  Ok (with_block_id st' (block_id st' + 1)%Z, lora_block_mapping).

Definition add_cluster (st : layer) (query : vec) (label_index : nat)
  : result layer :=
  let new_value := current_block st in
  new_edit_label <- getitem (edit_label st) label_index ;;
  Ok (with_db st (VecDB.add_cluster (db st) query new_value new_edit_label)).

Definition update_cluster (st : layer) (index : nat) (query : vec) (value : Z)
  : result layer :=
  d <- VecDB.update_cluster (db st) index query value ;;
  Ok (with_db st d).

(** The body of the update loop of [forward] for the example at
    position [index]. *)
Definition train_one (st : layer) (smallest_distance_list : list R)
           (nearest_cluster_list : list nat) (index : nat) (query : vec)
  : result layer :=
  nearest <- getitem nearest_cluster_list index ;;
  row <- getitem (VecDB.table (db st)) nearest ;;
  smallest <- getitem smallest_distance_list index ;;
  if Rgt_dec smallest (VecDB.radius row + init_radius st) then
    add_cluster st query index
  else
    lbl <- getitem (edit_label st) index ;;
    if VecDB.label_match lbl (VecDB.key_label row) then
      update_cluster st nearest query (block_id st)
    else
      st1 <- add_cluster st query index ;;
      d <- VecDB.split_cluster_radii_in_half (db st1) nearest smallest ;;
      Ok (with_db st1 d).

Fixpoint train_loop (st : layer) (smallest_distance_list : list R)
         (nearest_cluster_list : list nat) (index : nat) (batch_query : list vec)
  : result layer :=
  match batch_query with
  | [] => Ok st
  | query :: rest =>
      st' <- train_one st smallest_distance_list nearest_cluster_list index query ;;
      train_loop st' smallest_distance_list nearest_cluster_list (S index) rest
  end.

(** [layer_out.shape[1]] *)
Definition shape1 (layer_out : list matrix) : Z :=
  match layer_out with
  | [] => 0%Z
  | ex :: _ => Z.of_nat (length ex)
  end.

Section Forward.

(** [transpose] is imported from [peft.utils]; it is taken as given. *)
Variable transpose : matrix -> bool -> matrix.

(** [GraceLinear.forward].  The state is the layer together with the
    module-level [LORA_BLOCK_MAPPING]; the result is the new state and
    the layer output. *)
Definition forward (st : layer) (LORA_BLOCK_MAPPING : list Z) (x : list matrix)
  : result (layer * list Z * list matrix) :=
  layer_out <- F_linear (transpose (weight st) (fan_in_fan_out st)) (bias st) x ;;
  if disable_grace st then Ok (st, LORA_BLOCK_MAPPING, layer_out)
  else
    let key_id := Z.min (key_id st) (shape1 layer_out - 1) in
    batch_query <- mapM (fun ex => py_index ex key_id) layer_out ;;
    '(smallest_distance_list, nearest_cluster_list, found) <-
      (if Nat.eqb (VecDB.len (db st)) 0
       then Ok ([], [], repeat NO_LORA (length layer_out))
       else search st batch_query) ;;
    if negb (training st) then
      Ok (with_mapping st found, found, layer_out)
    else
      st' <-
        (if Nat.eqb (VecDB.len (db st)) 0 then
           '(st1, m) <- init_key_value st batch_query ;;
           Ok (with_mapping st1 m)
         else
           match batch_iter st with
           | Some 0%Z =>
               let st0 :=
                 with_mapping st (repeat (block_id st) (length layer_out)) in
               st1 <- train_loop st0 smallest_distance_list nearest_cluster_list
                                 0 batch_query ;;
               Ok (with_block_id st1 (block_id st1 + 1)%Z)
           | _ => Ok st
           end) ;;
      Ok (st', lora_block_mapping st', layer_out).

End Forward.

End Grace.

(** ** Block-dynamic rank addressing: [dynamic] *)

(** [l[start:end]] with Python's clamping of the bounds. *)
Definition slice_bound (n i : Z) : Z :=
  if (i <? 0)%Z then Z.max 0 (n + i) else Z.min i n.

Definition py_slice {A : Type} (l : list A) (start stop : Z) : list A :=
  let n := Z.of_nat (length l) in
  let s := slice_bound n start in
  let e := slice_bound n stop in
  firstn (Z.to_nat (e - s)) (skipn (Z.to_nat s) l).

Definition mscale (m : matrix) (c : R) : matrix := map (map (fun x => x * c)) m.

Definition zeros (rows cols : nat) : matrix := repeat (repeat 0 cols) rows.

(** [inputs.shape[1]] of a tensor given by its rows. *)
Definition width (m : matrix) : nat := length (hd [] m).

Module Dynamic.

Record t : Type := mk {
  maximum_rank : nat;
  num_rank_per_block : nat;
  maximum_block : nat;
  current_block : nat
}.

(** [dynamic()] with its default arguments. *)
Definition default : t := mk 1 1 1 0.

Definition update_dynamic (max_rank rank_per_block : nat) : result t :=
  if Nat.eqb rank_per_block 0 then Raise ZeroDivisionError
  else if Nat.eqb (max_rank mod rank_per_block) 0
       then Ok (mk max_rank rank_per_block (max_rank / rank_per_block) 0)
       else Raise AssertionError.

Definition block_rank_mapping (d : t) (block_id : Z) : Z * Z :=
  let start := (block_id * Z.of_nat (num_rank_per_block d))%Z in
  (start, (start + Z.of_nat (num_rank_per_block d))%Z).

(** The block gathered for one entry of [LORA_BLOCK_MAPPING]. *)
Definition block_of (d : t) (inputs : matrix) (block_id : Z) : matrix :=
  if (block_id =? NO_LORA)%Z then zeros (num_rank_per_block d) (width inputs)
  else let (start, stop) := block_rank_mapping d block_id in
       py_slice inputs start stop.

(** [torch.stack(block_list, 0)]: the blocks must have one shape; they
    all have the width of [inputs], so the row counts are compared. *)
Definition stack_blocks (block_list : list matrix) : result (list matrix) :=
  match block_list with
  | [] => Raise RuntimeError
  | b :: _ =>
      if forallb (fun b' => Nat.eqb (length b') (length b)) block_list
      then Ok block_list
      else Raise RuntimeError
  end.

Definition rescale (d : t) : R :=
  sqrt (INR (maximum_rank d) / INR (num_rank_per_block d)).

(** [dynamic.forward], reading the module-level [LORA_BLOCK_MAPPING]. *)
Definition forward (d : t) (LORA_BLOCK_MAPPING : list Z) (inputs : matrix)
  : result (list matrix) :=
  match LORA_BLOCK_MAPPING with
  | [] => Raise AssertionError
  | _ =>
      result <- stack_blocks (map (block_of d inputs) LORA_BLOCK_MAPPING) ;;
      Ok (map (fun b => mscale b (rescale d)) result)
  end.

End Dynamic.

(** ** The router: [Gate] *)

Module Gate.

Record t : Type := mk {
  num_expert : nat;
  loss : option R;
  gate_weight : matrix;          (* self.gate.weight, shape [num_expert, d_model] *)
  gate_bias : option vec;
  top_k : nat;
  preset_target : bool;
  target_set_mode : option String.string;
  preset_gate_top_k_idx : option (list (list nat));   (* unset before set_target *)
  editing : bool
}.

Definition set_loss (g : t) (l : R) : t :=
  mk (num_expert g) (Some l) (gate_weight g) (gate_bias g) (top_k g)
     (preset_target g) (target_set_mode g) (preset_gate_top_k_idx g) (editing g).

Definition get_loss (g : t) (clear : bool) : option R * t :=
  (loss g,
   if clear
   then mk (num_expert g) None (gate_weight g) (gate_bias g) (top_k g)
           (preset_target g) (target_set_mode g) (preset_gate_top_k_idx g)
           (editing g)
   else g).

Definition softmax (row : vec) : vec :=
  let es := map exp row in
  map (fun e => e / rsum es) es.

(** [torch.gather(input, index, dim=-1)] on one row. *)
Definition gather_row (row : vec) (idx : list nat) : result vec :=
  mapM (fun j => match nth_error row j with
                 | Some v => Ok v
                 | None => Raise RuntimeError
                 end) idx.

(** [torch.gather(input=gate, index=idx, dim=-1)]: the index tensor may
    have fewer rows than the input, not more. *)
Fixpoint gather (gate : matrix) (idx : list (list nat)) : result matrix :=
  match idx, gate with
  | [], _ => Ok []
  | _ :: _, [] => Raise RuntimeError
  | i :: idx', row :: gate' =>
      r <- gather_row row i ;;
      rs <- gather gate' idx' ;;
      Ok (r :: rs)
  end.

(** [torch.where(t)[0]]: the positions of the true entries of a row. *)
Fixpoint where_ (row : list bool) (pos : nat) : list nat :=
  match row with
  | [] => []
  | b :: row' => if b then pos :: where_ row' (S pos) else where_ row' (S pos)
  end.

(** [set_target]: [torch.stack] needs at least one row and the same
    number of selected experts in every row. *)
Definition set_target (g : t) (target : list (list bool)) (set_mode : String.string)
  : result t :=
  let rows := map (fun r => where_ r 0) target in
  match rows with
  | [] => Raise RuntimeError
  | r0 :: _ =>
      if forallb (fun r => Nat.eqb (length r) (length r0)) rows
      then Ok (mk (num_expert g) (loss g) (gate_weight g) (gate_bias g) (top_k g)
                  true (Some set_mode) (Some rows) (editing g))
      else Raise RuntimeError
  end.

Definition mode_is (g : t) (m : String.string) : bool :=
  match target_set_mode g with
  | Some s => String.eqb s m
  | None => false
  end.

Definition guided_loss (gate init_expert_probs : matrix) : R :=
  - rsum (map ln (concat init_expert_probs)) / INR (length gate).

Section Forward.

(** [torch.topk(row, k, largest=True, sorted=False)] on one row: the
    selected values and their indices, in the order the library
    returns them. *)
Variable topk : nat -> vec -> vec * list nat.

(** [Gate.forward]: the result is the returned tuple and the gate with
    its recorded loss.  [target_top_k_idx] is the local variable that
    only the soft branch binds. *)
Definition forward (g : t) (inp : matrix) (return_all_scores : bool)
  : result (list (list nat) * matrix * option matrix * t) :=
  logits <- F_linear2 (gate_weight g) (gate_bias g) inp ;;
  let gate := map softmax logits in
  '(gate_top_k_idx, gate_top_k_val) <-
    (if preset_target g && mode_is g "hard"%string then
       match preset_gate_top_k_idx g with
       | None => Raise AttributeError
       | Some idx => v <- gather gate idx ;; Ok (idx, v)
       end
     else
       let sel := map (topk (top_k g)) gate in
       Ok (map snd sel, map fst sel)) ;;
  target_top_k_idx <-
    (if preset_target g && mode_is g "soft"%string then
       match preset_gate_top_k_idx g with
       | None => Raise AttributeError
       | Some idx => Ok (Some idx)
       end
     else Ok None) ;;
  let gate_score := gate_top_k_val in
  g' <-
    (if editing g then
       match target_top_k_idx with
       | None => Raise UnboundLocalError
       | Some idx =>
           init_expert_probs <- gather gate idx ;;
           Ok (set_loss g (guided_loss gate init_expert_probs))
       end
     else Ok g) ;;
  Ok (gate_top_k_idx, gate_score,
      if return_all_scores then Some gate else None, g').

End Forward.

End Gate.

(** ** Matrix operations of the adapter layers *)

(** [m.T] / [m.mT] of a tensor given by its rows. *)
Definition T (m : matrix) : matrix :=
  map (fun j => map (fun row => nth j row 0) m) (seq 0 (width m)).

(** [x @ m] for [x] of shape [L, n] and [m] of shape [n, c] with [n >= 1];
    a row of [x] whose length is not the row count of [m] raises. *)
Definition matmul (x m : matrix) : result matrix :=
  if forallb (fun xr => Nat.eqb (length xr) (length m)) x
  then Ok (map (fun xr =>
                  map (fun j => rsum (map (fun p => fst p * nth j (snd p) 0)
                                          (combine xr m)))
                      (seq 0 (width m))) x)
  else Raise RuntimeError.

(** Batched [@]: equal batch sizes, or a batch of one broadcast over the
    other operand. *)
Definition bmm (xs ms : list matrix) : result (list matrix) :=
  if Nat.eqb (length xs) (length ms)
  then mapM (fun p => matmul (fst p) (snd p)) (combine xs ms)
  else match ms, xs with
       | [m], _ => mapM (fun x => matmul x m) xs
       | _, [x] => mapM (fun m => matmul x m) ms
       | _, _ => Raise RuntimeError
       end.

Definition same_shape (a b : matrix) : bool :=
  Nat.eqb (length a) (length b)
  && forallb (fun p => Nat.eqb (length (fst p)) (length (snd p))) (combine a b).

Definition vsub (a b : vec) : vec := map (fun p => fst p - snd p) (combine a b).

(** In-place [a += b] and [a -= b] on tensors of one shape (broadcasting
    inside a matrix is not modelled: a different shape raises). *)
Definition iadd2 (a b : matrix) : result matrix :=
  if same_shape a b then Ok (map (fun p => vadd (fst p) (snd p)) (combine a b))
  else Raise RuntimeError.

Definition isub2 (a b : matrix) : result matrix :=
  if same_shape a b then Ok (map (fun p => vsub (fst p) (snd p)) (combine a b))
  else Raise RuntimeError.

(** In-place [a += b] on batches: [b] has the batch size of [a] or is a
    batch of one. *)
Definition iadd3 (a b : list matrix) : result (list matrix) :=
  if Nat.eqb (length a) (length b)
  then mapM (fun p => iadd2 (fst p) (snd p)) (combine a b)
  else match b with
       | [d] => mapM (fun m => iadd2 m d) a
       | _ => Raise RuntimeError
       end.

(** ** The adapter layer: [LoraLayer] and [Linear] *)

Module Linear.

(** What a [lora_A] / [lora_B] dictionary can hold in this file:
    [update_layer] stores an [nn.Parameter], a tensor, which has [.T]
    and slicing but no attribute [weight]; [update_layer_conv2d] stores
    a module, which has [.weight]. *)
Inductive lora_entry : Type :=
| Param (data : matrix)
| Submodule (weight : matrix).

Definition get_weight (e : lora_entry) : result matrix :=
  match e with
  | Submodule w => Ok w
  | Param _ => Raise AttributeError
  end.

Definition get_data (e : lora_entry) : result matrix :=
  match e with
  | Param m => Ok m
  | Submodule _ => Raise AttributeError
  end.

Definition dict (A : Type) : Type := list (string * A).

Fixpoint lookup {A : Type} (d : dict A) (k : string) : option A :=
  match d with
  | [] => None
  | (k', a) :: d' => if String.eqb k' k then Some a else lookup d' k
  end.

Definition dict_get {A : Type} (d : dict A) (k : string) : result A :=
  match lookup d k with
  | Some a => Ok a
  | None => Raise KeyError
  end.

Definition dict_set {A : Type} (d : dict A) (k : string) (a : A) : dict A :=
  (k, a) :: d.

Record t : Type := mk {
  weight : matrix;
  bias : option vec;
  fan_in_fan_out : bool;
  in_features : nat;
  out_features : nat;
  r : dict nat;
  lora_alpha : dict R;
  scaling : dict R;
  lora_A : dict lora_entry;
  lora_B : dict lora_entry;
  nd_lora_A : Dynamic.t;
  nd_lora_B : Dynamic.t;
  merged : bool;
  disable_adapters : bool;
  active_adapter : string;
  warnings : list string          (* the messages passed to warnings.warn *)
}.

Definition with_weight (l : t) (w : matrix) (m : bool) : t :=
  mk w (bias l) (fan_in_fan_out l) (in_features l) (out_features l) (r l)
     (lora_alpha l) (scaling l) (lora_A l) (lora_B l) (nd_lora_A l) (nd_lora_B l)
     m (disable_adapters l) (active_adapter l) (warnings l).

Definition warn (l : t) (msg : string) : t :=
  mk (weight l) (bias l) (fan_in_fan_out l) (in_features l) (out_features l) (r l)
     (lora_alpha l) (scaling l) (lora_A l) (lora_B l) (nd_lora_A l) (nd_lora_B l)
     (merged l) (disable_adapters l) (active_adapter l) (warnings l ++ [msg]).

(** [LoraLayer.__init__] followed by [update_layer], as [Linear.__init__]
    runs them on the wrapped weight [W] and bias [b].  [A0] is the value
    [reset_lora_parameters] gives [lora_A] ([kaiming_uniform_]); [lora_B]
    starts at zero. *)
Definition init (adapter_name : string) (in_f out_f rank : nat) (alpha : R)
           (fifo : bool) (rank_per_block : nat) (W : matrix) (b : option vec)
           (A0 : matrix) : result t :=
  if Nat.ltb 0 rank then
    nd <- Dynamic.update_dynamic rank rank_per_block ;;
    Ok (mk W b fifo in_f out_f
           [(adapter_name, rank)] [(adapter_name, alpha)]
           [(adapter_name, alpha / INR rank)]
           [(adapter_name, Param A0)]
           [(adapter_name, Param (zeros rank out_f))]
           nd nd false false adapter_name [])
  else
    Ok (mk W b fifo in_f out_f
           [(adapter_name, rank)] [(adapter_name, alpha)] [] [] []
           Dynamic.default Dynamic.default false false adapter_name []).

Section Methods.

(** [transpose] is imported from [peft.utils]; it is taken as given. *)
Variable transpose : matrix -> bool -> matrix.

(** The dropout module of the active adapter applied to [x]
    ([nn.Dropout] or [nn.Identity]); its random mask is outside the
    model. *)
Variable lora_dropout : list matrix -> list matrix.

(** The term [transpose(B.weight @ A.weight, fan_in_fan_out) * scaling]
    of [merge] and [unmerge], in Python's evaluation order. *)
Definition delta_weight (l : t) : result matrix :=
  eB <- dict_get (lora_B l) (active_adapter l) ;;
  wB <- get_weight eB ;;
  eA <- dict_get (lora_A l) (active_adapter l) ;;
  wA <- get_weight eA ;;
  prod <- matmul wB wA ;;
  sc <- dict_get (scaling l) (active_adapter l) ;;
  Ok (mscale (transpose prod (fan_in_fan_out l)) sc).

Definition merge (l : t) : result t :=
  match lookup (lora_A l) (active_adapter l) with
  | None => Ok l
  | Some _ =>
      if merged l then Ok (warn l "Already merged. Nothing to do.")
      else
        rank <- dict_get (r l) (active_adapter l) ;;
        if Nat.ltb 0 rank then
          d <- delta_weight l ;;
          w <- iadd2 (weight l) d ;;
          Ok (with_weight l w true)
        else Ok l
  end.

Definition unmerge (l : t) : result t :=
  match lookup (lora_A l) (active_adapter l) with
  | None => Ok l
  | Some _ =>
      if negb (merged l) then Ok (warn l "Already unmerged. Nothing to do.")
      else
        rank <- dict_get (r l) (active_adapter l) ;;
        if Nat.ltb 0 rank then
          d <- delta_weight l ;;
          w <- isub2 (weight l) d ;;
          Ok (with_weight l w false)
        else Ok l
  end.

(** The base output [F.linear(x, transpose(weight, fan_in_fan_out), bias)]. *)
Definition base_output (l : t) (x : list matrix) : result (list matrix) :=
  F_linear (transpose (weight l) (fan_in_fan_out l)) (bias l) x.

(** The additive term of the adapter branch of [forward]:
    [(dropout(x) @ lora_A @ lora_B) * scaling]. *)
Definition correction (l : t) (LORA_BLOCK_MAPPING : list Z) (x : list matrix)
  : result (list matrix) :=
  eA <- dict_get (lora_A l) (active_adapter l) ;;
  dA <- get_data eA ;;
  blocks_A <- Dynamic.forward (nd_lora_A l) LORA_BLOCK_MAPPING (T dA) ;;
  let lora_A := map T blocks_A in
  eB <- dict_get (lora_B l) (active_adapter l) ;;
  dB <- get_data eB ;;
  lora_B <- Dynamic.forward (nd_lora_B l) LORA_BLOCK_MAPPING dB ;;
  xa <- bmm (lora_dropout x) lora_A ;;
  xab <- bmm xa lora_B ;;
  sc <- dict_get (scaling l) (active_adapter l) ;;
  Ok (map (fun m => mscale m sc) xab).

(** [Linear.forward]; [result.to(previous_dtype)] is the identity on
    idealised numbers. *)
Definition forward (l : t) (LORA_BLOCK_MAPPING : list Z) (x : list matrix)
  : result (t * list matrix) :=
  match lookup (lora_A l) (active_adapter l) with
  | None => y <- base_output l x ;; Ok (l, y)
  | Some _ =>
      if disable_adapters l then
        rank <- dict_get (r l) (active_adapter l) ;;
        l' <- (if Nat.ltb 0 rank && merged l then unmerge l else Ok l) ;;
        y <- base_output l' x ;;
        Ok (l', y)
      else
        rank <- dict_get (r l) (active_adapter l) ;;
        if Nat.ltb 0 rank && negb (merged l) then
          result <- base_output l x ;;
          c <- correction l LORA_BLOCK_MAPPING x ;;
          out <- iadd3 result c ;;
          Ok (l, out)
        else
          y <- base_output l x ;;
          Ok (l, y)
  end.

End Methods.

End Linear.

(** ** States of the cluster store built by its own operations *)

Inductive reachable (r0 : R) : VecDB.t -> Prop :=
| reach_init : reachable r0 (VecDB.init r0)
| reach_add : forall db k v lbl,
    reachable r0 db -> reachable r0 (VecDB.add_cluster db k v lbl)
| reach_update : forall db i k v db',
    reachable r0 db -> VecDB.update_cluster db i k v = Ok db' -> reachable r0 db'
| reach_split : forall db i d db',
    reachable r0 db -> VecDB.split_cluster_radii_in_half db i d = Ok db' ->
    reachable r0 db'.

(** Every cluster of the table holds at least one point. *)
Definition nonempty_clusters (tbl : list VecDB.row) : Prop :=
  Forall (fun c => VecDB.points c <> []) tbl.

(** Every entry of a tensor is zero. *)
Definition all_zero (m : matrix) : Prop := Forall (Forall (fun x => x = 0)) m.

(** The [try] block of [search_cluster] on one zipped triple. *)
Definition search_one_of (tbl : list VecDB.row) (z : vec * R * nat) : result Z :=
  VecDB.search_one tbl (fst (fst z)) (snd (fst z)) (snd z).

(** ** The block accessors of [dynamic] *)

Module Block.

Definition get_block_dimension (d : Dynamic.t) : nat := Dynamic.maximum_block d.

Definition get_block (d : Dynamic.t) : nat := Dynamic.current_block d.

(** [self.current_block = max(0, min(block, self.get_block()))] *)
Definition set_block (d : Dynamic.t) (block : Z) : Dynamic.t :=
  Dynamic.mk (Dynamic.maximum_rank d) (Dynamic.num_rank_per_block d)
             (Dynamic.maximum_block d)
             (Z.to_nat (Z.max 0 (Z.min block (Z.of_nat (get_block d))))).

End Block.

(** ** How the cluster store may change *)

(** [tbl'] keeps every cluster of [tbl] at its index, with its label. *)
Definition keeps_clusters (tbl tbl' : list VecDB.row) : Prop :=
  (length tbl <= length tbl')%nat /\
  forall i c, nth_error tbl i = Some c ->
              exists c', nth_error tbl' i = Some c'
                         /\ VecDB.key_label c' = VecDB.key_label c.

(** [db'] extends [db]: no cluster is removed or relabelled, the counters
    do not decrease, the forget-list is only appended to and the
    configured radius is kept. *)
Definition grows (db db' : VecDB.t) : Prop :=
  keeps_clusters (VecDB.table db) (VecDB.table db') /\
  (VecDB.forget_num db <= VecDB.forget_num db')%Z /\
  (VecDB.conflict_num db <= VecDB.conflict_num db')%Z /\
  (exists more, VecDB.forget_keys db' = VecDB.forget_keys db ++ more) /\
  VecDB.init_radius db' = VecDB.init_radius db.

(** The labels with the ignored positions ([-100]) removed. *)
Definition unmasked (l : list Z) : list Z :=
  filter (fun x => negb (x =? -100)%Z) l.

(** The row [add_cluster] appends for a key, a block and a label. *)
Definition seeded_row (r0 : R) (block : Z) (p : vec * list Z) : VecDB.row :=
  VecDB.mk_row (fst p) r0 (snd p) [VecDB.mk_point (fst p) block].

(** ** The update step as the claim words it *)

(** The trainer's assignment [layer.batch_iter = i] between two passes. *)
Definition set_batch_iter (st : Grace.layer) (i : Z) : Grace.layer :=
  Grace.mk (Grace.weight st) (Grace.bias st) (Grace.fan_in_fan_out st) (Grace.db st)
           (Some i) (Grace.edit_label st) (Grace.key_id st)
           (Grace.lora_block_mapping st) (Grace.disable_grace st)
           (Grace.block_id st) (Grace.training st).

(** The three-way decision read with the example's distance to its
    nearest cluster in the store as the example is reached (a search of
    its own for every example), to be compared with [Grace.train_one],
    which reads the lists of the one search made before the loop. *)
Definition claimed_update_step (st : Grace.layer) (index : nat) (query : vec)
  : result Grace.layer :=
  '(sds, ncs) <- VecDB.search_database (Grace.db st) [query] ;;
  smallest <- getitem sds 0 ;;
  nearest <- getitem ncs 0 ;;
  row <- getitem (VecDB.table (Grace.db st)) nearest ;;
  if Rgt_dec smallest (VecDB.radius row + Grace.init_radius st) then
    Grace.add_cluster st query index
  else
    lbl <- getitem (Grace.edit_label st) index ;;
    if VecDB.label_match lbl (VecDB.key_label row) then
      Grace.update_cluster st nearest query (Grace.block_id st)
    else
      st1 <- Grace.add_cluster st query index ;;
      d <- VecDB.split_cluster_radii_in_half (Grace.db st1) nearest smallest ;;
      Ok (Grace.with_db st1 d).

(** ** Exceptions outside [exn] *)

(** The deferral layers raise two exceptions that the memory and adapter
    layers above never raise. *)
Inductive pyexn : Type :=
| Std (e : exn)
| NotImplementedError
| NameError.

Inductive outcome (A : Type) : Type :=
| Returns (a : A)
| Raises (e : pyexn).

Arguments Returns {A} a.
Arguments Raises {A} e.

Definition lift {A : Type} (m : result A) : outcome A :=
  match m with
  | Ok a => Returns a
  | Raise e => Raises (Std e)
  end.

Definition obind {A B : Type} (m : outcome A) (f : A -> outcome B) : outcome B :=
  match m with
  | Returns a => f a
  | Raises e => Raises e
  end.

Notation "x <~ m ;; k" := (obind m (fun x => k))
  (at level 61, m at next level, right associativity).
Notation "' pat <~ m ;; k" := (obind m (fun x => match x with pat => k end))
  (at level 61, pat pattern, m at next level, right associativity).

(** ** The module-level variables of the deferral mechanism *)

(** [SEQ_REPR] and [IN_EDIT_SCOPE] are only bound by the first
    [ElderGraceLinear.forward]; [BINARY_CODE] starts as the empty list.
    A code tensor of shape [B, C] is the list of its rows of 0/1
    integers. *)
Record globals : Type := mk_globals {
  SEQ_REPR : option matrix;
  IN_EDIT_SCOPE : option (list bool);
  BINARY_CODE : list (list (list Z))
}.

Definition initial_globals : globals := mk_globals None None [].

(** ** [ElderGraceLinear]: binary codes and the deferral test *)

Module ElderGrace.

(** [self.key_id]: a tensor of positions, or a Python value that is
    compared with [-1]. *)
Inductive key : Type :=
| KeyTensor (ids : list Z)
| KeyInt (i : Z).

(** The attributes [is_last_iter], [editing] and [threshold] are set from
    outside the class and are tested with [hasattr]; [binary_code] is
    bound by the first [get_bin_code]. *)
Record t : Type := mk {
  weight : matrix;
  bias : option vec;
  fan_in_fan_out : bool;
  disable_grace : bool;
  key_id : key;
  gate_linear_layers : list (matrix * option vec);
  top_k : nat;
  num_experts : nat;
  binary_code : option (list (list Z));
  is_last_iter : option bool;
  editing : option bool;
  threshold : option R
}.

Definition with_binary_code (l : t) (c : list (list Z)) : t :=
  mk (weight l) (bias l) (fan_in_fan_out l) (disable_grace l) (key_id l)
     (gate_linear_layers l) (top_k l) (num_experts l) (Some c)
     (is_last_iter l) (editing l) (threshold l).

(** [row.scatter_(0, idx, 1)] on one row: an index outside the row
    raises. *)
Fixpoint scatter_ones (row : list Z) (idx : list nat) : result (list Z) :=
  match idx with
  | [] => Ok row
  | j :: idx' =>
      if (j <? length row)%nat then scatter_ones (setitem row j 1%Z) idx'
      else Raise RuntimeError
  end.

(** One row of [torch.zeros((B, num_experts)).scatter_(1, idx, 1)]. *)
Definition k_hot (num_experts : nat) (idx : list nat) : result (list Z) :=
  scatter_ones (repeat 0%Z num_experts) idx.

(** [torch.cat(ms, dim=1)] of tensors with the same number of rows: raises
    on an empty list. *)
Definition cat1 (ms : list (list (list Z))) : result (list (list Z)) :=
  match ms with
  | [] => Raise RuntimeError
  | m :: ms' =>
      Ok (fold_left (fun acc m' => map (fun p => fst p ++ snd p) (combine acc m'))
                    ms' m)
  end.

(** [torch.cat(ms, dim=0)]: raises on an empty list and on rows of
    different widths. *)
Definition cat0 (ms : list (list (list Z))) : result (list (list Z)) :=
  match ms with
  | [] => Raise RuntimeError
  | _ :: _ =>
      let rows := concat ms in
      match rows with
      | [] => Ok []
      | r0 :: _ =>
          if forallb (fun r => Nat.eqb (length r) (length r0)) rows
          then Ok rows else Raise RuntimeError
      end
  end.

(** [.to(torch.bool)] on one entry. *)
Definition to_bool (z : Z) : bool := negb (z =? 0)%Z.

(** [a ^ b] on two rows, with the broadcasting of a row of width 1. *)
Definition xor_rows (a b : list bool) : result (list bool) :=
  if Nat.eqb (length a) (length b)
  then Ok (map (fun p => xorb (fst p) (snd p)) (combine a b))
  else match a, b with
       | [x], _ => Ok (map (xorb x) b)
       | _, [y] => Ok (map (fun x => xorb x y) a)
       | _, _ => Raise RuntimeError
       end.

(** [.sum()] of a row of booleans. *)
Definition count_true (xs : list bool) : Z :=
  Z.of_nat (length (filter (fun b => b) xs)).

(** [.min(dim=1)[0]] on one row of distances: raises on an empty row. *)
Definition min_row (ds : list Z) : result Z :=
  match ds with
  | [] => Raise IndexError
  | d :: ds' => Ok (fold_left Z.min ds' d)
  end.

(** One entry of [hamming_distance]. *)
Definition hamming (c d : list Z) : result Z :=
  xs <- xor_rows (map to_bool c) (map to_bool d) ;;
  Ok (count_true xs).

(** [discriminate]: for every row of [self.binary_code], whether its
    smallest Hamming distance to a recorded code is below the
    threshold. *)
Definition discriminate (l : t) (G : globals) (threshold : R) : result (list bool) :=
  dataset <- cat0 (BINARY_CODE G) ;;
  code <- match binary_code l with
          | Some c => Ok c
          | None => Raise AttributeError
          end ;;
  distances_min <- mapM (fun c => hs <- mapM (hamming c) dataset ;; min_row hs) code ;;
  Ok (map (fun x => if Rlt_dec (IZR x) threshold then true else false) distances_min).

(** [torch.gather(x, 1, key_id[:, None, None].expand(-1, -1, H)).squeeze(1)]:
    the row of each batch element at its own position; the index may
    have fewer entries than the batch, not more, and no position
    outside the sequence. *)
Fixpoint gather_keys (x : list matrix) (ids : list Z) : result matrix :=
  match ids, x with
  | [], _ => Ok []
  | _ :: _, [] => Raise RuntimeError
  | i :: ids', m :: x' =>
      r <- (if (0 <=? i)%Z
            then match nth_error m (Z.to_nat i) with
                 | Some r => Ok r
                 | None => Raise RuntimeError
                 end
            else Raise RuntimeError) ;;
      rs <- gather_keys x' ids' ;;
      Ok (r :: rs)
  end.

Section Methods.

Variable transpose : matrix -> bool -> matrix.

(** [torch.topk(row, k, largest=True, sorted=False)] on one row, for
    [k] at most the width of the row. *)
Variable topk : nat -> vec -> vec * list nat.

Definition topk_idx (k : nat) (row : vec) : result (list nat) :=
  if (k <=? length row)%nat then Ok (snd (topk k row)) else Raise RuntimeError.

(** The body of the loop of [get_bin_code] for one gate. *)
Definition k_hot_output (l : t) (bq : matrix) (linear : matrix * option vec)
  : result (list (list Z)) :=
  gate <- F_linear2 (fst linear) (snd linear) bq ;;
  gate_top_k_idx <- mapM (topk_idx (top_k l)) gate ;;
  mapM (k_hot (num_experts l)) gate_top_k_idx.

Definition get_bin_code (l : t) (bq : matrix) : result t :=
  k_hot_outputs <- mapM (k_hot_output l bq) (gate_linear_layers l) ;;
  gate_output_concat <- cat1 k_hot_outputs ;;
  Ok (with_binary_code l gate_output_concat).

(** The query of each batch element. *)
Definition batch_query (l : t) (x : list matrix) : outcome matrix :=
  match key_id l with
  | KeyTensor ids => lift (gather_keys x ids)
  | KeyInt i =>
      if (i =? -1)%Z then lift (mapM (fun m => py_index m (-1)%Z) x)
      else Raises NotImplementedError
  end.

(** [forward]: the layer output is the base output; the module-level
    variables carry the query, the recorded codes and the deferral
    flags. *)
Definition forward (l : t) (G : globals) (x : list matrix)
  : outcome (t * globals * list matrix) :=
  layer_out <~ lift (F_linear (transpose (weight l) (fan_in_fan_out l)) (bias l) x) ;;
  if disable_grace l then Returns (l, G, layer_out)
  else
    bq <~ batch_query l x ;;
    let G := mk_globals (Some bq) (IN_EDIT_SCOPE G) (BINARY_CODE G) in
    '(l, G) <~
      (match is_last_iter l with
       | Some true =>
           l' <~ lift (get_bin_code l bq) ;;
           match binary_code l' with
           | Some c =>
               Returns (l', mk_globals (SEQ_REPR G) (IN_EDIT_SCOPE G)
                                       (BINARY_CODE G ++ [c]))
           | None => Raises (Std AttributeError)
           end
       | _ => Returns (l, G)
       end) ;;
    '(l, G) <~
      (match editing l with
       | Some false =>
           l' <~ lift (get_bin_code l bq) ;;
           th <~ match threshold l' with
                 | Some th => Returns th
                 | None => Raises (Std AttributeError)
                 end ;;
           flag <~ lift (discriminate l' G th) ;;
           Returns (l', mk_globals (SEQ_REPR G) (Some flag) (BINARY_CODE G))
       | Some true =>
           Returns (l, mk_globals (SEQ_REPR G) (Some (repeat true (length x)))
                                  (BINARY_CODE G))
       | None => Returns (l, G)
       end) ;;
    Returns (l, G, layer_out).

End Methods.

End ElderGrace.

(** The Hamming distance of two codes of the same width. *)
Definition hamming_distance (c d : list Z) : Z :=
  ElderGrace.count_true
    (map (fun p => xorb (ElderGrace.to_bool (fst p)) (ElderGrace.to_bool (snd p)))
         (combine c d)).

(** ** [ElderLoraLayer]: one expert *)

Module ElderLoraLayer.

(** The module stored in [lora_dropout]: [nn.Dropout(p)] or
    [nn.Identity()]. *)
Inductive dropout_layer : Type :=
| Dropout (p : R)
| Identity.

Record t : Type := mk {
  in_features : nat;
  out_features : nat;
  r : Linear.dict nat;
  lora_alpha : Linear.dict R;
  scaling : Linear.dict R;
  lora_dropout : Linear.dict dropout_layer;
  lora_A : Linear.dict matrix;
  lora_B : Linear.dict matrix
}.

Definition init (in_f out_f : nat) : t := mk in_f out_f [] [] [] [] [] [].

(** [reset_lora_parameters]: [A0] is the value [kaiming_uniform_] gives
    [lora_A]; [lora_B] is zeroed in place. *)
Definition reset_lora_parameters (e : t) (adapter_name : string) (A0 : matrix)
  : result t :=
  match Linear.lookup (lora_A e) adapter_name with
  | Some _ =>
      B <- Linear.dict_get (lora_B e) adapter_name ;;
      Ok (mk (in_features e) (out_features e) (r e) (lora_alpha e) (scaling e)
             (lora_dropout e)
             (Linear.dict_set (lora_A e) adapter_name A0)
             (Linear.dict_set (lora_B e) adapter_name (mscale B 0)))
  | None => Ok e
  end.

(** [update_layer]: with [r > 0] the two factor dictionaries are replaced
    by new ones that hold the adapter alone. *)
Definition update_layer (e : t) (adapter_name : string) (rank : nat) (alpha : R)
           (dropout : R) (init_lora_weights : bool) (A0 : matrix) : result t :=
  let lora_dropout_layer := if Rgt_dec dropout 0 then Dropout dropout else Identity in
  let e1 := mk (in_features e) (out_features e)
               (Linear.dict_set (r e) adapter_name rank)
               (Linear.dict_set (lora_alpha e) adapter_name alpha)
               (scaling e)
               (Linear.dict_set (lora_dropout e) adapter_name lora_dropout_layer)
               (lora_A e) (lora_B e) in
  let e2 := if Nat.ltb 0 rank
            then mk (in_features e1) (out_features e1) (r e1) (lora_alpha e1)
                    (Linear.dict_set (scaling e1) adapter_name (alpha / INR rank))
                    (lora_dropout e1)
                    [(adapter_name, zeros (in_features e1) rank)]
                    [(adapter_name, zeros rank (out_features e1))]
            else e1 in
  if init_lora_weights then reset_lora_parameters e2 adapter_name A0 else Ok e2.

End ElderLoraLayer.

(** ** [ElderLinear]: the mixture of experts behind the deferral flags *)

Module ElderLinear.

Record t : Type := mk {
  weight : matrix;
  bias : option vec;
  fan_in_fan_out : bool;
  disable_adapters : bool;
  active_adapter : string;
  num_experts : nat;
  gate : Gate.t;
  experts : list ElderLoraLayer.t;
  gate_loss : option (option R)     (* unset before the first adapted pass *)
}.

(** [__init__] on the initial values [W], [b] of the wrapped layer and
    [Wg], [bg] of the gate; [A0 k] is the initial [lora_A] of expert [k]. *)
Definition init (adapter_name : string) (in_f out_f rank : nat) (alpha dropout : R)
           (fifo : bool) (n_experts top_k : nat) (init_lora_weights : bool)
           (W : matrix) (b : option vec) (Wg : matrix) (bg : option vec)
           (A0 : nat -> matrix) : result t :=
  es <- mapM (fun k => ElderLoraLayer.update_layer (ElderLoraLayer.init in_f out_f)
                         adapter_name rank alpha dropout init_lora_weights (A0 k))
             (seq 0 n_experts) ;;
  Ok (mk W b fifo false adapter_name n_experts
         (Gate.mk n_experts None Wg bg (Nat.min top_k n_experts) false None None false)
         es None).

(** [row.scatter_(0, index, src)] on one row: the index is no longer than
    the source and points inside the row. *)
Fixpoint scatter_row (row : vec) (idx : list nat) (src : vec) : result vec :=
  match idx, src with
  | [], _ => Ok row
  | _ :: _, [] => Raise RuntimeError
  | j :: idx', v :: src' =>
      if (j <? length row)%nat then scatter_row (setitem row j v) idx' src'
      else Raise RuntimeError
  end.

(** [self.scatter_(1, index, src)]: the index has no more rows than the
    tensor and the source. *)
Fixpoint scatter_ (self : matrix) (idx : list (list nat)) (src : matrix)
  : result matrix :=
  match idx, self, src with
  | [], _, _ => Ok self
  | _ :: _, [], _ => Raise RuntimeError
  | _ :: _, _ :: _, [] => Raise RuntimeError
  | i :: idx', row :: self', s :: src' =>
      r <- scatter_row row i s ;;
      rs <- scatter_ self' idx' src' ;;
      Ok (r :: rs)
  end.

Definition same_shape3 (a b : list matrix) : bool :=
  Nat.eqb (length a) (length b)
  && forallb (fun p => same_shape (fst p) (snd p)) (combine a b).

(** [torch.stack(outs, dim=1)] of tensors of shape [B, L, H]: the result
    is indexed by the batch element and then by the expert. *)
Definition stack1 (outs : list (list matrix)) : result (list (list matrix)) :=
  match outs with
  | [] => Raise RuntimeError
  | o :: _ =>
      if forallb (same_shape3 o) outs
      then Ok (map (fun b => map (fun o' => nth b o' []) outs) (seq 0 (length o)))
      else Raise RuntimeError
  end.

Definition madd (a b : matrix) : matrix :=
  map (fun p => vadd (fst p) (snd p)) (combine a b).

(** [torch.einsum('elh, e -> lh', mats, w)] for one batch element: the
    expert dimensions agree, or one of them is 1 and is broadcast. *)
Definition einsum_row (mats : list matrix) (w : vec) : result matrix :=
  terms <- (if Nat.eqb (length mats) (length w)
            then Ok (map (fun p => mscale (fst p) (snd p)) (combine mats w))
            else match mats, w with
                 | [m], _ => Ok (map (mscale m) w)
                 | _, [c] => Ok (map (fun m => mscale m c) mats)
                 | _, _ => Raise RuntimeError
                 end) ;;
  Ok (fold_left madd terms (mscale (hd [] mats) 0)).

(** [torch.einsum('belh, be -> blh', expert_outputs, full_gate_weights)]
    on two tensors with the same batch size. *)
Definition einsum (expert_outputs : list (list matrix)) (full_gate_weights : matrix)
  : result (list matrix) :=
  mapM (fun p => einsum_row (fst p) (snd p)) (combine expert_outputs full_gate_weights).

(** [a + b] on tensors of one shape (broadcasting inside a batch element
    is not modelled: a different shape raises). *)
Definition add3 (a b : list matrix) : result (list matrix) :=
  if same_shape3 a b then Ok (map (fun p => madd (fst p) (snd p)) (combine a b))
  else Raise RuntimeError.

(** [torch.where(torch.tensor(flag).view(len(flag), 1, 1), a, b)] for [a]
    and [b] of one shape: an empty [flag] gives a condition that is not
    boolean; the batch sizes agree, or one of them is 1 and is
    broadcast. *)
Definition where3 (flag : list bool) (a b : list matrix) : result (list matrix) :=
  match flag with
  | [] => Raise RuntimeError
  | _ :: _ =>
      if Nat.eqb (length flag) (length a)
      then Ok (map (fun p : bool * (matrix * matrix) =>
                      if fst p then fst (snd p) else snd (snd p))
                   (combine flag (combine a b)))
      else match flag, a, b with
           | [c], _, _ => Ok (if c then a else b)
           | _, [a0], [b0] => Ok (map (fun c : bool => if c then a0 else b0) flag)
           | _, _, _ => Raise RuntimeError
           end
  end.

Definition with_gate (l : t) (g : Gate.t) (loss : option (option R)) : t :=
  mk (weight l) (bias l) (fan_in_fan_out l) (disable_adapters l) (active_adapter l)
     (num_experts l) g (experts l) loss.

Section Methods.

Variable transpose : matrix -> bool -> matrix.
Variable topk : nat -> vec -> vec * list nat.

(** [nn.Dropout(p)] applied to a tensor; its random mask is outside the
    model. *)
Variable nn_dropout : R -> list matrix -> list matrix.

Definition apply_dropout (d : ElderLoraLayer.dropout_layer) (x : list matrix)
  : list matrix :=
  match d with
  | ElderLoraLayer.Dropout p => nn_dropout p x
  | ElderLoraLayer.Identity => x
  end.

(** One element of the list comprehension of [forward]:
    [(e.lora_dropout[a](x) @ e.lora_A[a] @ e.lora_B[a]) * e.scaling[a]]. *)
Definition expert_output (adapter : string) (x : list matrix) (e : ElderLoraLayer.t)
  : result (list matrix) :=
  d <- Linear.dict_get (ElderLoraLayer.lora_dropout e) adapter ;;
  A <- Linear.dict_get (ElderLoraLayer.lora_A e) adapter ;;
  xa <- mapM (fun m => matmul m A) (apply_dropout d x) ;;
  B <- Linear.dict_get (ElderLoraLayer.lora_B e) adapter ;;
  xab <- mapM (fun m => matmul m B) xa ;;
  s <- Linear.dict_get (ElderLoraLayer.scaling e) adapter ;;
  Ok (map (fun m => mscale m s) xab).

(** The weighted sum of the expert outputs, [lora_result]. *)
Definition lora_result (l : t) (batch_query : matrix) (x : list matrix)
  : result (Gate.t * list matrix) :=
  r <- Gate.forward topk (gate l) batch_query false ;;
  let '(gate_top_k_idx, gate_score, _, g) := r in
  full_gate_weights <- scatter_ (zeros (length x) (num_experts l))
                                gate_top_k_idx gate_score ;;
  outs <- mapM (expert_output (active_adapter l) x) (experts l) ;;
  expert_outputs <- stack1 outs ;;
  lora <- einsum expert_outputs full_gate_weights ;;
  Ok (g, lora).

(** [forward]: the module-level variables are read, never written. *)
Definition forward (l : t) (G : globals) (x : list matrix)
  : outcome (t * list matrix) :=
  result <~ lift (F_linear (transpose (weight l) (fan_in_fan_out l)) (bias l) x) ;;
  if disable_adapters l then Returns (l, result)
  else
    batch_query <~ match SEQ_REPR G with
                   | Some q => Returns q
                   | None => Raises NameError
                   end ;;
    '(g, lora) <~ lift (lora_result l batch_query x) ;;
    flag <~ match IN_EDIT_SCOPE G with
            | Some f => Returns f
            | None => Raises NameError
            end ;;
    sum <~ lift (add3 result lora) ;;
    result_tensor <~ lift (where3 flag sum result) ;;
    Returns (with_gate l g (Some (Gate.loss g)), result_tensor).

End Methods.

End ElderLinear.

(** ** [mark_only_lora_as_trainable] *)

Module Trainable.

(** [sub in s] on Python strings. *)
Fixpoint contains (sub s : string) : bool :=
  if String.prefix sub s then true
  else match s with
       | EmptyString => false
       | String _ s' => contains sub s'
       end.

(** One entry of [model.named_parameters()]. *)
Record param : Type := mk_param { name : string; requires_grad : bool }.

(** One entry of [model.modules()]: whether it is a [LoraLayer], and the
    position in [named_parameters()] of its attribute [bias] when it has
    one that is not [None].  The parameter objects are shared between
    the two views of the model. *)
Record submodule : Type := mk_submodule { is_LoraLayer : bool; bias : option nat }.

Record model : Type := mk_model {
  named_parameters : list param;
  modules : list submodule
}.

Definition set_requires_grad (p : param) (b : bool) : param := mk_param (name p) b.

(** The body of the first loop. *)
Definition freeze (p : param) : param :=
  let p := if negb (contains "lora_" (name p)) && negb (contains "gate" (name p))
           then set_requires_grad p false else p in
  if contains "gate_proj" (name p) then set_requires_grad p false else p.

(** [m.bias.requires_grad = True] through the shared parameter. *)
Definition enable (ps : list param) (i : nat) : list param :=
  match nth_error ps i with
  | Some p => setitem ps i (set_requires_grad p true)
  | None => ps
  end.

(** The function returns nothing: the result is the model after the call
    and the exception it ended with, if any. *)
Definition mark_only_lora_as_trainable (m : model) (bias_mode : string)
  : model * option pyexn :=
  let ps := map freeze (named_parameters m) in
  if String.eqb bias_mode "none" then (mk_model ps (modules m), None)
  else if String.eqb bias_mode "all" then
    (mk_model (map (fun p => if contains "bias" (name p)
                             then set_requires_grad p true else p) ps)
              (modules m), None)
  else if String.eqb bias_mode "lora_only" then
    (mk_model (fold_left (fun ps md =>
                            if is_LoraLayer md
                            then match bias md with
                                 | Some i => enable ps i
                                 | None => ps
                                 end
                            else ps)
                         (modules m) ps)
              (modules m), None)
  else (mk_model ps (modules m), Some NotImplementedError).

End Trainable.

(** * Properties *)

Unset Implicit Arguments.

(** ** Lists, indices and the error monad *)

Lemma getitem_Ok : forall (A : Type) (l : list A) i a,
  getitem l i = Ok a <-> nth_error l i = Some a.
Proof.
  intros A l i a. unfold getitem.
  destruct (nth_error l i); split; intros E; inversion E; reflexivity.
Qed.

Lemma getitem_some : forall (A : Type) (l : list A) i a,
  nth_error l i = Some a -> getitem l i = Ok a.
Proof. intros. now apply getitem_Ok. Qed.

Lemma setitem_length : forall (A : Type) (l : list A) i a,
  length (setitem l i a) = length l.
Proof.
  intros A l. induction l as [|b l IH]; intros [|i] a; simpl; auto.
Qed.

Lemma setitem_same : forall (A : Type) (l : list A) i a,
  (i < length l)%nat -> nth_error (setitem l i a) i = Some a.
Proof.
  intros A l. induction l as [|b l IH]; intros [|i] a Hlt; simpl in *; try lia; auto.
  apply IH. lia.
Qed.

Lemma setitem_other : forall (A : Type) (l : list A) i j a,
  i <> j -> nth_error (setitem l i a) j = nth_error l j.
Proof.
  intros A l. induction l as [|b l IH]; intros [|i] [|j] a Hne; simpl; auto;
    try congruence.
Qed.

Lemma setitem_Forall : forall (A : Type) (P : A -> Prop) (l : list A) i a,
  Forall P l -> P a -> Forall P (setitem l i a).
Proof.
  intros A P l. induction l as [|b l IH]; intros [|i] a Hl Ha; simpl; auto;
    inversion Hl; subst; constructor; auto.
Qed.

Lemma nth_error_lt : forall (A : Type) (l : list A) i a,
  nth_error l i = Some a -> (i < length l)%nat.
Proof. intros A l i a E. apply nth_error_Some. congruence. Qed.

Lemma mapM_nth : forall (A B : Type) (f : A -> result B) l l' i a,
  mapM f l = Ok l' -> nth_error l i = Some a ->
  exists b, f a = Ok b /\ nth_error l' i = Some b.
Proof.
  intros A B f l. induction l as [|x l IH]; intros l' i a E Hn.
  - destruct i; discriminate.
  - simpl in E. destruct (f x) as [b|] eqn:Ef; [|discriminate]. simpl in E.
    destruct (mapM f l) as [bs|] eqn:Em; [|discriminate]. simpl in E.
    inversion E; subst. destruct i as [|i]; simpl in *.
    + inversion Hn; subst. eauto.
    + eapply IH; eauto.
Qed.

Lemma mapM_length : forall (A B : Type) (f : A -> result B) l l',
  mapM f l = Ok l' -> length l' = length l.
Proof.
  intros A B f l. induction l as [|x l IH]; intros l' E; simpl in E.
  - inversion E; reflexivity.
  - destruct (f x); [|discriminate]. simpl in E.
    destruct (mapM f l) eqn:Em; [|discriminate]. simpl in E.
    inversion E; subst. simpl. f_equal. auto.
Qed.

(** ** Distances and reductions *)

Lemma euc_nonneg : forall a b, 0 <= euc a b.
Proof. intros. unfold euc. apply sqrt_pos. Qed.

Lemma euc_1d : forall a b, euc [a] [b] = Rabs (a - b).
Proof.
  intros a b. unfold euc. simpl.
  replace ((a - b) * (a - b) + 0) with (Rsqr (a - b)) by (unfold Rsqr; ring).
  apply sqrt_Rsqr_abs.
Qed.

Lemma tensor_max_ge_init : forall ds d, d <= tensor_max d ds.
Proof.
  unfold tensor_max. intros ds. induction ds as [|x ds IH]; intros d; simpl.
  - lra.
  - eapply Rle_trans; [apply Rmax_l | apply IH].
Qed.

Lemma tensor_max_upper : forall ds d x, In x (d :: ds) -> x <= tensor_max d ds.
Proof.
  unfold tensor_max. intros ds. induction ds as [|y ds IH]; intros d x Hin; simpl in *.
  - destruct Hin as [->|[]]. lra.
  - destruct Hin as [->|[->|Hin]].
    + eapply Rle_trans; [apply Rmax_l | apply (tensor_max_ge_init ds)].
    + eapply Rle_trans; [apply Rmax_r | apply (tensor_max_ge_init ds)].
    + apply IH. right. exact Hin.
Qed.

Lemma tensor_max_attained : forall ds d, In (tensor_max d ds) (d :: ds).
Proof.
  unfold tensor_max. intros ds. induction ds as [|y ds IH]; intros d; simpl.
  - auto.
  - destruct (IH (Rmax d y)) as [E|Hin].
    + rewrite <- E. unfold Rmax. destruct (Rle_dec d y); auto.
    + right. right. exact Hin.
Qed.

Lemma py_max_Rmax : forall a b, py_max a b = Rmax a b.
Proof.
  intros a b. unfold py_max, Rmax.
  destruct (Rlt_dec a b), (Rle_dec a b); try reflexivity; lra.
Qed.

Lemma tensor_min_spec : forall ds d m i,
  tensor_min d ds = (m, i) ->
  nth_error (d :: ds) i = Some m /\ forall x, In x (d :: ds) -> m <= x.
Proof.
  intros ds. induction ds as [|y ds IH]; intros d m i E; simpl in E.
  - inversion E; subst. split; [reflexivity|]. intros x [->|[]]. lra.
  - destruct (tensor_min y ds) as [m' i'] eqn:Et.
    destruct (IH _ _ _ Et) as [Hn Hmin].
    destruct (Rle_dec d m'); inversion E; subst.
    + split; [reflexivity|]. intros x [->|Hin]; [lra|].
      specialize (Hmin _ Hin). lra.
    + split; [exact Hn|]. intros x [->|Hin]; [lra|]. auto.
Qed.

(** ** The cluster store *)

Lemma Forall_nth_error : forall (A : Type) (P : A -> Prop) (l : list A) i a,
  Forall P l -> nth_error l i = Some a -> P a.
Proof.
  intros A P l i a H E. rewrite Forall_forall in H. apply H.
  eapply nth_error_In; eauto.
Qed.

Ltac bind_inv H :=
  match type of H with
  | bind ?m _ = Ok _ =>
      let E := fresh "E" in
      destruct m eqn:E; simpl in H; [| discriminate H]
  end.

Ltac bind_inv_as H x :=
  match type of H with
  | bind ?m _ = Ok _ =>
      let E := fresh "E" in
      destruct m as [x|] eqn:E; simpl in H; [| discriminate H]
  end.

Ltac if_inv H :=
  match type of H with
  | (if ?b then _ else _) = Ok _ =>
      let E := fresh "Eb" in
      destruct b eqn:E; [| discriminate H]
  end.

Lemma add_cluster_nonempty : forall db k v lbl,
  nonempty_clusters (VecDB.table db) ->
  nonempty_clusters (VecDB.table (VecDB.add_cluster db k v lbl)).
Proof.
  intros db k v lbl H. unfold nonempty_clusters, VecDB.add_cluster. simpl.
  apply Forall_app. split; [exact H|]. constructor; [|constructor].
  simpl. discriminate.
Qed.

Lemma update_cluster_nonempty : forall db i k v db',
  VecDB.update_cluster db i k v = Ok db' ->
  nonempty_clusters (VecDB.table db) ->
  nonempty_clusters (VecDB.table db').
Proof.
  intros db i k v db' E H. unfold VecDB.update_cluster in E.
  bind_inv E. inversion E; subst; clear E. simpl.
  apply setitem_Forall; [exact H|]. simpl.
  intros C. apply app_eq_nil in C. destruct C as [_ C]. discriminate.
Qed.

Lemma split_nonempty : forall db i d db',
  VecDB.split_cluster_radii_in_half db i d = Ok db' ->
  nonempty_clusters (VecDB.table db) ->
  nonempty_clusters (VecDB.table db').
Proof.
  intros db i d db' E H. unfold VecDB.split_cluster_radii_in_half in E.
  bind_inv E. bind_inv E. bind_inv E. bind_inv E.
  destruct (VecDB.refilter _ _ _) as [kept forgot].
  inversion E; subst; clear E. simpl.
  apply getitem_Ok in E0, E1.
  assert (H1 : nonempty_clusters
                 (setitem (VecDB.table db) i (VecDB.set_radius a (d / 2 - VecDB.eps)))).
  { apply setitem_Forall; [exact H|]. simpl.
    eapply (Forall_nth_error _ (fun c => VecDB.points c <> [])); eauto. }
  apply setitem_Forall.
  - apply setitem_Forall; [exact H1|]. simpl.
    eapply (Forall_nth_error _ (fun c => VecDB.points c <> [])); eauto.
  - simpl. destruct kept; discriminate.
Qed.

Lemma reachable_nonempty : forall r0 db,
  reachable r0 db -> nonempty_clusters (VecDB.table db).
Proof.
  intros r0 db H. induction H.
  - constructor.
  - now apply add_cluster_nonempty.
  - eapply update_cluster_nonempty; eauto.
  - eapply split_nonempty; eauto.
Qed.

(** What [split_cluster_radii_in_half] leaves in the table when the split
    cluster is not the last one: both radii, the re-filtered points with
    the sentinel, and the counters. *)
Lemma split_spec : forall db i d c cl,
  nth_error (VecDB.table db) i = Some c ->
  (S i < length (VecDB.table db))%nat ->
  nth_error (VecDB.table db) (length (VecDB.table db) - 1) = Some cl ->
  VecDB.points c <> [] ->
  let kf := VecDB.refilter (VecDB.cluster_center c) (d / 2 - VecDB.eps)
                           (VecDB.points c) in
  let filtered := match fst kf with
                  | [] => [VecDB.mk_point (VecDB.cluster_center c) NO_LORA]
                  | _ => fst kf
                  end in
  VecDB.split_cluster_radii_in_half db i d =
  Ok (VecDB.mk (VecDB.init_radius db)
        (setitem
           (setitem
              (setitem (VecDB.table db) i (VecDB.set_radius c (d / 2 - VecDB.eps)))
              (length (VecDB.table db) - 1)
              (VecDB.set_radius cl (d / 2 + VecDB.eps)))
           i (VecDB.mk_row (VecDB.cluster_center c) (d / 2 - VecDB.eps)
                           (VecDB.key_label c) filtered))
        (VecDB.forget_num db
         + (Z.of_nat (length (VecDB.points c)) - Z.of_nat (length filtered)))%Z
        (VecDB.conflict_num db + 1)%Z
        (VecDB.forget_keys db ++ snd kf)).
Proof.
  intros db i d c cl Hc Hlt Hcl Hne kf filtered.
  unfold VecDB.split_cluster_radii_in_half.
  rewrite (getitem_some _ _ _ _ Hc). simpl.
  rewrite setitem_length.
  assert (Hneq : i <> (length (VecDB.table db) - 1)%nat) by lia.
  match goal with
  | |- context [getitem ?l ?j] =>
      replace (getitem l j) with (Ok cl)
        by (symmetry; apply getitem_some; rewrite setitem_other; auto)
  end.
  simpl.
  match goal with
  | |- context [getitem ?l i] =>
      replace (getitem l i) with (Ok (VecDB.set_radius c (d / 2 - VecDB.eps)))
        by (symmetry; apply getitem_some; rewrite setitem_other by auto;
            apply setitem_same; lia)
  end.
  simpl.
  subst kf filtered.
  assert (Es : stack (map VecDB.get_key (VecDB.points c))
               = Ok (map VecDB.get_key (VecDB.points c))).
  { destruct (VecDB.points c); [congruence | reflexivity]. }
  rewrite Es. simpl bind.
  destruct (VecDB.refilter (VecDB.cluster_center c) (d / 2 - VecDB.eps)
                           (VecDB.points c)) as [kept forgot].
  simpl fst. simpl snd. unfold VecDB.set_points. simpl.
  rewrite length_map. reflexivity.
Qed.

Lemma setitem_nth_inv : forall (A : Type) (l : list A) i j a b,
  nth_error (setitem l j a) i = Some b ->
  (i = j /\ b = a) \/ (i <> j /\ nth_error l i = Some b).
Proof.
  intros A l i j a b E. destruct (Nat.eq_dec i j) as [->|Hne].
  - left. split; [reflexivity|].
    pose proof (nth_error_lt _ _ _ _ E) as Hlt. rewrite setitem_length in Hlt.
    rewrite setitem_same in E by exact Hlt. congruence.
  - right. split; [exact Hne|]. rewrite setitem_other in E by congruence. exact E.
Qed.

Lemma refilter_kept_In : forall center rad ps p,
  In p (fst (VecDB.refilter center rad ps)) <->
  In p ps /\ euc (VecDB.get_key p) center <= rad.
Proof.
  intros center rad ps p. induction ps as [|q ps IH]; simpl.
  - tauto.
  - destruct (VecDB.refilter center rad ps) as [kept forgot]. simpl in IH.
    destruct (Rle_dec (euc (VecDB.get_key q) center) rad) as [Hle|Hgt]; simpl.
    + rewrite IH. split.
      * intros [->|[H1 H2]]; auto.
      * intros [[->|H1] H2]; auto.
    + rewrite IH. split.
      * intros [H1 H2]; auto.
      * intros [[->|H1] H2]; [contradiction | auto].
Qed.

Lemma refilter_lengths : forall center rad ps,
  (length (fst (VecDB.refilter center rad ps))
   + length (snd (VecDB.refilter center rad ps)) = length ps)%nat.
Proof.
  intros center rad ps. induction ps as [|q ps IH]; simpl; [reflexivity|].
  destruct (VecDB.refilter center rad ps) as [kept forgot]. simpl in IH.
  destruct (Rle_dec (euc (VecDB.get_key q) center) rad); simpl; lia.
Qed.

Lemma refilter_all_out : forall center rad ps,
  (forall p, In p ps -> ~ euc (VecDB.get_key p) center <= rad) ->
  VecDB.refilter center rad ps = ([], map VecDB.get_key ps).
Proof.
  intros center rad ps H. induction ps as [|q ps IH]; simpl; [reflexivity|].
  rewrite IH by (intros p Hp; apply H; right; exact Hp).
  destruct (Rle_dec (euc (VecDB.get_key q) center) rad) as [Hle|Hgt].
  - exfalso. apply (H q); [left; reflexivity | exact Hle].
  - reflexivity.
Qed.

(** The row of the split cluster after [split_cluster_radii_in_half], in
    terms of the radius the row ends up with (also when the split cluster
    is the last one of the table). *)
Lemma split_row : forall db i d db' c,
  VecDB.split_cluster_radii_in_half db i d = Ok db' ->
  nth_error (VecDB.table db) i = Some c ->
  exists c',
    nth_error (VecDB.table db') i = Some c' /\
    VecDB.cluster_center c' = VecDB.cluster_center c /\
    let kf := VecDB.refilter (VecDB.cluster_center c) (VecDB.radius c')
                             (VecDB.points c) in
    VecDB.points c' = match fst kf with
                      | [] => [VecDB.mk_point (VecDB.cluster_center c) NO_LORA]
                      | _ => fst kf
                      end /\
    VecDB.forget_keys db' = VecDB.forget_keys db ++ snd kf /\
    VecDB.forget_num db' =
      (VecDB.forget_num db
       + (Z.of_nat (length (VecDB.points c)) - Z.of_nat (length (VecDB.points c'))))%Z /\
    VecDB.conflict_num db' = (VecDB.conflict_num db + 1)%Z.
Proof.
  intros db i d db' c E Hc. unfold VecDB.split_cluster_radii_in_half in E.
  rewrite (getitem_some _ _ _ _ Hc) in E. simpl in E.
  bind_inv E. bind_inv E. bind_inv E.
  apply getitem_Ok in E0, E1.
  assert (Hcc : VecDB.cluster_center a0 = VecDB.cluster_center c
                /\ VecDB.points a0 = VecDB.points c).
  { apply setitem_nth_inv in E1. destruct E1 as [[Hi ->]|[Hne E1]].
    - apply setitem_nth_inv in E0. destruct E0 as [[_ ->]|[Hne _]]; simpl; auto.
      congruence.
    - apply setitem_nth_inv in E1. destruct E1 as [[_ ->]|[Hne' _]]; simpl; auto.
      congruence. }
  destruct Hcc as [Hcen Hpts].
  assert (El : length a1 = length (VecDB.points c)).
  { unfold stack in E2. destruct (map VecDB.get_key (VecDB.points a0)) eqn:Em;
      [discriminate|]. inversion E2; subst. rewrite <- Em, length_map.
    now rewrite Hpts. }
  rewrite Hcen, Hpts in E.
  destruct (VecDB.refilter (VecDB.cluster_center c) (VecDB.radius a0) (VecDB.points c))
    as [kept forgot] eqn:Er.
  inversion E; subst; clear E. simpl.
  eexists. split.
  - apply setitem_same. rewrite setitem_length.
    apply nth_error_lt in E1. rewrite setitem_length in E1. exact E1.
  - simpl. rewrite Er. simpl. rewrite El. repeat split; auto.
Qed.

(** C8: every cluster of the store holds at least one point.  A store
    built from the empty one by [add_cluster], [update_cluster] and
    [split_cluster_radii_in_half] has no empty cluster; [add_cluster]
    seeds the new cluster with exactly one point; [update_cluster] only
    appends to the cluster it updates; and when the re-filtering of
    [split_cluster_radii_in_half] keeps no point of the cluster, the
    cluster holds the single sentinel point made of its centre and the
    NO_EDIT value. *)
Theorem C8_clusters_never_empty :
  (forall r0 db, reachable r0 db -> nonempty_clusters (VecDB.table db)) /\
  (forall db k v lbl,
      exists c, VecDB.table (VecDB.add_cluster db k v lbl) = VecDB.table db ++ [c]
                /\ VecDB.points c = [VecDB.mk_point k v]) /\
  (forall db i k v db' c,
      VecDB.update_cluster db i k v = Ok db' ->
      nth_error (VecDB.table db) i = Some c ->
      exists c', nth_error (VecDB.table db') i = Some c'
                 /\ VecDB.points c' = VecDB.points c ++ [VecDB.mk_point k v]) /\
  (forall db i d db' c,
      VecDB.split_cluster_radii_in_half db i d = Ok db' ->
      nth_error (VecDB.table db) i = Some c ->
      exists c', nth_error (VecDB.table db') i = Some c'
                 /\ VecDB.points c' <> []
                 /\ ((forall p, In p (VecDB.points c) ->
                         ~ euc (VecDB.get_key p) (VecDB.cluster_center c)
                           <= VecDB.radius c') ->
                     VecDB.points c'
                     = [VecDB.mk_point (VecDB.cluster_center c) NO_LORA])).
Proof.
  split; [exact reachable_nonempty|]. split; [|split].
  - intros db k v lbl. eexists. split; reflexivity.
  - intros db i k v db' c E Hc. unfold VecDB.update_cluster in E.
    rewrite (getitem_some _ _ _ _ Hc) in E. simpl in E. inversion E; subst; clear E.
    simpl. eexists. split.
    + apply setitem_same. eapply nth_error_lt; eauto.
    + reflexivity.
  - intros db i d db' c E Hc.
    destruct (split_row _ _ _ _ _ E Hc) as (c' & Hn & _ & Hp & _).
    exists c'. split; [exact Hn|]. simpl in Hp. split.
    + rewrite Hp. destruct (fst _); discriminate.
    + intros Hout. rewrite Hp. rewrite (refilter_all_out _ _ _ Hout). reflexivity.
Qed.

(** A store built by three calls, and the invariant on it. *)
Lemma C8_clusters_never_empty_witness :
  nonempty_clusters
    (VecDB.table
       (VecDB.add_cluster (VecDB.add_cluster (VecDB.init 1) [0] 0%Z [1%Z])
                          [1] 1%Z [2%Z])).
Proof.
  apply (proj1 C8_clusters_never_empty 1).
  apply reach_add. apply reach_add. apply reach_init.
Defined.

(** ** [update_cluster]: centre and radius *)

Lemma vadd_length : forall a b H,
  length a = H -> length b = H -> length (vadd a b) = H.
Proof.
  intros a b H Ha Hb. unfold vadd. rewrite length_map, length_combine. lia.
Qed.

Lemma vadd_nth : forall a b j,
  (j < length a)%nat -> (j < length b)%nat ->
  nth j (vadd a b) 0 = nth j a 0 + nth j b 0.
Proof.
  intros a. induction a as [|x a IH]; intros [|y b] j Ha Hb; simpl in *; try lia.
  destruct j as [|j]; [reflexivity|]. apply IH; lia.
Qed.

Lemma fold_vadd_spec : forall ks k H,
  length k = H -> Forall (fun v => length v = H) ks ->
  length (fold_left vadd ks k) = H /\
  forall j, (j < H)%nat ->
            nth j (fold_left vadd ks k) 0
            = nth j k 0 + rsum (map (fun v => nth j v 0) ks).
Proof.
  intros ks. induction ks as [|v ks IH]; intros k H Hk Hks; simpl.
  - split; [exact Hk|]. intros j _. lra.
  - inversion Hks as [|? ? Hv Hks']; subst.
    assert (Hkv : length (vadd k v) = length k) by (apply vadd_length; auto).
    destruct (IH (vadd k v) (length k) Hkv Hks') as [Hl Hn].
    split; [exact Hl|]. intros j Hj. rewrite Hn by exact Hj.
    rewrite vadd_nth by lia. unfold rsum. lra.
Qed.

Lemma py_sum_spec : forall ks H,
  ks <> [] -> Forall (fun v => length v = H) ks ->
  length (py_sum ks) = H /\
  forall j, (j < H)%nat -> nth j (py_sum ks) 0 = rsum (map (fun v => nth j v 0) ks).
Proof.
  intros [|k ks] H Hne Hall; [congruence|]. inversion Hall; subst. simpl.
  match goal with
  | Hk : Forall _ ks |- _ =>
      destruct (fold_vadd_spec ks k (length k) eq_refl Hk) as [Hl Hn]
  end.
  split; [exact Hl|]. intros j Hj. rewrite Hn by exact Hj. reflexivity.
Qed.

Lemma vdiv_nth : forall a n j,
  (j < length a)%nat -> nth j (vdiv a n) 0 = nth j a 0 / INR n.
Proof.
  intros a n. unfold vdiv. induction a as [|x a IH]; intros [|j] Hj; simpl in *;
    try lia; auto. apply IH. lia.
Qed.

Lemma hd_tl_cons : forall (l : list R), l <> [] -> hd 0 l :: tl l = l.
Proof. intros [|x l] H; [congruence | reflexivity]. Qed.

(** C4: after [update_cluster(index, key, value)] on an existing cluster
    whose keys all have the width [H] of the new key, the call returns;
    the cluster holds its former points followed by the new one; its
    centre is, coordinate by coordinate, the arithmetic mean of all member
    keys; its radius is the larger of the distance of a farthest member to
    the new centre and [init_radius]; hence every member lies within the
    radius and the radius is at least [init_radius]. *)
Theorem C4_update_cluster_center_radius :
  forall db index new_key new_value c H,
    nth_error (VecDB.table db) index = Some c ->
    Forall (fun p => length (VecDB.get_key p) = H) (VecDB.points c) ->
    length new_key = H ->
    exists db' c',
      VecDB.update_cluster db index new_key new_value = Ok db' /\
      nth_error (VecDB.table db') index = Some c' /\
      VecDB.points c' = VecDB.points c ++ [VecDB.mk_point new_key new_value] /\
      length (VecDB.cluster_center c') = H /\
      (forall j, (j < H)%nat ->
         nth j (VecDB.cluster_center c') 0
         = rsum (map (fun p => nth j (VecDB.get_key p) 0) (VecDB.points c'))
           / INR (length (VecDB.points c'))) /\
      (exists far,
         In far (VecDB.points c') /\
         (forall p, In p (VecDB.points c') ->
            euc (VecDB.get_key p) (VecDB.cluster_center c')
            <= euc (VecDB.get_key far) (VecDB.cluster_center c')) /\
         VecDB.radius c'
         = Rmax (euc (VecDB.get_key far) (VecDB.cluster_center c'))
                (VecDB.init_radius db)) /\
      (forall p, In p (VecDB.points c') ->
         euc (VecDB.get_key p) (VecDB.cluster_center c') <= VecDB.radius c') /\
      VecDB.init_radius db <= VecDB.radius c'.
Proof.
  intros db index new_key new_value c H Hc Hkeys Hnew.
  unfold VecDB.update_cluster. rewrite (getitem_some _ _ _ _ Hc). simpl bind.
  set (pts := VecDB.points c ++ [VecDB.mk_point new_key new_value]).
  set (key_list := map VecDB.get_key pts).
  set (center := vdiv (py_sum key_list) (length key_list)).
  set (dists := map (fun k => euc k center) key_list).
  assert (Hpts : pts <> []).
  { subst pts. intros C. apply app_eq_nil in C. destruct C; discriminate. }
  assert (Hkl : key_list <> []).
  { subst key_list. destruct pts; [congruence | discriminate]. }
  assert (Hall : Forall (fun v => length v = H) key_list).
  { subst key_list pts. rewrite map_app. apply Forall_app. split.
    - rewrite Forall_map. exact Hkeys.
    - constructor; [exact Hnew | constructor]. }
  destruct (py_sum_spec key_list H Hkl Hall) as [Hsl Hsn].
  assert (Hdl : dists <> []).
  { subst dists. destruct key_list; [congruence | discriminate]. }
  pose proof (hd_tl_cons dists Hdl) as Hht.
  assert (Hin : forall p, In p pts -> In (euc (VecDB.get_key p) center) dists).
  { intros p Hp. subst dists key_list. rewrite map_map.
    apply (in_map (fun x => euc (VecDB.get_key x) center)). exact Hp. }
  assert (Hfar : exists far, In far pts /\
             tensor_max (hd 0 dists) (tl dists) = euc (VecDB.get_key far) center).
  { pose proof (tensor_max_attained (tl dists) (hd 0 dists)) as Ha.
    rewrite Hht in Ha.
    assert (Hd : dists = map (fun p => euc (VecDB.get_key p) center) pts).
    { subst dists key_list. apply map_map. }
    assert (Ha' : In (tensor_max (hd 0 dists) (tl dists))
                     (map (fun p => euc (VecDB.get_key p) center) pts))
      by (rewrite <- Hd; exact Ha).
    apply in_map_iff in Ha'. destruct Ha' as (far & Ef & Hf). exists far.
    split; [exact Hf|]. symmetry. exact Ef. }
  assert (Hup : forall p, In p pts ->
             euc (VecDB.get_key p) center <= tensor_max (hd 0 dists) (tl dists)).
  { intros p Hp. apply tensor_max_upper. rewrite Hht. apply Hin. exact Hp. }
  eexists. eexists. split; [reflexivity|]. simpl. split.
  { apply setitem_same. eapply nth_error_lt; eauto. }
  simpl. fold pts. fold key_list. fold center. fold dists.
  rewrite py_max_Rmax.
  split; [reflexivity|]. split.
  { subst center. unfold vdiv. rewrite length_map. exact Hsl. }
  split.
  { intros j Hj. subst center. rewrite vdiv_nth by lia. rewrite Hsn by exact Hj.
    subst key_list. rewrite map_map, length_map. reflexivity. }
  split.
  { destruct Hfar as (far & Hf & Ef). exists far. split; [exact Hf|]. split.
    - intros p Hp. rewrite <- Ef. apply Hup. exact Hp.
    - rewrite Ef. reflexivity. }
  split.
  { intros p Hp. eapply Rle_trans; [apply Hup; exact Hp | apply Rmax_l]. }
  apply Rmax_r.
Qed.

(** A second point added to a one-point cluster of width 1. *)
Lemma C4_update_cluster_center_radius_witness :
  exists db' c',
    VecDB.update_cluster (VecDB.add_cluster (VecDB.init 1) [0] 0%Z [1%Z])
                         0 [1] 1%Z = Ok db' /\
    nth_error (VecDB.table db') 0 = Some c' /\
    VecDB.init_radius db' <= VecDB.radius c'.
Proof.
  destruct (C4_update_cluster_center_radius
              (VecDB.add_cluster (VecDB.init 1) [0] 0%Z [1%Z]) 0 [1] 1%Z
              (VecDB.mk_row [0] 1 [1%Z] [VecDB.mk_point [0] 0%Z]) 1%nat)
    as (db' & c' & E & Hn & _ & _ & _ & _ & _ & Hr).
  - reflexivity.
  - repeat constructor.
  - reflexivity.
  - exists db', c'. split; [exact E|]. split; [exact Hn|].
    unfold VecDB.update_cluster in E. simpl in E. inversion E; subst. exact Hr.
Defined.

(** ** [split_cluster_radii_in_half]: the counters *)

Lemma euc_1d_same : forall a, euc [a] [a] = 0.
Proof.
  intros a. rewrite euc_1d. replace (a - a) with 0 by ring. apply Rabs_R0.
Qed.

(** The effects of [split_cluster_radii_in_half] on a cluster that is not
    the last one of the table (in [forward] a cluster has just been
    appended): the two radii, which sum to [smallest_distance]; the points
    kept; the keys forgotten; the counters.  [forget_num] grows by the
    number of forgotten keys, less one when no point is kept. *)
Lemma split_effects : forall db i d c cl,
  nth_error (VecDB.table db) i = Some c ->
  (S i < length (VecDB.table db))%nat ->
  nth_error (VecDB.table db) (length (VecDB.table db) - 1) = Some cl ->
  VecDB.points c <> [] ->
  let kf := VecDB.refilter (VecDB.cluster_center c) (d / 2 - VecDB.eps)
                           (VecDB.points c) in
  exists db' c' cl',
    VecDB.split_cluster_radii_in_half db i d = Ok db' /\
    nth_error (VecDB.table db') i = Some c' /\
    nth_error (VecDB.table db') (length (VecDB.table db) - 1) = Some cl' /\
    VecDB.radius c' = d / 2 - VecDB.eps /\
    VecDB.radius cl' = d / 2 + VecDB.eps /\
    VecDB.radius c' + VecDB.radius cl' = d /\
    VecDB.cluster_center c' = VecDB.cluster_center c /\
    (forall p, In p (fst kf) <->
               In p (VecDB.points c) /\
               euc (VecDB.get_key p) (VecDB.cluster_center c) <= d / 2 - VecDB.eps) /\
    VecDB.points c' = match fst kf with
                      | [] => [VecDB.mk_point (VecDB.cluster_center c) NO_LORA]
                      | _ => fst kf
                      end /\
    VecDB.forget_keys db' = VecDB.forget_keys db ++ snd kf /\
    VecDB.forget_num db'
    = (VecDB.forget_num db + Z.of_nat (length (snd kf))
       - match fst kf with [] => 1 | _ => 0 end)%Z /\
    VecDB.conflict_num db' = (VecDB.conflict_num db + 1)%Z.
Proof.
  intros db i d c cl Hc Hlt Hcl Hne kf.
  pose proof (split_spec db i d c cl Hc Hlt Hcl Hne) as E. cbv zeta in E.
  fold kf in E.
  pose proof (refilter_lengths (VecDB.cluster_center c) (d / 2 - VecDB.eps)
                               (VecDB.points c)) as Hlen.
  fold kf in Hlen.
  assert (Hneq : i <> (length (VecDB.table db) - 1)%nat) by lia.
  eexists. eexists. eexists. split; [exact E|]. simpl VecDB.table.
  split.
  { apply setitem_same. rewrite !setitem_length. lia. }
  split.
  { rewrite setitem_other by exact Hneq. apply setitem_same.
    rewrite setitem_length. lia. }
  simpl. split; [reflexivity|]. split; [reflexivity|]. split; [lra|].
  split; [reflexivity|]. split.
  { intros p. apply (refilter_kept_In (VecDB.cluster_center c) (d / 2 - VecDB.eps)
                                      (VecDB.points c) p). }
  split; [reflexivity|]. split; [reflexivity|]. split; [|reflexivity].
  destruct (fst kf); simpl in *; lia.
Qed.

(** C3: when the re-filtering excludes every point of the split cluster,
    all [n] member keys go to the forget-list, whereas [forget_num] grows
    by [n - 1] only: the sentinel point is appended to the filtered list
    before [len(key_list) - len(filtered_key_list)] is taken. *)
Theorem C3_split_forget_num_undercounts :
  forall db i d db' c c',
    VecDB.split_cluster_radii_in_half db i d = Ok db' ->
    nth_error (VecDB.table db) i = Some c ->
    nth_error (VecDB.table db') i = Some c' ->
    (forall p, In p (VecDB.points c) ->
       ~ euc (VecDB.get_key p) (VecDB.cluster_center c) <= VecDB.radius c') ->
    VecDB.forget_keys db' = VecDB.forget_keys db ++ map VecDB.get_key (VecDB.points c) /\
    VecDB.forget_num db'
    = (VecDB.forget_num db + Z.of_nat (length (VecDB.points c)) - 1)%Z /\
    VecDB.conflict_num db' = (VecDB.conflict_num db + 1)%Z.
Proof.
  intros db i d db' c c' E Hc Hc' Hout.
  destruct (split_row _ _ _ _ _ E Hc) as (c2 & Hn & _ & Hp & Hk & Hf & Hcn).
  rewrite Hc' in Hn. inversion Hn; subst c2. simpl in Hp, Hk.
  rewrite (refilter_all_out _ _ _ Hout) in Hp, Hk. simpl in Hp, Hk.
  rewrite Hk, Hf, Hp, Hcn. simpl. repeat split; lia.
Qed.

(** A key [0] stored with label [1], then the same key presented with
    label [2]: the conflict path of [forward] adds a cluster and splits
    cluster 0 at distance 0.  One key is forgotten and [forget_num] stays
    at 0. *)
Lemma C3_split_forget_num_undercounts_witness :
  exists db',
    VecDB.split_cluster_radii_in_half
      (VecDB.add_cluster (VecDB.add_cluster (VecDB.init 1) [0] 0%Z [1%Z])
                         [0] 1%Z [2%Z]) 0 0 = Ok db' /\
    VecDB.forget_keys db' = [[0]] /\
    VecDB.forget_num db' = 0%Z /\
    VecDB.conflict_num db' = 1%Z.
Proof.
  set (db := VecDB.add_cluster (VecDB.add_cluster (VecDB.init 1) [0] 0%Z [1%Z])
                               [0] 1%Z [2%Z]).
  set (c := VecDB.mk_row [0] 1 [1%Z] [VecDB.mk_point [0] 0%Z]).
  set (cl := VecDB.mk_row [0] 1 [2%Z] [VecDB.mk_point [0] 1%Z]).
  assert (E : VecDB.split_cluster_radii_in_half db 0 0 = _)
    by (apply (split_spec db 0%nat 0 c cl);
        [reflexivity | simpl; lia | reflexivity | discriminate]).
  eexists. split; [exact E|].
  eapply (C3_split_forget_num_undercounts db 0%nat 0 _ c) in E.
  - exact E.
  - reflexivity.
  - reflexivity.
  - simpl. intros p [<-|[]]. simpl. rewrite euc_1d_same. unfold VecDB.eps. lra.
Defined.

(** ** [search_cluster] *)

Lemma search_one_spec : forall tbl q d n c,
  nth_error tbl n = Some c ->
  VecDB.points c <> [] ->
  (d > VecDB.radius c -> VecDB.search_one tbl q d n = Ok NO_LORA) /\
  (~ d > VecDB.radius c ->
   exists p, In p (VecDB.points c) /\
             VecDB.search_one tbl q d n = Ok (VecDB.get_value p) /\
             forall p', In p' (VecDB.points c) ->
                        euc (VecDB.get_key p) q <= euc (VecDB.get_key p') q).
Proof.
  intros tbl q d n c Hc Hne. unfold VecDB.search_one.
  rewrite (getitem_some _ _ _ _ Hc). simpl bind.
  destruct (Rgt_dec d (VecDB.radius c)) as [Hgt|Hle].
  - split; [reflexivity | contradiction].
  - split; [contradiction|]. intros _.
    assert (Es : stack (map VecDB.get_key (VecDB.points c))
                 = Ok (map VecDB.get_key (VecDB.points c))).
    { destruct (VecDB.points c); [congruence | reflexivity]. }
    rewrite Es. simpl bind.
    set (dists := map (fun k => euc k q) (map VecDB.get_key (VecDB.points c))).
    assert (Hd : dists = map (fun p => euc (VecDB.get_key p) q) (VecDB.points c))
      by apply map_map.
    assert (Hdl : dists <> []).
    { rewrite Hd. destruct (VecDB.points c); [congruence | discriminate]. }
    destruct (tensor_min (hd 0 dists) (tl dists)) as [m k] eqn:Et.
    destruct (tensor_min_spec _ _ _ _ Et) as [Hk Hmin].
    rewrite (hd_tl_cons dists Hdl) in Hk, Hmin.
    rewrite Hd in Hk. rewrite nth_error_map in Hk.
    destruct (nth_error (VecDB.points c) k) as [p|] eqn:Ep; [|discriminate].
    simpl in Hk. inversion Hk as [Hm].
    exists p. split; [eapply nth_error_In; eauto|]. split.
    + rewrite (getitem_some _ _ _ _ Ep). reflexivity.
    + intros p' Hp'. rewrite Hm. apply Hmin. rewrite Hd.
      apply (in_map (fun x => euc (VecDB.get_key x) q)). exact Hp'.
Qed.

Lemma search_loop_ok : forall tbl zs acc,
  Forall (fun z => exists v, search_one_of tbl z = Ok v) zs ->
  exists vals,
    VecDB.search_loop tbl zs acc = Ok (acc ++ vals) /\
    Forall2 (fun z v => search_one_of tbl z = Ok v) zs vals.
Proof.
  intros tbl zs. induction zs as [|[[q d] n] zs IH]; intros acc H.
  - exists []. simpl. rewrite app_nil_r. split; [reflexivity | constructor].
  - inversion H as [|? ? [v Hv] Hrest]; subst.
    destruct (IH (acc ++ [v]) Hrest) as (vals & El & Hf).
    exists (v :: vals). unfold search_one_of in Hv. simpl in Hv. simpl.
    rewrite Hv. rewrite El. rewrite <- app_assoc. simpl.
    split; [reflexivity|]. constructor; [exact Hv | exact Hf].
Qed.

Lemma Forall2_nth : forall (A B : Type) (P : A -> B -> Prop) l l' i a,
  Forall2 P l l' -> nth_error l i = Some a ->
  exists b, nth_error l' i = Some b /\ P a b.
Proof.
  intros A B P l l' i a H. revert i. induction H as [|x y l l' Hxy _ IH]; intros i E.
  - destruct i; discriminate.
  - destruct i as [|i]; simpl in *.
    + inversion E; subst. eauto.
    + auto.
Qed.

Lemma combine_nth_error : forall (A B : Type) (l : list A) (l' : list B) i a b,
  nth_error l i = Some a -> nth_error l' i = Some b ->
  nth_error (combine l l') i = Some (a, b).
Proof.
  intros A B l. induction l as [|x l IH]; intros [|y l'] [|i] a b Ha Hb;
    simpl in *; try discriminate.
  - congruence.
  - auto.
Qed.

Lemma combine_In_snd : forall (A B : Type) (l : list A) (l' : list B) z,
  In z (combine l l') -> In (snd z) l'.
Proof.
  intros A B l l' [a b] H. simpl. eapply in_combine_r; eauto.
Qed.

Lemma search_all_good : forall tbl (bq : list vec) (sdl : list R) ncl,
  nonempty_clusters tbl ->
  Forall (fun n => (n < length tbl)%nat) ncl ->
  Forall (fun z => exists v, search_one_of tbl z = Ok v)
         (combine (combine bq sdl) ncl).
Proof.
  intros tbl bq sdl ncl Hne Hrange.
  apply Forall_forall. intros [[q d] n] Hz.
  apply combine_In_snd in Hz. simpl in Hz.
  rewrite Forall_forall in Hrange. specialize (Hrange _ Hz).
  destruct (nth_error tbl n) as [c|] eqn:Ec.
  2:{ apply nth_error_None in Ec. lia. }
  assert (Hc : VecDB.points c <> [])
    by (eapply (Forall_nth_error _ (fun c => VecDB.points c <> [])); eauto).
  destruct (search_one_spec tbl q d n c Ec Hc) as [H1 H2].
  unfold search_one_of. simpl.
  destruct (Rgt_dec d (VecDB.radius c)) as [Hgt|Hle].
  - eexists. apply H1. exact Hgt.
  - destruct (H2 Hle) as (p & _ & E & _). eexists. exact E.
Qed.

(** C2: on a store without empty clusters and for nearest-cluster indices
    inside the table, [search_cluster] returns one result per zipped
    query; the result of a query whose minimum distance exceeds the radius
    of its nearest cluster is NO_EDIT, and otherwise it is the value of a
    member point of that cluster whose Euclidean distance to the query is
    the least among the members of that cluster. *)
Theorem C2_search_cluster_nearest_point :
  forall db batch_query smallest_distance_list nearest_cluster_list,
    nonempty_clusters (VecDB.table db) ->
    Forall (fun n => (n < length (VecDB.table db))%nat) nearest_cluster_list ->
    exists res,
      VecDB.search_cluster db batch_query smallest_distance_list
                           nearest_cluster_list = Ok res /\
      length res
      = length (combine (combine batch_query smallest_distance_list)
                        nearest_cluster_list) /\
      forall i q d n c,
        nth_error batch_query i = Some q ->
        nth_error smallest_distance_list i = Some d ->
        nth_error nearest_cluster_list i = Some n ->
        nth_error (VecDB.table db) n = Some c ->
        (d > VecDB.radius c -> nth_error res i = Some NO_LORA) /\
        (~ d > VecDB.radius c ->
         exists p, In p (VecDB.points c) /\
                   nth_error res i = Some (VecDB.get_value p) /\
                   forall p', In p' (VecDB.points c) ->
                              euc (VecDB.get_key p) q <= euc (VecDB.get_key p') q).
Proof.
  intros db bq sdl ncl Hne Hrange. unfold VecDB.search_cluster.
  set (zs := combine (combine bq sdl) ncl).
  assert (Hgood : Forall (fun z => exists v, search_one_of (VecDB.table db) z = Ok v) zs)
  by (apply search_all_good; assumption).
destruct (search_loop_ok (VecDB.table db) zs [] Hgood) as (vals & El & Hf).
  simpl in El. exists vals. split; [exact El|]. split.
  { symmetry. eapply Forall2_length; eauto. }
  intros i q d n c Hq Hd Hn Hc.
  assert (Hz : nth_error zs i = Some (q, d, n)).
  { subst zs. apply combine_nth_error; [apply combine_nth_error|]; assumption. }
  destruct (Forall2_nth _ _ _ _ _ _ _ Hf Hz) as (v & Hv & Ev).
  unfold search_one_of in Ev. simpl in Ev.
  assert (Hpc : VecDB.points c <> [])
    by (eapply (Forall_nth_error _ (fun c => VecDB.points c <> [])); eauto).
  destruct (search_one_spec (VecDB.table db) q d n c Hc Hpc) as [H1 H2]. split.
  - intros Hgt. rewrite (H1 Hgt) in Ev. inversion Ev; subst. exact Hv.
  - intros Hle. destruct (H2 Hle) as (p & Hp & E & Hmin).
    exists p. split; [exact Hp|]. split; [|exact Hmin].
    rewrite E in Ev. inversion Ev; subst. exact Hv.
Qed.

(** One query at distance 0 of the only cluster. *)
Lemma C2_search_cluster_nearest_point_witness :
  exists res,
    VecDB.search_cluster (VecDB.add_cluster (VecDB.init 1) [0] 7%Z [1%Z])
                         [[0]] [0] [0%nat] = Ok res /\
    length res = 1%nat.
Proof.
  destruct (C2_search_cluster_nearest_point
              (VecDB.add_cluster (VecDB.init 1) [0] 7%Z [1%Z]) [[0]] [0] [0%nat])
    as (res & E & Hl & _).
  - constructor; [simpl; discriminate | constructor].
  - constructor; [simpl; lia | constructor].
  - exists res. split; [exact E | exact Hl].
Defined.

(** ** The training-time update of the memory layer *)

Lemma update_cluster_ok : forall db i k v c,
  nth_error (VecDB.table db) i = Some c ->
  exists db' c',
    VecDB.update_cluster db i k v = Ok db' /\
    VecDB.len db' = VecDB.len db /\
    nth_error (VecDB.table db') i = Some c' /\
    VecDB.points c' = VecDB.points c ++ [VecDB.mk_point k v].
Proof.
  intros db i k v c Hc. unfold VecDB.update_cluster.
  rewrite (getitem_some _ _ _ _ Hc). simpl bind.
  eexists. eexists. split; [reflexivity|]. unfold VecDB.len. simpl.
  split; [apply setitem_length|]. split.
  - apply setitem_same. eapply nth_error_lt; eauto.
  - reflexivity.
Qed.

(** ** Zero blocks and the adapter correction *)

Lemma all_zero_zeros : forall rows cols, all_zero (zeros rows cols).
Proof.
  intros rows cols. unfold all_zero, zeros.
  apply Forall_forall. intros row Hrow. apply repeat_spec in Hrow. subst row.
  apply Forall_forall. intros x Hx. apply repeat_spec in Hx. exact Hx.
Qed.

Lemma all_zero_mscale : forall m c, all_zero m -> all_zero (mscale m c).
Proof.
  intros m c H. unfold all_zero, mscale in *. rewrite Forall_map.
  eapply Forall_impl; [|exact H]. intros row Hrow. rewrite Forall_map.
  eapply Forall_impl; [|exact Hrow]. simpl. intros x ->. ring.
Qed.

Lemma all_zero_nth : forall m j row, all_zero m -> In row m -> nth j row 0 = 0.
Proof.
  intros m j row H Hin. unfold all_zero in H. rewrite Forall_forall in H.
  specialize (H _ Hin). destruct (nth_in_or_default j row 0) as [Hn|Hn].
  - rewrite Forall_forall in H. apply H. exact Hn.
  - exact Hn.
Qed.

Lemma rsum_zero : forall l, Forall (fun x => x = 0) l -> rsum l = 0.
Proof.
  intros l H. induction H as [|x l Hx _ IH]; simpl; [reflexivity|].
  fold (rsum l). rewrite Hx, IH. ring.
Qed.

Lemma matmul_zero_right : forall x m y,
  matmul x m = Ok y -> all_zero m -> all_zero y.
Proof.
  intros x m y E Hz. unfold matmul in E.
  if_inv E. inversion E; subst; clear E.
  unfold all_zero. rewrite Forall_map. apply Forall_forall. intros xr _.
  rewrite Forall_map. apply Forall_forall. intros j _.
  apply rsum_zero. rewrite Forall_map. apply Forall_forall. intros [a row] Hin.
  simpl. apply in_combine_r in Hin. rewrite (all_zero_nth m j row Hz Hin). ring.
Qed.

Lemma vadd_zero : forall a z,
  length a = length z -> Forall (fun x => x = 0) z -> vadd a z = a.
Proof.
  intros a. induction a as [|x a IH]; intros [|y z] Hl Hz; simpl in *;
    try discriminate; [reflexivity|].
  inversion Hz; subst. unfold vadd in *. simpl. f_equal; [ring|].
  apply IH; [lia | assumption].
Qed.

Lemma iadd2_zero : forall a z o, iadd2 a z = Ok o -> all_zero z -> o = a.
Proof.
  intros a z o E Hz. unfold iadd2, same_shape in E.
  if_inv E. apply andb_true_iff in Eb. destruct Eb as [El Ef].
  inversion E; subst; clear E. apply Nat.eqb_eq in El.
  rewrite forallb_forall in Ef. unfold all_zero in Hz.
  revert z El Ef Hz. induction a as [|r a IH]; intros [|rz z] El Ef Hz;
    simpl in *; try discriminate; [reflexivity|].
  inversion Hz; subst. f_equal.
  - apply vadd_zero; [|assumption].
    specialize (Ef (r, rz) (or_introl eq_refl)). simpl in Ef.
    now apply Nat.eqb_eq in Ef.
  - apply IH; [lia | | assumption]. intros p Hp. apply Ef. right. exact Hp.
Qed.

Lemma bmm_same_length : forall xs ms ys,
  bmm xs ms = Ok ys -> length xs = length ms ->
  length ys = length xs /\
  forall i x m, nth_error xs i = Some x -> nth_error ms i = Some m ->
                exists y, matmul x m = Ok y /\ nth_error ys i = Some y.
Proof.
  intros xs ms ys E Hl. unfold bmm in E.
  rewrite (proj2 (Nat.eqb_eq _ _) Hl) in E. split.
  - rewrite (mapM_length _ _ _ _ _ E), length_combine. lia.
  - intros i x m Hx Hm.
    destruct (mapM_nth _ _ _ _ _ i (x, m) E (combine_nth_error _ _ _ _ _ _ _ Hx Hm))
      as (y & Ey & Hy).
    exists y. split; assumption.
Qed.

Lemma iadd3_same_length : forall a b o,
  iadd3 a b = Ok o -> length a = length b ->
  forall i x y, nth_error a i = Some x -> nth_error b i = Some y ->
                exists z, iadd2 x y = Ok z /\ nth_error o i = Some z.
Proof.
  intros a b o E Hl i x y Hx Hy. unfold iadd3 in E.
  rewrite (proj2 (Nat.eqb_eq _ _) Hl) in E.
  destruct (mapM_nth _ _ _ _ _ i (x, y) E (combine_nth_error _ _ _ _ _ _ _ Hx Hy))
    as (z & Ez & Hz).
  exists z. split; assumption.
Qed.

Lemma dynamic_forward_spec : forall d mapping inputs blocks,
  Dynamic.forward d mapping inputs = Ok blocks ->
  length blocks = length mapping /\
  forall i, nth_error mapping i = Some NO_LORA ->
            nth_error blocks i
            = Some (mscale (zeros (Dynamic.num_rank_per_block d) (width inputs))
                           (Dynamic.rescale d)).
Proof.
  intros d mapping inputs blocks E. unfold Dynamic.forward in E.
  destruct mapping as [|b0 mapping]; [discriminate|].
  remember (b0 :: mapping) as mp. clear Heqmp.
  bind_inv E. inversion E; subst; clear E.
  unfold Dynamic.stack_blocks in E0.
  destruct (map (Dynamic.block_of d inputs) mp) as [|b bs] eqn:Em; [discriminate|].
  if_inv E0. inversion E0; subst; clear E0.
  rewrite <- Em. split.
  - now rewrite !length_map.
  - intros i Hi. rewrite !nth_error_map, Hi. simpl. reflexivity.
Qed.

Section NoEdit.

Variable transpose : matrix -> bool -> matrix.
Variable lora_dropout : list matrix -> list matrix.
(** Dropout keeps the batch dimension. *)
Hypothesis dropout_batch : forall x, length (lora_dropout x) = length x.

Lemma correction_no_edit : forall l mapping x corr i,
  Linear.correction lora_dropout l mapping x = Ok corr ->
  length mapping = length x ->
  nth_error mapping i = Some NO_LORA ->
  length corr = length x /\
  exists ci, nth_error corr i = Some ci /\ all_zero ci.
Proof.
  intros l mapping x corr i E Hlen Hi. unfold Linear.correction in E.
  bind_inv E. bind_inv E. bind_inv E. bind_inv E. bind_inv E. bind_inv E.
  bind_inv E. bind_inv E. bind_inv E. inversion E; subst; clear E.
  rename a1 into blocks_A, a4 into lora_B, a5 into xa, a6 into xab.
  destruct (dynamic_forward_spec _ _ _ _ E2) as [HlA _].
  destruct (dynamic_forward_spec _ _ _ _ E5) as [HlB HzB].
  assert (Hxa : length (lora_dropout x) = length (map T blocks_A)).
  { rewrite dropout_batch, length_map. lia. }
  destruct (bmm_same_length _ _ _ E6 Hxa) as [Hlxa _].
  assert (Hxab : length xa = length lora_B).
  { rewrite Hlxa, dropout_batch. lia. }
  destruct (bmm_same_length _ _ _ E7 Hxab) as [Hlxab Hn].
  split.
  { rewrite length_map, Hlxab, Hlxa. apply dropout_batch. }
  assert (Hlt : (i < length xa)%nat).
  { rewrite Hlxa, dropout_batch, <- Hlen. eapply nth_error_lt; eauto. }
  destruct (nth_error xa i) as [xi|] eqn:Exi.
  2:{ apply nth_error_None in Exi. lia. }
  destruct (Hn i xi _ Exi (HzB i Hi)) as (y & Ey & Hy).
  exists (mscale y a7). split.
  - rewrite nth_error_map, Hy. reflexivity.
  - apply all_zero_mscale. eapply matmul_zero_right; [exact Ey|].
    apply all_zero_mscale. apply all_zero_zeros.
Qed.

(** C5: in the adapter branch of [Linear.forward] (adapter present,
    adapters enabled, [r > 0], not merged) and with one mapping entry per
    example, the block gathered for NO_EDIT is the all-zero block of
    shape [(num_rank_per_block, width)], the correction of an example
    whose entry is NO_EDIT is a zero tensor, and the output of that
    example is the base linear output. *)
Theorem C5_no_edit_zero_correction :
  forall l mapping x l' out i rank,
    Linear.lookup (Linear.lora_A l) (Linear.active_adapter l) <> None ->
    Linear.disable_adapters l = false ->
    Linear.merged l = false ->
    Linear.lookup (Linear.r l) (Linear.active_adapter l) = Some rank ->
    (0 < rank)%nat ->
    length mapping = length x ->
    nth_error mapping i = Some NO_LORA ->
    Linear.forward transpose lora_dropout l mapping x = Ok (l', out) ->
    (forall d inputs,
        Dynamic.block_of d inputs NO_LORA
        = zeros (Dynamic.num_rank_per_block d) (width inputs)) /\
    exists base corr ci bi,
      Linear.base_output transpose l x = Ok base /\
      Linear.correction lora_dropout l mapping x = Ok corr /\
      nth_error corr i = Some ci /\ all_zero ci /\
      nth_error base i = Some bi /\
      nth_error out i = Some bi.
Proof.
  intros l mapping x l' out i rank HA Hdis Hmer Hr Hpos Hlen Hi E.
  split; [intros d inputs; reflexivity|].
  unfold Linear.forward in E.
  destruct (Linear.lookup (Linear.lora_A l) (Linear.active_adapter l));
    [|congruence].
  rewrite Hdis in E. unfold Linear.dict_get in E at 1. rewrite Hr in E.
  simpl bind in E. rewrite Hmer in E.
  rewrite (proj2 (Nat.ltb_lt 0 rank) Hpos) in E. simpl in E.
  bind_inv E. bind_inv E. bind_inv E. inversion E; subst; clear E.
  rename a into base, a0 into corr.
  destruct (correction_no_edit _ _ _ _ _ E1 Hlen Hi) as (Hlc & ci & Hci & Hz).
  pose proof (mapM_length _ _ _ _ _ E0) as Hlb.
  assert (Hlt : (i < length base)%nat).
  { rewrite Hlb, <- Hlen. eapply nth_error_lt; eauto. }
  destruct (nth_error base i) as [bi|] eqn:Ebi.
  2:{ apply nth_error_None in Ebi. lia. }
  assert (Hbc : length base = length corr) by lia.
  destruct (iadd3_same_length _ _ _ E2 Hbc i bi ci Ebi Hci) as (z & Ez & Hzo).
  apply iadd2_zero in Ez; [|exact Hz]. subst z.
  exists base, corr, ci, bi. repeat split; auto.
Qed.

End NoEdit.

(** A rank-1 adapter on a 1 x 1 layer, one example, entry NO_EDIT. *)
Lemma C5_no_edit_zero_correction_witness :
  let l := Linear.mk [[2]] None false 1 1 [("a"%string, 1%nat)] [("a"%string, 1)]
                     [("a"%string, 1)] [("a"%string, Linear.Param [[3]])]
                     [("a"%string, Linear.Param [[4]])]
                     (Dynamic.mk 1 1 1 0) (Dynamic.mk 1 1 1 0) false false
                     "a"%string [] in
  exists l' out base bi,
    Linear.forward (fun w _ => w) (fun x => x) l [NO_LORA] [[[5]]] = Ok (l', out) /\
    Linear.base_output (fun w _ => w) l [[[5]]] = Ok base /\
    nth_error base 0 = Some bi /\
    nth_error out 0 = Some bi.
Proof.
  intros l.
  assert (E : exists l' out,
             Linear.forward (fun w _ => w) (fun x => x) l [NO_LORA] [[[5]]]
             = Ok (l', out)).
  { eexists. eexists. cbn. reflexivity. }
  destruct E as (l' & out & E).
  destruct (C5_no_edit_zero_correction (fun w _ => w) (fun x => x)
              (fun x => eq_refl) l [NO_LORA] [[[5]]] l' out 0%nat 1%nat)
    as (_ & base & corr & ci & bi & Hb & _ & _ & _ & Hbi & Ho).
  - cbn. discriminate.
  - reflexivity.
  - reflexivity.
  - reflexivity.
  - lia.
  - reflexivity.
  - reflexivity.
  - exact E.
  - exists l', out, base, bi. repeat split; assumption.
Defined.

(** ** The router *)




Lemma gather_row_ok : forall row idx,
  Forall (fun j => (j < length row)%nat) idx ->
  Gate.gather_row row idx = Ok (map (fun j => nth j row 0) idx).
Proof.
  intros row idx H. unfold Gate.gather_row. induction H as [|j idx Hj _ IH]; simpl.
  - reflexivity.
  - destruct (nth_error row j) as [v|] eqn:Ev.
    2:{ apply nth_error_None in Ev. lia. }
    simpl. rewrite IH. simpl. f_equal. f_equal.
    symmetry. apply nth_error_nth. exact Ev.
Qed.

Lemma gather_ok : forall E idx gate,
  Forall (fun row => length row = E) gate ->
  Forall (Forall (fun j => (j < E)%nat)) idx ->
  (length idx <= length gate)%nat ->
  Gate.gather gate idx
  = Ok (map (fun p => map (fun j => nth j (fst p) 0) (snd p)) (combine gate idx)).
Proof.
  intros E idx. induction idx as [|i idx IH]; intros gate Hg Hi Hl.
  - destruct gate; reflexivity.
  - destruct gate as [|row gate]; simpl in Hl; [lia|].
    inversion Hg; subst. inversion Hi; subst. simpl.
    rewrite gather_row_ok by assumption. simpl.
    rewrite IH; [reflexivity | assumption | assumption | lia].
Qed.

Lemma linear_row_length : forall W b x,
  (forall b', b = Some b' -> length b' = length W) ->
  length (linear_row W b x) = length W.
Proof.
  intros W b x Hb. unfold linear_row. destruct b as [b'|].
  - apply vadd_length; [apply length_map | apply Hb; reflexivity].
  - apply length_map.
Qed.

Lemma softmax_length : forall row, length (Gate.softmax row) = length row.
Proof. intros row. unfold Gate.softmax. now rewrite !length_map. Qed.

Section Router.

Variable topk : nat -> vec -> vec * list nat.



End Router.



(** ** Merging the adapter into the base weight *)

Section Merge.

Variable transpose : matrix -> bool -> matrix.

(** C6: on a [Linear] layer whose factors are stored as [update_layer]
    stores them, as parameters, with [r > 0] and not merged, [merge]
    raises on the attribute [weight] of [lora_B] before the weight is
    touched: nothing is added, the layer is never marked merged, and
    there is no merged state for [unmerge] to undo. *)
Theorem C6_merge_raises_on_parameters :
  forall l A B rank,
    Linear.lookup (Linear.lora_A l) (Linear.active_adapter l)
    = Some (Linear.Param A) ->
    Linear.lookup (Linear.lora_B l) (Linear.active_adapter l)
    = Some (Linear.Param B) ->
    Linear.lookup (Linear.r l) (Linear.active_adapter l) = Some rank ->
    (0 < rank)%nat ->
    Linear.merged l = false ->
    Linear.merge transpose l = Raise AttributeError.
Proof.
  intros l A B rank HA HB Hr Hpos Hm. unfold Linear.merge.
  rewrite HA, Hm. unfold Linear.dict_get at 1. rewrite Hr. simpl bind.
  rewrite (proj2 (Nat.ltb_lt 0 rank) Hpos).
  unfold Linear.delta_weight, Linear.dict_get. rewrite HB. reflexivity.
Qed.

(** The guards of [merge] and [unmerge]: a second [merge], or an
    [unmerge] of an unmerged layer, only records the warning; with
    [r = 0] neither call changes the layer. *)
Lemma merge_unmerge_guards :
  forall l e,
    Linear.lookup (Linear.lora_A l) (Linear.active_adapter l) = Some e ->
    (Linear.merged l = true ->
     Linear.merge transpose l
     = Ok (Linear.warn l "Already merged. Nothing to do.")) /\
    (Linear.merged l = false ->
     Linear.unmerge transpose l
     = Ok (Linear.warn l "Already unmerged. Nothing to do.")) /\
    (Linear.lookup (Linear.r l) (Linear.active_adapter l) = Some 0%nat ->
     Linear.merged l = false -> Linear.merge transpose l = Ok l) /\
    (Linear.lookup (Linear.r l) (Linear.active_adapter l) = Some 0%nat ->
     Linear.merged l = true -> Linear.unmerge transpose l = Ok l).
Proof.
  intros l e He. unfold Linear.merge, Linear.unmerge, Linear.dict_get.
  rewrite He. repeat split.
  - intros ->. reflexivity.
  - intros ->. reflexivity.
  - intros -> ->. reflexivity.
  - intros -> ->. reflexivity.
Qed.

(** With [r = 0] the constructor leaves [lora_A] empty and both calls
    return at their first test. *)
Lemma merge_rank_zero :
  forall name in_f out_f alpha fifo rpb W b A0 l,
    Linear.init name in_f out_f 0 alpha fifo rpb W b A0 = Ok l ->
    Linear.merge transpose l = Ok l /\ Linear.unmerge transpose l = Ok l.
Proof.
  intros name in_f out_f alpha fifo rpb W b A0 l E. simpl in E.
  inversion E; subst. split; reflexivity.
Qed.

End Merge.

(** The layer [Linear("a", 1, 1, r=1)] on the weight [[2]]: [merge] raises. *)
Lemma C6_merge_raises_on_parameters_witness :
  exists l,
    Linear.init "a" 1 1 1 1 false 1 [[2]] None [[3]] = Ok l /\
    Linear.merge (fun w _ => w) l = Raise AttributeError.
Proof.
  eexists. split; [reflexivity|].
  apply (C6_merge_raises_on_parameters (fun w _ => w) _ [[3]] (zeros 1 1) 1%nat);
    try reflexivity.
  lia.
Defined.

(** ** The published mapping and a degenerate cluster *)

Lemma euc_1d_ge : forall a b, b <= a -> euc [a] [b] = a - b.
Proof. intros a b H. rewrite euc_1d. apply Rabs_right. lra. Qed.

Lemma euc_1d_le : forall a b, a <= b -> euc [a] [b] = b - a.
Proof.
  intros a b H. rewrite euc_1d, Rabs_minus_sym. apply Rabs_right. lra.
Qed.

Ltac decide_reals :=
  repeat match goal with
         | |- context [Rle_dec ?a ?b] =>
             destruct (Rle_dec a b); [try (exfalso; lra) | try (exfalso; lra)]
         | |- context [Rgt_dec ?a ?b] =>
             destruct (Rgt_dec a b); [try (exfalso; lra) | try (exfalso; lra)]
         end.

Lemma search_database_spec : forall db bq sd nc,
  VecDB.search_database db bq = Ok (sd, nc) ->
  length sd = length bq /\ length nc = length bq /\
  Forall (fun n => (n < length (VecDB.table db))%nat) nc.
Proof.
  intros db bq sd nc E. unfold VecDB.search_database in E.
  destruct (VecDB.table db) as [|c cs]; [discriminate|].
  destruct bq as [|q0 bq]; [discriminate|].
  remember (q0 :: bq) as qs eqn:Hqs. clear Hqs.
  inversion E; subst; clear E. rewrite !length_map.
  split; [reflexivity|]. split; [reflexivity|].
  rewrite Forall_map. apply Forall_forall. intros q _.
  destruct (tensor_min (euc q (VecDB.cluster_center c))
                       (map (fun x => euc q (VecDB.cluster_center x)) cs))
    as [m i] eqn:Et.
  destruct (tensor_min_spec _ _ _ _ Et) as [Hn _].
  apply nth_error_lt in Hn. simpl in *. rewrite length_map in Hn. exact Hn.
Qed.

Lemma search_cluster_length : forall db bq sdl ncl,
  nonempty_clusters (VecDB.table db) ->
  Forall (fun n => (n < length (VecDB.table db))%nat) ncl ->
  exists res,
    VecDB.search_cluster db bq sdl ncl = Ok res /\
    length res = length (combine (combine bq sdl) ncl).
Proof.
  intros db bq sdl ncl Hne Hrange. unfold VecDB.search_cluster.
  destruct (search_loop_ok (VecDB.table db) (combine (combine bq sdl) ncl) []
              (search_all_good _ bq sdl ncl Hne Hrange)) as (vals & El & Hf).
  exists vals. split; [exact El|]. symmetry. eapply Forall2_length; eauto.
Qed.

Lemma init_loop_spec : forall bq st index acc st' m,
  Grace.init_loop st index bq acc = Ok (st', m) ->
  length m = (length acc + length bq)%nat /\
  Grace.lora_block_mapping st' = Grace.lora_block_mapping st.
Proof.
  intros bq. induction bq as [|q bq IH]; intros st index acc st' m E; simpl in E.
  - inversion E; subst. split; [simpl; lia | reflexivity].
  - bind_inv E. apply IH in E. destruct E as [Hl Hm]. rewrite Hl, length_app.
    simpl. split; [lia | exact Hm].
Qed.

Lemma train_one_mapping : forall st sdl ncl index query st',
  Grace.train_one st sdl ncl index query = Ok st' ->
  Grace.lora_block_mapping st' = Grace.lora_block_mapping st.
Proof.
  intros st sdl ncl index query st' E. unfold Grace.train_one in E.
  bind_inv E. bind_inv E. bind_inv E.
  destruct (Rgt_dec _ _).
  - unfold Grace.add_cluster in E. bind_inv E. inversion E; reflexivity.
  - bind_inv E. destruct (VecDB.label_match _ _).
    + unfold Grace.update_cluster in E. bind_inv E. inversion E; reflexivity.
    + bind_inv E. bind_inv E. inversion E; subst; clear E.
      unfold Grace.add_cluster in E4. bind_inv E4. inversion E4; reflexivity.
Qed.

Lemma train_loop_mapping : forall bq st sdl ncl index st',
  Grace.train_loop st sdl ncl index bq = Ok st' ->
  Grace.lora_block_mapping st' = Grace.lora_block_mapping st.
Proof.
  intros bq. induction bq as [|q bq IH]; intros st sdl ncl index st' E; simpl in E.
  - inversion E; reflexivity.
  - bind_inv E. apply IH in E. rewrite E. eapply train_one_mapping; eauto.
Qed.

(** On a store without empty clusters, a forward pass that returns
    publishes one entry per example in each of the three modes: inference
    lookup, empty store, and the training update of the first micro-batch. *)
Lemma forward_publishes_batch_length :
  forall (transpose : matrix -> bool -> matrix) st g x st' g' out,
    Grace.forward transpose st g x = Ok (st', g', out) ->
    Grace.disable_grace st = false ->
    nonempty_clusters (VecDB.table (Grace.db st)) ->
    Grace.training st = false \/ VecDB.len (Grace.db st) = 0%nat
    \/ Grace.batch_iter st = Some 0%Z ->
    length g' = length x /\ Grace.lora_block_mapping st' = g'.
Proof.
  intros transpose st g x st' g' out E Hdis Hne Hmode.
  unfold Grace.forward in E. bind_inv E. rename a into layer_out.
  rewrite Hdis in E. bind_inv E. rename a into bq.
  pose proof (mapM_length _ _ _ _ _ E0) as Hlo.
  pose proof (mapM_length _ _ _ _ _ E1) as Hbq.
  assert (Hfound : forall sd nc found,
             (if Nat.eqb (VecDB.len (Grace.db st)) 0
              then Ok ([], [], repeat NO_LORA (length layer_out))
              else Grace.search st bq) = Ok (sd, nc, found) ->
             length found = length x).
  { intros sd nc found Ef.
    destruct (Nat.eqb (VecDB.len (Grace.db st)) 0).
    - inversion Ef; subst. rewrite repeat_length. exact Hlo.
    - unfold Grace.search in Ef. bind_inv Ef. destruct a as [sd' nc'].
      bind_inv Ef. inversion Ef; subst; clear Ef.
      destruct (search_database_spec _ _ _ _ E2) as (Hsd & Hnc & Hrange).
      destruct (search_cluster_length (Grace.db st) bq sd nc Hne Hrange)
        as (res & Er & Hl).
      rewrite Er in E3. inversion E3; subst.
      rewrite Hl, !length_combine. unfold matrix, vec in *. lia. }
  bind_inv E. destruct a as [[sd nc] found].
  specialize (Hfound sd nc found eq_refl).
  destruct (Grace.training st) eqn:Et; simpl in E.
  - bind_inv_as E st2. inversion E; subst; clear E.
    split; [|reflexivity].
    destruct (Nat.eqb (VecDB.len (Grace.db st)) 0) eqn:El.
    + match goal with
      | H : bind (Grace.init_key_value _ _) _ = Ok _ |- _ =>
          bind_inv_as H r1; destruct r1 as [st1 m]; inversion H; subst; clear H
      end.
      simpl.
      match goal with
      | H : Grace.init_key_value _ _ = Ok _ |- _ =>
          unfold Grace.init_key_value in H; bind_inv_as H r2;
          destruct r2 as [st3 m3]; inversion H; subst; clear H
      end.
      match goal with
      | H : Grace.init_loop _ _ _ _ = Ok _ |- _ =>
          apply init_loop_spec in H; destruct H as [Hl _]; simpl in Hl
      end.
      unfold matrix, vec in *. lia.
    + destruct Hmode as [C|[C|Hb]]; [discriminate | |].
      { apply Nat.eqb_neq in El. contradiction. }
      match goal with
      | H : match Grace.batch_iter st with _ => _ end = Ok _ |- _ =>
          rewrite Hb in H; bind_inv_as H st1; inversion H; subst; clear H
      end.
      simpl.
      match goal with
      | H : Grace.train_loop _ _ _ _ _ = Ok _ |- _ =>
          apply train_loop_mapping in H; rewrite H
      end.
      simpl. rewrite repeat_length. exact Hlo.
  - inversion E; subst; clear E. split; [exact Hfound | reflexivity].
Qed.


(** * Further properties of the source *)

Ltac lia_len := unfold matrix, vec in *; simpl in *; lia.

(** ** [search_database] *)

Lemma tensor_min_first : forall ds d m i,
  tensor_min d ds = (m, i) ->
  forall j x, (j < i)%nat -> nth_error (d :: ds) j = Some x -> m < x.
Proof.
  intros ds. induction ds as [|y ds IH]; intros d m i E j x Hj Hx; simpl in E.
  - inversion E; subst. lia.
  - destruct (tensor_min y ds) as [m' i'] eqn:Et.
    destruct (Rle_dec d m'); inversion E; subst; [lia|].
    destruct j as [|j]; simpl in Hx.
    + inversion Hx; subst. lra.
    + eapply IH; eauto. lia.
Qed.

(** X1: [search_database] raises exactly when the store or the batch is
    empty.  Otherwise it returns, for every query, the Euclidean distance
    to a cluster centre and the index of that cluster, such that no centre
    is nearer and every cluster of lower index is strictly farther. *)
Theorem X1_search_database_nearest : forall db bq,
  (VecDB.table db = [] \/ bq = [] ->
   VecDB.search_database db bq = Raise RuntimeError) /\
  (VecDB.table db <> [] -> bq <> [] ->
   exists sd nc,
     VecDB.search_database db bq = Ok (sd, nc) /\
     length sd = length bq /\ length nc = length bq /\
     forall i q, nth_error bq i = Some q ->
       exists d n c,
         nth_error sd i = Some d /\ nth_error nc i = Some n /\
         nth_error (VecDB.table db) n = Some c /\
         d = euc q (VecDB.cluster_center c) /\
         (forall c', In c' (VecDB.table db) ->
                     d <= euc q (VecDB.cluster_center c')) /\
         (forall j c', (j < n)%nat -> nth_error (VecDB.table db) j = Some c' ->
                       d < euc q (VecDB.cluster_center c'))).
Proof.
  intros db bq. unfold VecDB.search_database. split.
  - intros [Ht|Hb].
    + rewrite Ht. reflexivity.
    + rewrite Hb. destruct (VecDB.table db); reflexivity.
  - intros Ht Hb. destruct (VecDB.table db) as [|c cs] eqn:Etab; [congruence|].
    destruct bq as [|q0 bq']; [congruence|].
    remember (q0 :: bq') as qs eqn:Hqs. clear Hqs Hb.
    eexists. eexists. split; [reflexivity|]. rewrite !length_map.
    split; [reflexivity|]. split; [reflexivity|].
    intros i q Hq.
    set (dists := map (fun x => euc q (VecDB.cluster_center x)) cs).
    destruct (tensor_min (euc q (VecDB.cluster_center c)) dists) as [m n] eqn:Et.
    destruct (tensor_min_spec _ _ _ _ Et) as [Hn Hmin].
    pose proof (tensor_min_first _ _ _ _ Et) as Hfirst.
    assert (Hall : euc q (VecDB.cluster_center c) :: dists
                   = map (fun x => euc q (VecDB.cluster_center x)) (c :: cs))
      by reflexivity.
    rewrite Hall in Hn, Hmin, Hfirst.
    rewrite nth_error_map in Hn.
    destruct (nth_error (c :: cs) n) as [cn|] eqn:Ecn; [|discriminate].
    simpl in Hn. inversion Hn as [Hm].
    exists m, n, cn. rewrite !nth_error_map, Hq. simpl. fold dists. rewrite Et.
    simpl. split; [reflexivity|]. split; [reflexivity|]. split; [exact Ecn|].
    split; [symmetry; exact Hm|]. split.
    + intros c' Hc'. apply Hmin.
      apply (in_map (fun x => euc q (VecDB.cluster_center x))). exact Hc'.
    + intros j c' Hj Hc'. apply (Hfirst j); [exact Hj|].
      rewrite nth_error_map, Hc'. reflexivity.
Qed.

(** Two clusters on a line and one query between them. *)
Lemma X1_search_database_nearest_witness :
  let db := VecDB.add_cluster (VecDB.add_cluster (VecDB.init 1) [0] 0%Z [1%Z])
                              [10] 1%Z [2%Z] in
  exists sd nc,
    VecDB.search_database db [[4]] = Ok (sd, nc) /\
    length sd = 1%nat /\ length nc = 1%nat.
Proof.
  intros db.
  destruct (proj2 (X1_search_database_nearest db [[4]])
                  ltac:(simpl; discriminate) ltac:(discriminate))
    as (sd & nc & E & H1 & H2 & _).
  exists sd, nc. split; [exact E|]. split; assumption.
Defined.

(** ** [label_match] *)

Lemma wrap64_range : forall z,
  (-9223372036854775808 <= VecDB.wrap64 z < 9223372036854775808)%Z.
Proof.
  intros z. unfold VecDB.wrap64.
  pose proof (Z.mod_pos_bound (z + 9223372036854775808) 18446744073709551616
                              ltac:(lia)).
  lia.
Qed.

Lemma wrap64_id : forall z,
  (-9223372036854775808 <= z < 9223372036854775808)%Z -> VecDB.wrap64 z = z.
Proof.
  intros z Hz. unfold VecDB.wrap64. rewrite Z.mod_small by lia. lia.
Qed.

Lemma wrap64_add_r : forall x y,
  VecDB.wrap64 (x + VecDB.wrap64 y) = VecDB.wrap64 (x + y).
Proof.
  intros x y. unfold VecDB.wrap64. f_equal.
  replace (x + ((y + 9223372036854775808) mod 18446744073709551616
                - 9223372036854775808) + 9223372036854775808)%Z
    with (x + (y + 9223372036854775808) mod 18446744073709551616)%Z by lia.
  rewrite Z.add_mod_idemp_r by lia. f_equal. lia.
Qed.

(** The wrapped sum is the exact sum reduced to int64. *)
Lemma zsum_wrap : forall l, VecDB.zsum l = VecDB.wrap64 (fold_right Z.add 0%Z l).
Proof.
  intros l. induction l as [|x l IH]; simpl; [reflexivity|].
  fold (VecDB.zsum l). unfold VecDB.add64. rewrite IH. apply wrap64_add_r.
Qed.

Lemma zsum_masked_fill : forall l,
  VecDB.zsum (VecDB.masked_fill l) = VecDB.zsum (unmasked l).
Proof.
  intros l. rewrite !zsum_wrap. f_equal. unfold VecDB.masked_fill, unmasked.
  induction l as [|x l IH]; simpl; [reflexivity|].
  destruct (x =? -100)%Z; simpl; rewrite IH; reflexivity.
Qed.

Lemma zsum_Permutation : forall l l', Permutation l l' -> VecDB.zsum l = VecDB.zsum l'.
Proof.
  intros l l' H. rewrite !zsum_wrap. f_equal. induction H; simpl; lia.
Qed.

Lemma unmasked_Permutation : forall l l',
  Permutation l l' -> Permutation (unmasked l) (unmasked l').
Proof.
  intros l l' H. unfold unmasked. induction H; simpl.
  - constructor.
  - destruct (negb (x =? -100)%Z); [constructor|]; assumption.
  - destruct (negb (x =? -100)%Z), (negb (y =? -100)%Z);
      try apply Permutation_refl; apply perm_swap.
  - eapply Permutation_trans; eauto.
Qed.

Lemma unmasked_app : forall a b, unmasked (a ++ b) = unmasked a ++ unmasked b.
Proof. intros. unfold unmasked. apply filter_app. Qed.

Lemma unmasked_padding : forall n, unmasked (repeat (-100)%Z n) = [].
Proof. intros n. induction n; simpl; auto. Qed.

(** X2: [label_match] compares the int64 sums of the two labels over
    their positions other than [-100] and nothing else: it answers true
    exactly when the exact sums agree modulo 2^64, which is equality as
    long as neither sum leaves the int64 range.  Hence it is symmetric, it
    does not see the order of a label's entries, and it does not see
    padding with [-100]. *)
Theorem X2_label_match_sums : forall a b,
  (VecDB.label_match a b = true <->
   VecDB.wrap64 (fold_right Z.add 0%Z (unmasked a))
   = VecDB.wrap64 (fold_right Z.add 0%Z (unmasked b))) /\
  ((-9223372036854775808 <= fold_right Z.add 0%Z (unmasked a)
    < 9223372036854775808)%Z ->
   (-9223372036854775808 <= fold_right Z.add 0%Z (unmasked b)
    < 9223372036854775808)%Z ->
   (VecDB.label_match a b = true <->
    fold_right Z.add 0%Z (unmasked a) = fold_right Z.add 0%Z (unmasked b))) /\
  VecDB.label_match a b = VecDB.label_match b a /\
  (forall a', Permutation a a' -> VecDB.label_match a' b = VecDB.label_match a b) /\
  (forall n, VecDB.label_match (a ++ repeat (-100)%Z n) b = VecDB.label_match a b).
Proof.
  intros a b. unfold VecDB.label_match. rewrite !zsum_masked_fill.
  split; [rewrite !zsum_wrap; apply Z.eqb_eq|].
  split.
  { intros Ha Hb. rewrite !zsum_wrap, (wrap64_id _ Ha), (wrap64_id _ Hb).
    apply Z.eqb_eq. }
  split; [apply Z.eqb_sym|]. split.
  - intros a' Hp. rewrite !zsum_masked_fill.
    assert (Hs : VecDB.zsum (unmasked a') = VecDB.zsum (unmasked a)).
    { apply zsum_Permutation. apply Permutation_sym.
      apply unmasked_Permutation. exact Hp. }
    rewrite Hs. reflexivity.
  - intros n. rewrite !zsum_masked_fill, unmasked_app, unmasked_padding, app_nil_r.
    reflexivity.
Qed.

(** The labels [2^62; 2^62] and [-2^63]: the exact sums 2^63 and -2^63
    differ, the int64 sums do not. *)
Lemma X2_label_match_sums_witness :
  VecDB.label_match [4611686018427387904; 4611686018427387904]%Z
                    [(-9223372036854775808)%Z] = true /\
  VecDB.label_match [1; 2]%Z [3; -100]%Z = true.
Proof.
  split.
  - apply (proj1 (X2_label_match_sums
                    [4611686018427387904; 4611686018427387904]%Z
                    [(-9223372036854775808)%Z])).
    reflexivity.
  - apply (proj1 (proj2 (X2_label_match_sums [1; 2]%Z [3; -100]%Z)));
      simpl; lia.
Defined.

(** ** [init_key_value] *)

Lemma init_loop_ok : forall bq st index acc,
  (index + length bq <= length (Grace.edit_label st))%nat ->
  Grace.init_loop st index bq acc
  = Ok (Grace.with_db st
          (VecDB.with_table (Grace.db st)
             (VecDB.table (Grace.db st)
              ++ map (seeded_row (VecDB.init_radius (Grace.db st)) (Grace.block_id st))
                     (combine bq (skipn index (Grace.edit_label st))))),
        acc ++ repeat (Grace.block_id st) (length bq)).
Proof.
  intros bq. induction bq as [|q bq IH]; intros st index acc Hlen; simpl.
  - rewrite !app_nil_r. destruct st as [w b f d bi el k m dg blk tr].
    destruct d. reflexivity.
  - simpl in Hlen.
    destruct (nth_error (Grace.edit_label st) index) as [lbl|] eqn:El.
    2:{ apply nth_error_None in El. lia_len. }
    rewrite (getitem_some _ _ _ _ El). simpl bind.
    rewrite IH by lia_len. simpl.
    assert (Hs : skipn index (Grace.edit_label st)
                 = lbl :: skipn (S index) (Grace.edit_label st)).
    { clear -El. revert index El.
      induction (Grace.edit_label st) as [|x l IHl]; intros [|i] E; simpl in *;
        try discriminate.
      - inversion E; reflexivity.
      - apply IHl. exact E. }
    rewrite Hs. simpl. unfold Grace.current_block. rewrite <- !app_assoc. simpl.
    reflexivity.
Qed.

Lemma init_loop_short : forall bq st index acc,
  (index <= length (Grace.edit_label st))%nat ->
  (length (Grace.edit_label st) < index + length bq)%nat ->
  Grace.init_loop st index bq acc = Raise IndexError.
Proof.
  intros bq. induction bq as [|q bq IH]; intros st index acc Hi Hlen; simpl in *.
  - lia_len.
  - destruct (nth_error (Grace.edit_label st) index) as [lbl|] eqn:El.
    + rewrite (getitem_some _ _ _ _ El). simpl bind.
      apply nth_error_lt in El. apply IH; lia_len.
    + unfold getitem. rewrite El. reflexivity.
Qed.

(** X3: [init_key_value] on a batch with a label for every example adds
    one cluster per example, in order, each seeded with the example's key
    as centre and only point, the configured radius, the example's label
    and the current block; every example is assigned that block and the
    block counter advances by exactly one.  With fewer labels than
    examples it raises [IndexError]. *)
Theorem X3_init_key_value : forall st bq,
  ((length bq <= length (Grace.edit_label st))%nat ->
   exists st',
     Grace.init_key_value st bq
     = Ok (st', repeat (Grace.block_id st) (length bq)) /\
     Grace.block_id st' = (Grace.block_id st + 1)%Z /\
     VecDB.table (Grace.db st')
     = VecDB.table (Grace.db st)
       ++ map (seeded_row (VecDB.init_radius (Grace.db st)) (Grace.block_id st))
              (combine bq (Grace.edit_label st)) /\
     VecDB.len (Grace.db st') = (VecDB.len (Grace.db st) + length bq)%nat /\
     VecDB.forget_num (Grace.db st') = VecDB.forget_num (Grace.db st) /\
     VecDB.conflict_num (Grace.db st') = VecDB.conflict_num (Grace.db st)) /\
  ((length (Grace.edit_label st) < length bq)%nat ->
   Grace.init_key_value st bq = Raise IndexError).
Proof.
  intros st bq. unfold Grace.init_key_value. split.
  - intros Hlen. rewrite init_loop_ok by lia_len. simpl.
    eexists. split; [reflexivity|]. simpl. split; [reflexivity|].
    split; [reflexivity|]. split; [|split; reflexivity].
    unfold VecDB.len. simpl. rewrite length_app, length_map, length_combine. lia_len.
  - intros Hlen. rewrite init_loop_short by lia_len. reflexivity.
Qed.

(** Three queries on an empty store, block counter at 0. *)
Lemma X3_init_key_value_witness :
  let st := Grace.mk [[1]] None false (VecDB.init 1) None
                     [[1%Z]; [2%Z]; [3%Z]] (-1)%Z [] false 0%Z true in
  exists st',
    Grace.init_key_value st [[0]; [5]; [9]] = Ok (st', [0; 0; 0]%Z) /\
    Grace.block_id st' = 1%Z /\
    VecDB.len (Grace.db st') = 3%nat.
Proof.
  intros st.
  destruct (proj1 (X3_init_key_value st [[0]; [5]; [9]]) ltac:(simpl; lia))
    as (st' & E & Hb & _ & Hl & _).
  exists st'. split; [exact E|]. split; [exact Hb | exact Hl].
Defined.

(** ** What a forward pass of the memory layer changes *)

Lemma train_one_fields : forall st sdl ncl index query st',
  Grace.train_one st sdl ncl index query = Ok st' ->
  st' = Grace.with_db st (Grace.db st').
Proof.
  intros st sdl ncl index query st' E. unfold Grace.train_one in E.
  bind_inv E. bind_inv E. bind_inv E.
  destruct (Rgt_dec _ _).
  - unfold Grace.add_cluster in E. bind_inv E. inversion E; reflexivity.
  - bind_inv E. destruct (VecDB.label_match _ _).
    + unfold Grace.update_cluster in E. bind_inv E. inversion E; reflexivity.
    + bind_inv E. bind_inv E. inversion E; subst; clear E.
      match goal with
      | H : Grace.add_cluster _ _ _ = Ok _ |- _ =>
          unfold Grace.add_cluster in H; bind_inv H; inversion H; reflexivity
      end.
Qed.

Lemma train_loop_fields : forall bq st sdl ncl index st',
  Grace.train_loop st sdl ncl index bq = Ok st' ->
  st' = Grace.with_db st (Grace.db st').
Proof.
  intros bq. induction bq as [|q bq IH]; intros st sdl ncl index st' E; simpl in E.
  - inversion E; subst. destruct st'; reflexivity.
  - bind_inv_as E st1. apply IH in E. apply train_one_fields in E0.
    rewrite E, E0. reflexivity.
Qed.

Lemma init_key_value_inv : forall st bq st' m,
  Grace.init_key_value st bq = Ok (st', m) ->
  m = repeat (Grace.block_id st) (length bq) /\
  Grace.block_id st' = (Grace.block_id st + 1)%Z /\
  Grace.lora_block_mapping st' = Grace.lora_block_mapping st /\
  VecDB.table (Grace.db st')
  = VecDB.table (Grace.db st)
    ++ map (seeded_row (VecDB.init_radius (Grace.db st)) (Grace.block_id st))
           (combine bq (Grace.edit_label st)) /\
  VecDB.forget_num (Grace.db st') = VecDB.forget_num (Grace.db st) /\
  VecDB.conflict_num (Grace.db st') = VecDB.conflict_num (Grace.db st) /\
  VecDB.forget_keys (Grace.db st') = VecDB.forget_keys (Grace.db st) /\
  VecDB.init_radius (Grace.db st') = VecDB.init_radius (Grace.db st).
Proof.
  intros st bq st' m E.
  destruct (Nat.le_gt_cases (length bq) (length (Grace.edit_label st))) as [Hle|Hgt].
  - unfold Grace.init_key_value in E. rewrite init_loop_ok in E by lia_len.
    simpl in E. inversion E; subst; clear E. simpl. repeat split; reflexivity.
  - unfold Grace.init_key_value in E. rewrite init_loop_short in E by lia_len.
    discriminate.
Qed.

(** X4: a forward pass of the memory layer outside training, or with the
    layer disabled, changes nothing but the stored mapping: the cluster
    store and the block counter are those of before.  A disabled layer
    changes neither its state nor the published mapping. *)
Theorem X4_forward_read_only :
  forall (transpose : matrix -> bool -> matrix) st g x st' g' out,
    Grace.forward transpose st g x = Ok (st', g', out) ->
    (Grace.disable_grace st = true -> st' = st /\ g' = g) /\
    (Grace.training st = false ->
     st' = Grace.with_mapping st (Grace.lora_block_mapping st') /\
     Grace.db st' = Grace.db st /\
     Grace.block_id st' = Grace.block_id st).
Proof.
  intros transpose st g x st' g' out E. unfold Grace.forward in E.
  bind_inv_as E layer_out. split.
  - intros Hd. rewrite Hd in E. inversion E; subst. split; reflexivity.
  - intros Ht. destruct (Grace.disable_grace st).
    + inversion E; subst. destruct st'; simpl. repeat split; reflexivity.
    + bind_inv_as E bq. bind_inv_as E r. destruct r as [[sd nc] found].
      rewrite Ht in E. simpl in E. inversion E; subst. simpl.
      repeat split; reflexivity.
Qed.

(** An inference pass on a store of one cluster. *)
Lemma X4_forward_read_only_witness :
  let st := Grace.mk [[1]] None false
                     (VecDB.add_cluster (VecDB.init 1) [0] 7%Z [1%Z])
                     None [] (-1)%Z [] true 1%Z false in
  exists st' g' out,
    Grace.forward (fun w _ => w) st [] [[[0]]] = Ok (st', g', out) /\
    st' = st /\ g' = [].
Proof.
  intros st.
  assert (E : exists st' g' out,
             Grace.forward (fun w _ => w) st [] [[[0]]] = Ok (st', g', out)).
  { eexists. eexists. eexists. cbn. reflexivity. }
  destruct E as (st' & g' & out & E). exists st', g', out.
  split; [exact E|].
  apply (proj1 (X4_forward_read_only (fun w _ => w) st [] [[[0]]] st' g' out E)).
  reflexivity.
Defined.

(** X5: a training pass of the enabled memory layer that returns.  On an
    empty store, or on the first micro-batch ([batch_iter = 0]), every
    example of the batch is assigned the block counter's value of before
    the pass and the counter advances by exactly one, whatever the size of
    the batch.  On any other micro-batch of a non-empty store the layer is
    left as it is and the stored mapping is published again. *)
Theorem X5_training_block_counter :
  forall (transpose : matrix -> bool -> matrix) st g x st' g' out,
    Grace.forward transpose st g x = Ok (st', g', out) ->
    Grace.training st = true ->
    Grace.disable_grace st = false ->
    (VecDB.len (Grace.db st) = 0%nat \/ Grace.batch_iter st = Some 0%Z ->
     g' = repeat (Grace.block_id st) (length x) /\
     Grace.lora_block_mapping st' = g' /\
     Grace.block_id st' = (Grace.block_id st + 1)%Z) /\
    (VecDB.len (Grace.db st) <> 0%nat -> Grace.batch_iter st <> Some 0%Z ->
     st' = st /\ g' = Grace.lora_block_mapping st).
Proof.
  intros transpose st g x st' g' out E Ht Hd. unfold Grace.forward in E.
  bind_inv_as E layer_out. rewrite Hd in E. bind_inv_as E bq.
  bind_inv_as E r. destruct r as [[sd nc] found].
  rewrite Ht in E. simpl in E. bind_inv_as E st2.
  inversion E; subst; clear E.
  pose proof (mapM_length _ _ _ _ _ E0) as Hlo.
  pose proof (mapM_length _ _ _ _ _ E1) as Hbq.
  destruct (Nat.eqb (VecDB.len (Grace.db st)) 0) eqn:El.
  - split.
    + intros _. bind_inv_as E3 r1. destruct r1 as [st1 m].
      inversion E3; subst; clear E3. simpl.
      match goal with
      | H : Grace.init_key_value _ _ = Ok _ |- _ =>
          apply init_key_value_inv in H; destruct H as (Hm & Hb & _)
      end.
      subst m. split; [|split; [reflexivity | exact Hb]].
      f_equal. lia_len.
    + intros Hne. apply Nat.eqb_eq in El. contradiction.
  - split.
    + intros [C|Hb]; [apply Nat.eqb_neq in El; contradiction|].
      rewrite Hb in E3. bind_inv_as E3 st1. inversion E3; subst; clear E3. simpl.
      match goal with
      | H : Grace.train_loop _ _ _ _ _ = Ok _ |- _ =>
          apply train_loop_fields in H; rewrite H
      end.
      simpl. split; [f_equal; lia_len|]. split; reflexivity.
    + intros _ Hb.
      destruct (Grace.batch_iter st) as [[| |]|]; try congruence;
        inversion E3; subst; split; reflexivity.
Qed.

(** A training pass of two examples on an empty store. *)
Lemma X5_training_block_counter_witness :
  let st := Grace.mk [[1]] None false (VecDB.init 1) None
                     [[1%Z]; [2%Z]] (-1)%Z [] false 4%Z true in
  exists st' g' out,
    Grace.forward (fun w _ => w) st [] [[[0]]; [[5]]] = Ok (st', g', out) /\
    g' = [4; 4]%Z /\ Grace.block_id st' = 5%Z.
Proof.
  intros st.
  assert (E : exists st' g' out,
             Grace.forward (fun w _ => w) st [] [[[0]]; [[5]]] = Ok (st', g', out)).
  { eexists. eexists. eexists. cbn. reflexivity. }
  destruct E as (st' & g' & out & E). exists st', g', out.
  split; [exact E|].
  destruct (proj1 (X5_training_block_counter (fun w _ => w) st [] [[[0]]; [[5]]]
                     st' g' out E eq_refl eq_refl) (or_introl eq_refl))
    as (Hg & _ & Hb).
  split; [exact Hg | exact Hb].
Defined.

(** ** The store only grows *)

Lemma keeps_clusters_refl : forall tbl, keeps_clusters tbl tbl.
Proof. intros tbl. split; [lia|]. intros i c H. eauto. Qed.

Lemma keeps_clusters_trans : forall t1 t2 t3,
  keeps_clusters t1 t2 -> keeps_clusters t2 t3 -> keeps_clusters t1 t3.
Proof.
  intros t1 t2 t3 [L1 H1] [L2 H2]. split; [lia|]. intros i c Hc.
  destruct (H1 _ _ Hc) as (c2 & Hc2 & E2).
  destruct (H2 _ _ Hc2) as (c3 & Hc3 & E3).
  exists c3. split; [exact Hc3 | congruence].
Qed.

Lemma keeps_clusters_setitem : forall tbl j a b,
  nth_error tbl j = Some b ->
  VecDB.key_label a = VecDB.key_label b ->
  keeps_clusters tbl (setitem tbl j a).
Proof.
  intros tbl j a b Hb Hl. split; [rewrite setitem_length; lia|].
  intros i c Hc. destruct (Nat.eq_dec j i) as [->|Hne].
  - exists a. split.
    + apply setitem_same. eapply nth_error_lt; eauto.
    + congruence.
  - exists c. split; [rewrite setitem_other by exact Hne; exact Hc | reflexivity].
Qed.

Lemma keeps_clusters_app : forall tbl more, keeps_clusters tbl (tbl ++ more).
Proof.
  intros tbl more. split; [rewrite length_app; lia|].
  intros i c Hc. exists c. split; [|reflexivity].
  rewrite nth_error_app1; [exact Hc | eapply nth_error_lt; eauto].
Qed.

Lemma grows_refl : forall db, grows db db.
Proof.
  intros db. split; [apply keeps_clusters_refl|]. split; [lia|]. split; [lia|].
  split; [exists []; now rewrite app_nil_r | reflexivity].
Qed.

Lemma grows_trans : forall d1 d2 d3, grows d1 d2 -> grows d2 d3 -> grows d1 d3.
Proof.
  intros d1 d2 d3 (K1 & F1 & C1 & [m1 M1] & R1) (K2 & F2 & C2 & [m2 M2] & R2).
  split; [eapply keeps_clusters_trans; eauto|]. split; [lia|]. split; [lia|].
  split; [|congruence].
  exists (m1 ++ m2). rewrite M2, M1, app_assoc. reflexivity.
Qed.

Lemma grows_add : forall db k v lbl, grows db (VecDB.add_cluster db k v lbl).
Proof.
  intros db k v lbl. unfold VecDB.add_cluster. split; simpl.
  - apply keeps_clusters_app.
  - split; [lia|]. split; [lia|]. split; [exists []; now rewrite app_nil_r|].
    reflexivity.
Qed.

Lemma grows_update : forall db i k v db',
  VecDB.update_cluster db i k v = Ok db' -> grows db db'.
Proof.
  intros db i k v db' E. unfold VecDB.update_cluster in E.
  bind_inv_as E c. inversion E; subst; clear E. apply getitem_Ok in E0.
  split; simpl.
  - eapply keeps_clusters_setitem; [exact E0 | reflexivity].
  - split; [lia|]. split; [lia|]. split; [exists []; now rewrite app_nil_r|].
    reflexivity.
Qed.

Lemma grows_split : forall db i d db',
  VecDB.split_cluster_radii_in_half db i d = Ok db' -> grows db db'.
Proof.
  intros db i d db' E. unfold VecDB.split_cluster_radii_in_half in E.
  bind_inv_as E c0. bind_inv_as E cl. bind_inv_as E c. bind_inv_as E key_list.
  apply getitem_Ok in E0, E1, E2.
  pose proof (refilter_lengths (VecDB.cluster_center c) (VecDB.radius c)
                               (VecDB.points c)) as Hlen.
  destruct (VecDB.refilter (VecDB.cluster_center c) (VecDB.radius c) (VecDB.points c))
    as [kept forgot] eqn:Er.
  simpl in Hlen. inversion E; subst; clear E.
  assert (Hkl : length key_list = length (VecDB.points c) /\ VecDB.points c <> []).
  { unfold stack in E3. destruct (VecDB.points c) as [|p ps]; [discriminate|].
    simpl in E3. inversion E3; subst. simpl. rewrite length_map.
    split; [reflexivity | discriminate]. }
  destruct Hkl as [Hkl Hne].
  split; simpl.
  - set (tbl1 := setitem (VecDB.table db) i
                         (VecDB.set_radius c0 (d / 2 - VecDB.eps))) in *.
    set (tbl2 := setitem tbl1 (length tbl1 - 1)
                         (VecDB.set_radius cl (d / 2 + VecDB.eps))) in *.
    apply (keeps_clusters_trans _ tbl1);
      [apply (keeps_clusters_setitem _ _ _ c0); [exact E0 | reflexivity]|].
    apply (keeps_clusters_trans _ tbl2);
      [apply (keeps_clusters_setitem _ _ _ cl); [exact E1 | reflexivity]|].
    apply (keeps_clusters_setitem _ _ _ c); [exact E2 | reflexivity].
  - split.
    + rewrite Hkl.
      assert (Hpos : (1 <= length (VecDB.points c))%nat).
      { destruct (VecDB.points c); [congruence | simpl; lia]. }
      destruct kept as [|k0 kept'].
      * change (length [VecDB.mk_point (VecDB.cluster_center c) NO_LORA]) with 1%nat.
        lia.
      * lia.
    + split; [lia|]. split; [exists forgot; reflexivity | reflexivity].
Qed.

Lemma train_one_grows : forall st sdl ncl index query st',
  Grace.train_one st sdl ncl index query = Ok st' ->
  grows (Grace.db st) (Grace.db st').
Proof.
  intros st sdl ncl index query st' E. unfold Grace.train_one in E.
  bind_inv E. bind_inv E. bind_inv E.
  destruct (Rgt_dec _ _).
  - unfold Grace.add_cluster in E. bind_inv E. inversion E; subst. simpl.
    apply grows_add.
  - bind_inv E. destruct (VecDB.label_match _ _).
    + unfold Grace.update_cluster in E. bind_inv_as E d'. inversion E; subst.
      simpl. eapply grows_update; eauto.
    + bind_inv_as E st1. bind_inv_as E d'. inversion E; subst; clear E. simpl.
      match goal with
      | H : Grace.add_cluster _ _ _ = Ok _ |- _ =>
          unfold Grace.add_cluster in H; bind_inv H; inversion H; subst; clear H
      end.
      eapply grows_trans; [apply grows_add|].
      match goal with
      | H : VecDB.split_cluster_radii_in_half _ _ _ = Ok _ |- _ =>
          apply grows_split in H; exact H
      end.
Qed.

Lemma train_loop_grows : forall bq st sdl ncl index st',
  Grace.train_loop st sdl ncl index bq = Ok st' ->
  grows (Grace.db st) (Grace.db st').
Proof.
  intros bq. induction bq as [|q bq IH]; intros st sdl ncl index st' E; simpl in E.
  - inversion E; subst. apply grows_refl.
  - bind_inv_as E st1. eapply grows_trans.
    + eapply train_one_grows; eauto.
    + eapply IH; eauto.
Qed.

(** X6: whatever the mode, a forward pass of the memory layer that returns
    leaves a store that extends the former one: every cluster is still at
    its index with its label, [forget_num] and [conflict_num] have not
    decreased, the forget-list has only been appended to and the
    configured initial radius is the same. *)
Theorem X6_forward_store_grows :
  forall (transpose : matrix -> bool -> matrix) st g x st' g' out,
    Grace.forward transpose st g x = Ok (st', g', out) ->
    grows (Grace.db st) (Grace.db st').
Proof.
  intros transpose st g x st' g' out E. unfold Grace.forward in E.
  bind_inv_as E layer_out.
  destruct (Grace.disable_grace st).
  { inversion E; subst. apply grows_refl. }
  bind_inv_as E bq. bind_inv_as E r. destruct r as [[sd nc] found].
  destruct (Grace.training st); simpl in E.
  2:{ inversion E; subst. simpl. apply grows_refl. }
  bind_inv_as E st2. inversion E; subst; clear E.
  destruct (Nat.eqb (VecDB.len (Grace.db st)) 0).
  - bind_inv_as E3 r1. destruct r1 as [st1 m]. inversion E3; subst; clear E3.
    simpl.
    match goal with
    | H : Grace.init_key_value _ _ = Ok _ |- _ =>
        apply init_key_value_inv in H;
        destruct H as (_ & _ & _ & Ht & Hf & Hc & Hk & Hr)
    end.
    split; [rewrite Ht; apply keeps_clusters_app|].
    split; [lia|]. split; [lia|].
    split; [exists []; rewrite Hk; now rewrite app_nil_r | exact Hr].
  - destruct (Grace.batch_iter st) as [[| |]|].
    + bind_inv_as E3 st1. inversion E3; subst; clear E3. simpl.
      match goal with
      | H : Grace.train_loop _ _ _ _ _ = Ok _ |- _ =>
          apply train_loop_grows in H; exact H
      end.
    + inversion E3; subst. apply grows_refl.
    + inversion E3; subst. apply grows_refl.
    + inversion E3; subst. apply grows_refl.
Qed.

(** The conflicting re-edit of a stored key, as a full training pass. *)
Lemma X6_forward_store_grows_witness :
  let st := Grace.mk [[1]] None false
                     (VecDB.add_cluster (VecDB.init 1) [0] 0%Z [1%Z])
                     (Some 0%Z) [[2%Z]] (-1)%Z [] false 1%Z true in
  exists st' g' out,
    Grace.forward (fun w _ => w) st [] [[[0]]] = Ok (st', g', out) /\
    grows (Grace.db st) (Grace.db st').
Proof.
  intros st.
  assert (E : exists st' g' out,
             Grace.forward (fun w _ => w) st [] [[[0]]] = Ok (st', g', out)).
  { unfold Grace.forward. cbn -[euc Grace.search Grace.train_loop].
    replace (0 * 1 + 0) with 0 by ring.
    match goal with
    | |- context [Grace.search st ?q] =>
        assert (Es : Grace.search st q = Ok ([0], [0%nat], [0%Z]))
    end.
    { unfold Grace.search, VecDB.search_database, VecDB.search_cluster.
      cbn -[euc Rle_dec Rgt_dec]. rewrite (euc_1d_ge 0 0) by lra.
      replace (0 - 0) with 0 by ring.
      unfold VecDB.search_one. cbn -[euc Rle_dec Rgt_dec].
      decide_reals. reflexivity. }
    rewrite Es. cbn -[euc Rle_dec Rgt_dec VecDB.eps].
    unfold Grace.train_one. cbn -[euc Rle_dec Rgt_dec VecDB.eps].
    unfold Grace.init_radius. cbn -[euc Rle_dec Rgt_dec VecDB.eps].
    destruct (Rgt_dec 0 (1 + 1)); [exfalso; lra|].
    cbn -[euc Rle_dec Rgt_dec VecDB.eps].
    unfold VecDB.split_cluster_radii_in_half. cbn -[euc Rle_dec Rgt_dec VecDB.eps].
    rewrite euc_1d_same.
    destruct (Rle_dec 0 (0 / 2 - VecDB.eps)); [exfalso; unfold VecDB.eps in *; lra|].
    cbn. eexists. eexists. eexists. reflexivity. }
  destruct E as (st' & g' & out & E). exists st', g', out.
  split; [exact E|].
  exact (X6_forward_store_grows (fun w _ => w) st [] [[[0]]] st' g' out E).
Defined.

(** ** A cluster split at close range *)

Lemma search_cluster_entries :
  forall db bq sdl ncl,
    nonempty_clusters (VecDB.table db) ->
    Forall (fun n => (n < length (VecDB.table db))%nat) ncl ->
    exists res,
      VecDB.search_cluster db bq sdl ncl = Ok res /\
      length res = length (combine (combine bq sdl) ncl) /\
      forall k q d n c,
        nth_error bq k = Some q -> nth_error sdl k = Some d ->
        nth_error ncl k = Some n -> nth_error (VecDB.table db) n = Some c ->
        d > VecDB.radius c -> nth_error res k = Some NO_LORA.
Proof.
  intros db bq sdl ncl Hne Hrange. unfold VecDB.search_cluster.
  destruct (search_loop_ok (VecDB.table db) (combine (combine bq sdl) ncl) []
              (search_all_good _ bq sdl ncl Hne Hrange)) as (vals & El & Hf).
  exists vals. split; [exact El|]. split.
  { symmetry. eapply Forall2_length; eauto. }
  intros k q d n c Hq Hd Hn Hc Hgt.
  assert (Hz : nth_error (combine (combine bq sdl) ncl) k = Some (q, d, n))
    by (apply combine_nth_error; [apply combine_nth_error|]; assumption).
  destruct (Forall2_nth _ _ _ _ _ _ _ Hf Hz) as (v & Hv & Ev).
  unfold search_one_of in Ev. simpl in Ev.
  assert (Hpc : VecDB.points c <> [])
    by (eapply (Forall_nth_error _ (fun c => VecDB.points c <> [])); eauto).
  destruct (search_one_spec (VecDB.table db) q d n c Hc Hpc) as [H1 _].
  rewrite (H1 Hgt) in Ev. inversion Ev; subst. exact Hv.
Qed.

Lemma search_database_nonneg : forall db bq sd nc,
  VecDB.search_database db bq = Ok (sd, nc) -> Forall (fun d => 0 <= d) sd.
Proof.
  intros db bq sd nc E. unfold VecDB.search_database in E.
  destruct (VecDB.table db) as [|c cs]; [discriminate|].
  destruct bq as [|q0 bq]; [discriminate|].
  remember (q0 :: bq) as qs eqn:Hqs. clear Hqs.
  inversion E; subst; clear E. rewrite Forall_map. apply Forall_forall.
  intros q _.
  destruct (tensor_min (euc q (VecDB.cluster_center c))
                       (map (fun x => euc q (VecDB.cluster_center x)) cs))
    as [m i] eqn:Et.
  destruct (tensor_min_spec _ _ _ _ Et) as [Hn _]. simpl.
  apply nth_error_In in Hn.
  change (In m (map (fun x => euc q (VecDB.cluster_center x)) (c :: cs))) in Hn.
  apply in_map_iff in Hn. destruct Hn as (x & <- & _). apply euc_nonneg.
Qed.

Lemma update_cluster_radius_floor : forall db i k v db',
  VecDB.update_cluster db i k v = Ok db' ->
  exists c', nth_error (VecDB.table db') i = Some c' /\
             VecDB.init_radius db <= VecDB.radius c'.
Proof.
  intros db i k v db' E. unfold VecDB.update_cluster in E.
  destruct (getitem (VecDB.table db) i) as [c|] eqn:Ec; simpl in E; [|discriminate].
  apply getitem_Ok in Ec. inversion E; subst db'; clear E.
  eexists. split.
  - simpl. apply setitem_same. eapply nth_error_lt; eauto.
  - simpl. rewrite py_max_Rmax. apply Rmax_r.
Qed.

(** X7: [split_cluster_radii_in_half] stores the radius [d / 2 - 1e-5]
    on the split cluster.  When the radius it stored is negative (the
    same key presented under another label has distance 0), every lookup
    on that store whose nearest cluster is that one returns NO_EDIT: the
    edit the cluster stood for is not served.  This lasts until the next
    [update_cluster] on the cluster, which sets its radius back to at
    least [init_radius]. *)
Theorem X7_negative_radius_silences_cluster :
  forall db i d db' c',
    VecDB.split_cluster_radii_in_half db i d = Ok db' ->
    (S i < length (VecDB.table db))%nat ->
    nonempty_clusters (VecDB.table db) ->
    nth_error (VecDB.table db') i = Some c' ->
    VecDB.radius c' < 0 ->
    VecDB.radius c' = d / 2 - VecDB.eps /\
    (forall bq sd nc,
       VecDB.search_database db' bq = Ok (sd, nc) ->
       exists res,
         VecDB.search_cluster db' bq sd nc = Ok res /\
         length res = length bq /\
         forall k, nth_error nc k = Some i -> nth_error res k = Some NO_LORA) /\
    (forall k v db'',
       VecDB.update_cluster db' i k v = Ok db'' ->
       exists c'', nth_error (VecDB.table db'') i = Some c'' /\
                   VecDB.init_radius db <= VecDB.radius c'').
Proof.
  intros db i d db' c' E Hlt Hne Hc' Hneg.
  destruct (nth_error (VecDB.table db) i) as [c|] eqn:Ec.
  2:{ apply nth_error_None in Ec. lia. }
  destruct (nth_error (VecDB.table db) (length (VecDB.table db) - 1)) as [cl|] eqn:Ecl.
  2:{ apply nth_error_None in Ecl. lia. }
  assert (Hpc : VecDB.points c <> [])
    by (eapply (Forall_nth_error _ (fun c => VecDB.points c <> [])); eauto).
  destruct (split_effects db i d c cl Ec Hlt Ecl Hpc)
    as (db2 & c2 & cl' & E2 & Hc2 & _ & Hr & _).
  rewrite E in E2. inversion E2; subst db2; clear E2.
  rewrite Hc' in Hc2. inversion Hc2; subst c2; clear Hc2.
  split; [exact Hr|]. split.
  - intros bq sd nc Es.
    destruct (search_database_spec _ _ _ _ Es) as (Hsd & Hnc & Hrange).
    pose proof (search_database_nonneg _ _ _ _ Es) as Hpos.
    destruct (search_cluster_entries db' bq sd nc (split_nonempty _ _ _ _ E Hne) Hrange)
      as (res & Er & Hl & Hent).
    exists res. split; [exact Er|]. split.
    { rewrite Hl, !length_combine. lia_len. }
    intros k Hk.
    pose proof (nth_error_lt _ _ _ _ Hk) as Hkl.
    destruct (nth_error bq k) as [q|] eqn:Eq.
    2:{ apply nth_error_None in Eq. lia_len. }
    destruct (nth_error sd k) as [dk|] eqn:Ed.
    2:{ apply nth_error_None in Ed. lia_len. }
    apply (Hent k q dk i c' Eq Ed Hk Hc').
    pose proof (Forall_nth_error _ _ _ _ _ Hpos Ed) as Hdk. simpl in Hdk. lra.
  - intros k v db'' Eu.
    destruct (update_cluster_radius_floor _ _ _ _ _ Eu) as (c'' & Hc'' & Hfloor).
    exists c''. split; [exact Hc''|].
    assert (Hinit : VecDB.init_radius db' = VecDB.init_radius db).
    { unfold VecDB.split_cluster_radii_in_half in E.
      bind_inv E. bind_inv E. bind_inv E. bind_inv E.
      destruct (VecDB.refilter _ _ _). inversion E; reflexivity. }
    rewrite <- Hinit. exact Hfloor.
Qed.

(** The store after a key [0] was stored and then presented again under
    another label: the split leaves the radius [-1e-5], and the next
    update of the cluster brings it back to the configured radius 1. *)
Lemma X7_negative_radius_silences_cluster_witness :
  let db := VecDB.add_cluster (VecDB.add_cluster (VecDB.init 1) [0] 0%Z [1%Z])
                              [0] 1%Z [2%Z] in
  exists db' c',
    VecDB.split_cluster_radii_in_half db 0 0 = Ok db' /\
    nth_error (VecDB.table db') 0 = Some c' /\
    VecDB.radius c' = 0 / 2 - VecDB.eps /\
    forall k v db'',
      VecDB.update_cluster db' 0 k v = Ok db'' ->
      exists c'', nth_error (VecDB.table db'') 0 = Some c'' /\
                  VecDB.init_radius db <= VecDB.radius c''.
Proof.
  intros db.
  assert (E : exists db', VecDB.split_cluster_radii_in_half db 0 0 = Ok db').
  { eexists.
    apply (split_spec db 0%nat 0
             (VecDB.mk_row [0] 1 [1%Z] [VecDB.mk_point [0] 0%Z])
             (VecDB.mk_row [0] 1 [2%Z] [VecDB.mk_point [0] 1%Z]));
      [reflexivity | simpl; lia | reflexivity | discriminate]. }
  destruct E as (db' & E). exists db'.
  assert (Hc : exists c', nth_error (VecDB.table db') 0 = Some c'
                          /\ VecDB.radius c' = 0 / 2 - VecDB.eps).
  { destruct (split_effects db 0%nat 0
                (VecDB.mk_row [0] 1 [1%Z] [VecDB.mk_point [0] 0%Z])
                (VecDB.mk_row [0] 1 [2%Z] [VecDB.mk_point [0] 1%Z])
                eq_refl ltac:(simpl; lia) eq_refl ltac:(discriminate))
      as (db2 & c2 & _ & E2 & Hc2 & _ & Hr & _).
    rewrite E in E2. inversion E2; subst db2. exists c2. split; assumption. }
  destruct Hc as (c' & Hc' & Hr). exists c'.
  destruct (X7_negative_radius_silences_cluster db 0%nat 0 db' c' E
              ltac:(simpl; lia)
              ltac:(repeat constructor; simpl; discriminate)
              Hc'
              ltac:(rewrite Hr; unfold VecDB.eps; lra))
    as (Hrad & _ & Hupd).
  split; [exact E|]. split; [exact Hc'|]. split; [exact Hrad | exact Hupd].
Defined.

(** ** Block-dynamic rank addressing *)

(** X8: [update_dynamic] accepts a rank and a block size exactly when the
    block size is not zero and divides the rank; the blocks then tile the
    rank ([maximum_block * num_rank_per_block = maximum_rank]) and the
    current block is reset to 0.  A zero block size raises
    [ZeroDivisionError], any other non-divisor the assertion. *)
Theorem X8_update_dynamic : forall max_rank rank_per_block,
  (rank_per_block = 0%nat ->
   Dynamic.update_dynamic max_rank rank_per_block = Raise ZeroDivisionError) /\
  (rank_per_block <> 0%nat -> (max_rank mod rank_per_block <> 0)%nat ->
   Dynamic.update_dynamic max_rank rank_per_block = Raise AssertionError) /\
  (rank_per_block <> 0%nat -> (max_rank mod rank_per_block = 0)%nat ->
   exists d,
     Dynamic.update_dynamic max_rank rank_per_block = Ok d /\
     Dynamic.maximum_rank d = max_rank /\
     Dynamic.num_rank_per_block d = rank_per_block /\
     (Dynamic.maximum_block d * Dynamic.num_rank_per_block d)%nat = max_rank /\
     Dynamic.current_block d = 0%nat).
Proof.
  intros r n. unfold Dynamic.update_dynamic. split; [|split].
  - intros ->. reflexivity.
  - intros Hn Hm. apply Nat.eqb_neq in Hn, Hm. rewrite Hn, Hm. reflexivity.
  - intros Hn Hm. pose proof Hn as Hn'. apply Nat.eqb_neq in Hn'.
    rewrite Hn'. rewrite (proj2 (Nat.eqb_eq _ _) Hm).
    eexists. split; [reflexivity|]. simpl. repeat split.
    pose proof (Nat.div_mod_eq r n) as Hdm. rewrite Hm in Hdm. lia.
Qed.

(** Rank 8 in blocks of 2. *)
Lemma X8_update_dynamic_witness :
  exists d,
    Dynamic.update_dynamic 8 2 = Ok d /\
    (Dynamic.maximum_block d * Dynamic.num_rank_per_block d)%nat = 8%nat.
Proof.
  destruct (proj2 (proj2 (X8_update_dynamic 8 2)) ltac:(lia) eq_refl)
    as (d & E & _ & _ & Hm & _).
  exists d. split; [exact E | exact Hm].
Defined.

(** X9: [set_block] clamps the requested block between 0 and the current
    block, not the maximum block: it never raises the current block and
    changes nothing else, so the current block, which every
    [update_dynamic] resets to 0, stays at 0 under any sequence of
    [set_block] calls. *)
Theorem X9_set_block_never_raises : forall d block,
  (Block.get_block (Block.set_block d block) <= Block.get_block d)%nat /\
  (Block.get_block d = 0%nat -> Block.get_block (Block.set_block d block) = 0%nat) /\
  ((0 <= block <= Z.of_nat (Block.get_block d))%Z ->
   Z.of_nat (Block.get_block (Block.set_block d block)) = block) /\
  Block.get_block_dimension (Block.set_block d block) = Block.get_block_dimension d /\
  Dynamic.maximum_rank (Block.set_block d block) = Dynamic.maximum_rank d /\
  Dynamic.num_rank_per_block (Block.set_block d block) = Dynamic.num_rank_per_block d.
Proof.
  intros d block. unfold Block.set_block, Block.get_block, Block.get_block_dimension.
  simpl. repeat split; try lia.
Qed.

(** From the default [dynamic()], whose current block is 0. *)
Lemma X9_set_block_never_raises_witness :
  Block.get_block (Block.set_block Dynamic.default 5%Z) = 0%nat.
Proof.
  apply (proj1 (proj2 (X9_set_block_never_raises Dynamic.default 5%Z))).
  reflexivity.
Defined.

Lemma py_slice_in_range : forall (A : Type) (l : list A) (s n : nat),
  (s + n <= length l)%nat ->
  py_slice l (Z.of_nat s) (Z.of_nat s + Z.of_nat n) = firstn n (skipn s l).
Proof.
  intros A l s n H. unfold py_slice, slice_bound.
  destruct (Z.ltb_spec (Z.of_nat s) 0); [lia|].
  destruct (Z.ltb_spec (Z.of_nat s + Z.of_nat n) 0); [lia|].
  rewrite !Z.min_l by lia.
  replace (Z.to_nat (Z.of_nat s + Z.of_nat n - Z.of_nat s)) with n by lia.
  rewrite Nat2Z.id. reflexivity.
Qed.

Lemma firstn_skipn_length : forall (A : Type) (l : list A) (s n : nat),
  (s + n <= length l)%nat -> length (firstn n (skipn s l)) = n.
Proof.
  intros A l s n H. rewrite length_firstn, length_skipn. lia.
Qed.

(** X10: [dynamic.forward] on a factor whose rows cover every designated
    block.  With a non-empty mapping whose entries are NO_EDIT or the
    index of a block that lies within the rows of [inputs], the call
    returns one block per entry, each of [num_rank_per_block] rows: for a
    block index [b] the rows [b * num_rank_per_block] up to
    [(b + 1) * num_rank_per_block] of [inputs], rescaled by
    [sqrt(maximum_rank / num_rank_per_block)].  With an empty mapping the
    assertion fails. *)
Theorem X10_dynamic_forward_blocks : forall d mapping inputs,
  (mapping = [] -> Dynamic.forward d mapping inputs = Raise AssertionError) /\
  (mapping <> [] ->
   Forall (fun id => id = NO_LORA \/
                     exists b : nat, id = Z.of_nat b /\
                       (b * Dynamic.num_rank_per_block d
                        + Dynamic.num_rank_per_block d <= length inputs)%nat)
          mapping ->
   exists blocks,
     Dynamic.forward d mapping inputs = Ok blocks /\
     length blocks = length mapping /\
     Forall (fun blk => length blk = Dynamic.num_rank_per_block d) blocks /\
     forall i (b : nat),
       nth_error mapping i = Some (Z.of_nat b) ->
       nth_error blocks i
       = Some (mscale (firstn (Dynamic.num_rank_per_block d)
                              (skipn (b * Dynamic.num_rank_per_block d) inputs))
                      (Dynamic.rescale d))).
Proof.
  intros d mapping inputs. split.
  - intros ->. reflexivity.
  - intros Hne Hall.
    assert (Hblk : forall id, In id mapping ->
              length (Dynamic.block_of d inputs id) = Dynamic.num_rank_per_block d /\
              forall b : nat, id = Z.of_nat b ->
                Dynamic.block_of d inputs id
                = firstn (Dynamic.num_rank_per_block d)
                         (skipn (b * Dynamic.num_rank_per_block d) inputs)).
    { intros id Hin. rewrite Forall_forall in Hall.
      destruct (Hall _ Hin) as [->|(b & -> & Hb)].
      - split.
        + unfold Dynamic.block_of. simpl. unfold zeros. apply repeat_length.
        + intros b Hb. unfold NO_LORA in Hb. lia.
      - assert (Es : Dynamic.block_of d inputs (Z.of_nat b)
                     = firstn (Dynamic.num_rank_per_block d)
                              (skipn (b * Dynamic.num_rank_per_block d) inputs)).
        { unfold Dynamic.block_of, Dynamic.block_rank_mapping.
          destruct (Z.eqb_spec (Z.of_nat b) NO_LORA) as [C|_];
            [unfold NO_LORA in C; lia|].
          rewrite <- Nat2Z.inj_mul. apply py_slice_in_range. exact Hb. }
        split.
        + rewrite Es. apply firstn_skipn_length. exact Hb.
        + intros b' Hb'. apply Nat2Z.inj in Hb'. subst b'. exact Es. }
    unfold Dynamic.forward. destruct mapping as [|m0 mapping']; [congruence|].
    remember (m0 :: mapping') as mp eqn:Hmp.
    assert (Hstack : Dynamic.stack_blocks (map (Dynamic.block_of d inputs) mp)
                     = Ok (map (Dynamic.block_of d inputs) mp)).
    { unfold Dynamic.stack_blocks.
      destruct (map (Dynamic.block_of d inputs) mp) as [|b0 bs] eqn:Em;
        [subst mp; discriminate|].
      assert (Hf : forallb (fun b' => Nat.eqb (length b') (length b0)) (b0 :: bs) = true).
      { rewrite <- Em. apply forallb_forall. intros blk Hin.
        apply in_map_iff in Hin. destruct Hin as (id & <- & Hid).
        assert (H0 : length b0 = Dynamic.num_rank_per_block d).
        { assert (Hb0 : In b0 (map (Dynamic.block_of d inputs) mp))
            by (rewrite Em; left; reflexivity).
          apply in_map_iff in Hb0. destruct Hb0 as (id0 & <- & Hid0).
          apply (Hblk id0 Hid0). }
        rewrite H0. apply Nat.eqb_eq. apply (Hblk id Hid). }
      rewrite Hf. reflexivity. }
    rewrite Hstack. simpl bind. eexists. split; [reflexivity|].
    split; [now rewrite !length_map|]. split.
    + rewrite !Forall_map. apply Forall_forall. intros id Hid.
      unfold mscale. rewrite length_map. apply (Hblk id Hid).
    + intros i b Hi. rewrite !nth_error_map, Hi. simpl. f_equal. f_equal.
      apply (Hblk (Z.of_nat b)); [eapply nth_error_In; eauto | reflexivity].
Qed.

(** A factor of four rows in blocks of two, mapping [1; NO_EDIT]. *)
Lemma X10_dynamic_forward_blocks_witness :
  exists blocks,
    Dynamic.forward (Dynamic.mk 4 2 2 0) [1%Z; NO_LORA] [[1]; [2]; [3]; [4]]
    = Ok blocks /\
    length blocks = 2%nat.
Proof.
  destruct (proj2 (X10_dynamic_forward_blocks (Dynamic.mk 4 2 2 0) [1%Z; NO_LORA]
                     [[1]; [2]; [3]; [4]]))
    as (blocks & E & Hl & _).
  - discriminate.
  - constructor; [|constructor; [|constructor]].
    + right. exists 1%nat. split; [reflexivity | simpl; lia].
    + left. reflexivity.
  - exists blocks. split; [exact E | exact Hl].
Defined.

(** ** The adapter layer before any training, and without a mapping *)

Lemma Forall_of_nth : forall (A : Type) (P : A -> Prop) (l : list A),
  (forall i a, nth_error l i = Some a -> P a) -> Forall P l.
Proof.
  intros A P l. induction l as [|x l IH]; intros H; constructor.
  - apply (H 0%nat). reflexivity.
  - apply IH. intros i a Hi. apply (H (S i)). exact Hi.
Qed.

Lemma all_zero_firstn : forall n m, all_zero m -> all_zero (firstn n m).
Proof.
  intros n m H. unfold all_zero in *. revert n.
  induction H as [|r m Hr _ IH]; intros [|n]; simpl; constructor; auto.
Qed.

Lemma all_zero_skipn : forall n m, all_zero m -> all_zero (skipn n m).
Proof.
  intros n m H. unfold all_zero in *. revert n.
  induction H as [|r m Hr Hm IH]; intros [|n]; simpl; auto.
Qed.

Lemma block_of_all_zero : forall d inputs id,
  all_zero inputs -> all_zero (Dynamic.block_of d inputs id).
Proof.
  intros d inputs id H. unfold Dynamic.block_of.
  destruct (id =? NO_LORA)%Z; [apply all_zero_zeros|].
  unfold Dynamic.block_rank_mapping, py_slice.
  apply all_zero_firstn. apply all_zero_skipn. exact H.
Qed.

Lemma dynamic_forward_all_zero : forall d mapping inputs blocks,
  Dynamic.forward d mapping inputs = Ok blocks ->
  all_zero inputs ->
  length blocks = length mapping /\ Forall all_zero blocks.
Proof.
  intros d mapping inputs blocks E Hz. unfold Dynamic.forward in E.
  destruct mapping as [|b0 mapping]; [discriminate|].
  remember (b0 :: mapping) as mp. clear Heqmp.
  bind_inv_as E stacked. inversion E; subst; clear E.
  unfold Dynamic.stack_blocks in E0.
  destruct (map (Dynamic.block_of d inputs) mp) as [|b bs] eqn:Em; [discriminate|].
  if_inv E0. inversion E0; subst; clear E0. rewrite <- Em. split.
  - now rewrite !length_map.
  - rewrite !Forall_map. apply Forall_forall. intros id _.
    apply all_zero_mscale. apply block_of_all_zero. exact Hz.
Qed.

Lemma mapM_iadd2_zero : forall a b o,
  mapM (fun p => iadd2 (fst p) (snd p)) (combine a b) = Ok o ->
  length a = length b -> Forall all_zero b -> o = a.
Proof.
  intros a. induction a as [|x a IH]; intros [|y b] o E Hl Hz; simpl in *;
    try discriminate.
  - inversion E; reflexivity.
  - bind_inv_as E z. bind_inv_as E zs. inversion E; subst; clear E.
    inversion Hz; subst. f_equal.
    + eapply iadd2_zero; eauto.
    + eapply IH; eauto.
Qed.

Section FreshAdapter.

Variable transpose : matrix -> bool -> matrix.
Variable lora_dropout : list matrix -> list matrix.
Hypothesis dropout_batch : forall x, length (lora_dropout x) = length x.

Lemma correction_zero_B : forall l mapping x corr B,
  Linear.correction lora_dropout l mapping x = Ok corr ->
  Linear.lookup (Linear.lora_B l) (Linear.active_adapter l) = Some (Linear.Param B) ->
  all_zero B ->
  length mapping = length x ->
  length corr = length x /\ Forall all_zero corr.
Proof.
  intros l mapping x corr B E HB Hz Hlen. unfold Linear.correction in E.
  bind_inv_as E eA. bind_inv_as E dA. bind_inv_as E blocks_A.
  unfold Linear.dict_get in E at 1. rewrite HB in E. simpl in E.
  bind_inv_as E lora_B. bind_inv_as E xa. bind_inv_as E xab. bind_inv_as E sc.
  inversion E; subst; clear E.
  match goal with
  | H : Dynamic.forward (Linear.nd_lora_A l) _ _ = Ok _ |- _ =>
      destruct (dynamic_forward_spec _ _ _ _ H) as [HlA _]
  end.
  match goal with
  | H : Dynamic.forward (Linear.nd_lora_B l) _ _ = Ok _ |- _ =>
      destruct (dynamic_forward_all_zero _ _ _ _ H Hz) as [HlB HzB]
  end.
  assert (Hxa : length (lora_dropout x) = length (map T blocks_A)).
  { rewrite dropout_batch, length_map. lia_len. }
  match goal with
  | H : bmm (lora_dropout x) _ = Ok xa |- _ =>
      destruct (bmm_same_length _ _ _ H Hxa) as [Hlxa _]
  end.
  assert (Hxab : length xa = length lora_B).
  { rewrite Hlxa, dropout_batch. lia_len. }
  match goal with
  | H : bmm xa lora_B = Ok xab |- _ =>
      destruct (bmm_same_length _ _ _ H Hxab) as [Hlxab Hn]
  end.
  split.
  { rewrite length_map, Hlxab, Hlxa. apply dropout_batch. }
  rewrite Forall_map. apply Forall_of_nth. intros i y Hy.
  apply all_zero_mscale.
  assert (Hi : (i < length xa)%nat).
  { rewrite <- Hlxab. eapply nth_error_lt; eauto. }
  destruct (nth_error xa i) as [xi|] eqn:Exi.
  2:{ apply nth_error_None in Exi. lia. }
  destruct (nth_error lora_B i) as [bi|] eqn:Ebi.
  2:{ apply nth_error_None in Ebi. lia. }
  destruct (Hn i xi bi Exi Ebi) as (y' & Ey & Hy').
  rewrite Hy in Hy'. inversion Hy'; subst y'.
  eapply matmul_zero_right; [exact Ey|].
  eapply (Forall_nth_error _ all_zero); eauto.
Qed.

(** X11: a [Linear] layer as its constructor leaves it ([lora_B] at zero)
    computes the base linear output: whatever blocks the mapping
    designates, with one mapping entry per example, a forward pass that
    returns gives exactly the output of the wrapped layer and leaves the
    layer unchanged.  With [r = 0] this holds for any mapping. *)
Theorem X11_fresh_adapter_is_identity :
  forall name in_f out_f rank alpha fifo rpb W b A0 l mapping x l' out,
    Linear.init name in_f out_f rank alpha fifo rpb W b A0 = Ok l ->
    (rank = 0%nat \/ length mapping = length x) ->
    Linear.forward transpose lora_dropout l mapping x = Ok (l', out) ->
    l' = l /\ Linear.base_output transpose l x = Ok out.
Proof.
  intros name in_f out_f rank alpha fifo rpb W b A0 l mapping x l' out Ei Hm E.
  unfold Linear.init in Ei. destruct (Nat.ltb 0 rank) eqn:Er.
  - bind_inv_as Ei nd. inversion Ei; subst l; clear Ei.
    destruct Hm as [->|Hlen]; [discriminate|].
    unfold Linear.forward in E. simpl in E. rewrite String.eqb_refl in E.
    simpl in E. unfold Linear.dict_get in E at 1. simpl in E.
    rewrite String.eqb_refl in E. simpl in E. rewrite Er in E. simpl in E.
    bind_inv_as E base. bind_inv_as E corr. bind_inv_as E o.
    inversion E; subst; clear E. split; [reflexivity|].
    match goal with
    | H : Linear.correction _ _ _ _ = Ok corr |- _ =>
        destruct (correction_zero_B _ _ _ _ (zeros rank out_f) H) as [Hlc Hzc];
          [simpl; rewrite String.eqb_refl; reflexivity
          | apply all_zero_zeros | exact Hlen |]
    end.
    match goal with
    | H : Linear.base_output _ _ _ = Ok base |- _ =>
        pose proof (mapM_length _ _ _ _ _ H) as Hlb
    end.
    f_equal. symmetry.
    match goal with
    | H : iadd3 base corr = Ok _ |- _ =>
        unfold iadd3 in H;
        rewrite (proj2 (Nat.eqb_eq (length base) (length corr))) in H by lia_len;
        eapply mapM_iadd2_zero; [exact H | lia_len | exact Hzc]
    end.
  - inversion Ei; subst l; clear Ei.
    unfold Linear.forward in E. simpl in E.
    bind_inv_as E y. inversion E; subst.
    split; [reflexivity | first [assumption | reflexivity]].
Qed.

End FreshAdapter.

(** The rank-1 layer on the weight [[2]], block 0 for the only example. *)
Lemma X11_fresh_adapter_is_identity_witness :
  exists l l' out,
    Linear.init "a" 1 1 1 1 false 1 [[2]] None [[3]] = Ok l /\
    Linear.forward (fun w _ => w) (fun x => x) l [0%Z] [[[5]]] = Ok (l', out) /\
    Linear.base_output (fun w _ => w) l [[[5]]] = Ok out.
Proof.
  assert (Ei : exists l, Linear.init "a" 1 1 1 1 false 1 [[2]] None [[3]] = Ok l)
    by (eexists; reflexivity).
  destruct Ei as (l & Ei).
  assert (E : exists l' out,
             Linear.forward (fun w _ => w) (fun x => x) l [0%Z] [[[5]]]
             = Ok (l', out)).
  { cbn in Ei. inversion Ei; subst l. eexists. eexists. cbn. reflexivity. }
  destruct E as (l' & out & E). exists l, l', out.
  split; [exact Ei|]. split; [exact E|].
  exact (proj2 (X11_fresh_adapter_is_identity (fun w _ => w) (fun x => x)
                  (fun x => eq_refl) "a"%string 1%nat 1%nat 1%nat 1 false 1%nat
                  [[2]] None [[3]] l [0%Z] [[[5]]] l' out Ei
                  (or_intror eq_refl) E)).
Defined.

Section NeedsMapping.

Variable transpose : matrix -> bool -> matrix.
Variable lora_dropout : list matrix -> list matrix.

(** X12: a [Linear] layer with [r > 0] reads the published mapping on
    every pass: while the mapping is still the empty list of the module
    level, a pass whose base output is computed fails on the assertion of
    [dynamic.forward].  A layer with [r = 0] never reads the mapping and
    returns the base output. *)
Theorem X12_adapter_needs_a_mapping :
  forall name in_f out_f rank alpha fifo rpb W b A0 l x y,
    Linear.init name in_f out_f rank alpha fifo rpb W b A0 = Ok l ->
    Linear.base_output transpose l x = Ok y ->
    ((0 < rank)%nat ->
     Linear.forward transpose lora_dropout l [] x = Raise AssertionError) /\
    (rank = 0%nat ->
     forall mapping,
       Linear.forward transpose lora_dropout l mapping x = Ok (l, y)).
Proof.
  intros name in_f out_f rank alpha fifo rpb W b A0 l x y Ei Hb.
  unfold Linear.init in Ei. split.
  - intros Hpos. rewrite (proj2 (Nat.ltb_lt 0 rank) Hpos) in Ei.
    bind_inv_as Ei nd. inversion Ei; subst l; clear Ei.
    unfold Linear.forward. simpl. rewrite String.eqb_refl. simpl.
    unfold Linear.dict_get at 1. simpl. rewrite String.eqb_refl. simpl.
    rewrite (proj2 (Nat.ltb_lt 0 rank) Hpos). simpl.
    rewrite Hb. simpl bind.
    unfold Linear.correction, Linear.dict_get. simpl.
    rewrite String.eqb_refl. reflexivity.
  - intros -> mapping. simpl in Ei. inversion Ei; subst l; clear Ei.
    unfold Linear.forward. simpl. rewrite Hb. reflexivity.
Qed.

End NeedsMapping.

(** The rank-1 layer on the weight [[2]] before any pass of the memory
    layer. *)
Lemma X12_adapter_needs_a_mapping_witness :
  exists l,
    Linear.init "a" 1 1 1 1 false 1 [[2]] None [[3]] = Ok l /\
    Linear.forward (fun w _ => w) (fun x => x) l [] [[[5]]] = Raise AssertionError.
Proof.
  eexists. split; [reflexivity|].
  eapply (proj1 (X12_adapter_needs_a_mapping (fun w _ => w) (fun x => x)
                   "a"%string 1%nat 1%nat 1%nat 1 false 1%nat [[2]] None [[3]]
                   _ [[[5]]] _ eq_refl eq_refl)).
  lia.
Defined.

(** ** The router: presets and the pending loss *)

Lemma where_In : forall row pos j,
  In j (Gate.where_ row pos) <->
  (pos <= j)%nat /\ nth_error row (j - pos) = Some true.
Proof.
  intros row. induction row as [|b row IH]; intros pos j; simpl.
  - split; [tauto|]. intros [_ H]. destruct (j - pos)%nat; discriminate.
  - destruct b; simpl; rewrite ?IH.
    + split.
      * intros [<-|[Hle Hn]].
        -- split; [lia|]. rewrite Nat.sub_diag. reflexivity.
        -- split; [lia|]. replace (j - pos)%nat with (S (j - S pos)) by lia.
           exact Hn.
      * intros [Hle Hn]. destruct (Nat.eq_dec pos j) as [->|Hne]; [left; reflexivity|].
        right. split; [lia|].
        replace (j - pos)%nat with (S (j - S pos)) in Hn by lia. exact Hn.
    + split.
      * intros [Hle Hn]. split; [lia|].
        replace (j - pos)%nat with (S (j - S pos)) by lia. exact Hn.
      * intros [Hle Hn]. destruct (Nat.eq_dec pos j) as [->|Hne].
        -- rewrite Nat.sub_diag in Hn. discriminate.
        -- split; [lia|].
           replace (j - pos)%nat with (S (j - S pos)) in Hn by lia. exact Hn.
Qed.

Lemma where_bound : forall row j, In j (Gate.where_ row 0) -> (j < length row)%nat.
Proof.
  intros row j H. apply where_In in H. destruct H as [_ H].
  rewrite Nat.sub_0_r in H. eapply nth_error_lt; eauto.
Qed.

Section Presets.

Variable topk : nat -> vec -> vec * list nat.

(** X13: a hard preset overrides the learned selection.  [set_target]
    fails on an empty target; when it succeeds, the stored index rows are
    exactly the positions of the true entries of the target rows, and a
    later non-editing [forward] on a well-shaped batch returns those rows
    as the selected indices, whatever [torch.topk] would select, with the
    softmax scores gathered at them. *)
Theorem X13_hard_preset_overrides_topk :
  forall g target g1 inp return_all_scores,
    Gate.set_target g target "hard" = Ok g1 ->
    Gate.editing g = false ->
    forallb (width_ok (Gate.gate_weight g)) inp = true ->
    (forall b, Gate.gate_bias g = Some b -> length b = length (Gate.gate_weight g)) ->
    (length target <= length inp)%nat ->
    Forall (fun row => (length row <= length (Gate.gate_weight g))%nat) target ->
    let idx := map (fun row => Gate.where_ row 0) target in
    let gate := map Gate.softmax
                    (map (linear_row (Gate.gate_weight g) (Gate.gate_bias g)) inp) in
    target <> [] /\
    (forall i row j, nth_error target i = Some row ->
                     (In j (Gate.where_ row 0) <-> nth_error row j = Some true)) /\
    Gate.forward topk g1 inp return_all_scores
    = Ok (idx,
          map (fun p => map (fun j => nth j (fst p) 0) (snd p)) (combine gate idx),
          if return_all_scores then Some gate else None,
          g1).
Proof.
  intros g target g1 inp ras Es He Hw Hb Hl Hrows idx gate.
  unfold Gate.set_target in Es. fold idx in Es.
  destruct idx as [|r0 rest] eqn:Eidx; [discriminate|].
  if_inv Es. inversion Es; subst g1; clear Es. rewrite <- Eidx in *.
  split.
  { intros C. subst target. subst idx. discriminate. }
  split.
  { intros i row j _. rewrite where_In, Nat.sub_0_r. split; [tauto|].
    intros H. split; [lia | exact H]. }
  assert (Hrows' : Forall (fun row => length row = length (Gate.gate_weight g)) gate).
  { subst gate. rewrite !Forall_map. apply Forall_forall. intros x _.
    rewrite softmax_length. apply linear_row_length. exact Hb. }
  assert (Hidx : Forall (Forall (fun j => (j < length (Gate.gate_weight g))%nat)) idx).
  { subst idx. rewrite Forall_map. rewrite Forall_forall in Hrows.
    apply Forall_forall. intros row Hrow. apply Forall_forall. intros j Hj.
    apply where_bound in Hj. specialize (Hrows _ Hrow). lia. }
  assert (EG : Gate.gather gate idx
               = Ok (map (fun p => map (fun j => nth j (fst p) 0) (snd p))
                         (combine gate idx))).
  { apply (gather_ok (length (Gate.gate_weight g))); [exact Hrows' | exact Hidx |].
    subst idx gate. rewrite !length_map. exact Hl. }
  unfold Gate.forward, F_linear2. simpl. rewrite Hw. simpl bind.
  fold gate. rewrite EG. simpl bind. rewrite He. reflexivity.
Qed.

(** X14: the pending loss is only ever written by an editing pass and only
    ever removed by [get_loss]: a non-editing [forward] returns the gate as
    it was, pending loss included; [get_loss(clear=True)] returns the
    pending loss and leaves none, so that a second read gives [None];
    [get_loss(clear=False)] leaves the gate as it was. *)
Theorem X14_pending_loss_lifecycle :
  forall g,
    (forall inp return_all_scores top_idx top_val all_scores g',
        Gate.editing g = false ->
        Gate.forward topk g inp return_all_scores
        = Ok (top_idx, top_val, all_scores, g') ->
        g' = g) /\
    fst (Gate.get_loss g true) = Gate.loss g /\
    Gate.get_loss (snd (Gate.get_loss g true)) true
    = (None, snd (Gate.get_loss g true)) /\
    Gate.get_loss g false = (Gate.loss g, g) /\
    (forall l, fst (Gate.get_loss (Gate.set_loss g l) true) = Some l).
Proof.
  intros g. split; [|repeat split].
  intros inp ras ti tv sc g' He E. unfold Gate.forward in E.
  bind_inv_as E logits. bind_inv_as E sel. destruct sel as [i v].
  bind_inv_as E tgt. rewrite He in E. simpl in E. inversion E; reflexivity.
Qed.

End Presets.

(** ** The router: scores and the sign of the guided loss *)

Lemma rsum_pos_ge : forall l x,
  Forall (fun e => 0 < e) l -> In x l -> x <= rsum l /\ 0 < rsum l.
Proof.
  intros l. induction l as [|a l IH]; intros x Hp Hin; [contradiction|].
  inversion Hp as [|? ? Ha Hl]; subst. simpl. fold (rsum l).
  assert (Hnn : 0 <= rsum l).
  { clear -Hl. induction l as [|b l IH]; simpl; [lra|].
    inversion Hl; subst. fold (rsum l). specialize (IH ltac:(assumption)). lra. }
  destruct Hin as [<-|Hin]; [lra|].
  destruct (IH x Hl Hin). lra.
Qed.

Lemma rsum_div : forall l s, rsum (map (fun e => e / s) l) = rsum l / s.
Proof.
  intros l s. induction l as [|a l IH]; simpl.
  - unfold Rdiv. ring.
  - fold (rsum l). fold (rsum (map (fun e => e / s) l)). rewrite IH.
    unfold Rdiv. ring.
Qed.

Lemma softmax_entries : forall row,
  Forall (fun p => 0 < p <= 1) (Gate.softmax row).
Proof.
  intros row. unfold Gate.softmax.
  set (es := map exp row).
  assert (Hp : Forall (fun e => 0 < e) es).
  { subst es. rewrite Forall_map. apply Forall_forall. intros x _. apply exp_pos. }
  rewrite Forall_map. apply Forall_forall. intros e He.
  destruct (rsum_pos_ge es e Hp He) as [Hle Hs].
  assert (0 < e) by (rewrite Forall_forall in Hp; auto).
  split.
  - apply Rdiv_lt_0_compat; assumption.
  - apply (Rmult_le_reg_r (rsum es)); [exact Hs|].
    unfold Rdiv. rewrite Rmult_assoc, Rinv_l by lra. lra.
Qed.

Lemma softmax_sum : forall row, row <> [] -> rsum (Gate.softmax row) = 1.
Proof.
  intros row Hne. unfold Gate.softmax. rewrite rsum_div.
  destruct row as [|a row]; [congruence|].
  assert (Hs : 0 < rsum (map exp (a :: row))).
  { apply (rsum_pos_ge (map exp (a :: row)) (exp a)).
    - rewrite Forall_map. apply Forall_forall. intros x _. apply exp_pos.
    - left. reflexivity. }
  unfold Rdiv. apply Rinv_r. lra.
Qed.

Lemma gather_row_entries : forall (P : R -> Prop) row idx r,
  Forall P row -> Gate.gather_row row idx = Ok r -> Forall P r.
Proof.
  intros P row idx. unfold Gate.gather_row.
  induction idx as [|j idx IH]; intros r Hrow E; simpl in E.
  - inversion E. constructor.
  - destruct (nth_error row j) as [v|] eqn:Ej; [|discriminate]. simpl in E.
    bind_inv_as E rs. inversion E; subst r. constructor.
    + rewrite Forall_forall in Hrow. apply Hrow. eapply nth_error_In; eauto.
    + apply IH; [exact Hrow | reflexivity].
Qed.

Lemma gather_entries : forall (P : R -> Prop) idx gate m,
  Forall (Forall P) gate -> Gate.gather gate idx = Ok m -> Forall (Forall P) m.
Proof.
  intros P idx. induction idx as [|i idx IH]; intros gate m Hg E.
  - destruct gate; simpl in E; inversion E; constructor.
  - destruct gate as [|row gate]; simpl in E; [discriminate|].
    inversion Hg as [|? ? Hrow Hrest]; subst.
    destruct (Gate.gather_row row i) as [r|e] eqn:Er; [|discriminate]. simpl in E.
    destruct (Gate.gather gate idx) as [rs|e] eqn:Ers; [|discriminate]. simpl in E.
    inversion E; subst m. constructor.
    + eapply gather_row_entries; eauto.
    + eapply IH; eauto.
Qed.

Lemma rsum_ln_nonpos : forall l,
  Forall (fun p => 0 < p <= 1) l -> rsum (map ln l) <= 0.
Proof.
  intros l H. induction H as [|p l [Hp Hle] _ IH]; simpl; [lra|].
  fold (rsum (map ln l)).
  assert (ln p <= 0).
  { destruct (Rle_lt_or_eq_dec _ _ Hle) as [Hlt | ->]; [|rewrite ln_1; lra].
    rewrite <- ln_1. left. apply ln_increasing; assumption. }
  lra.
Qed.

Lemma F_linear2_length : forall W b x y,
  F_linear2 W b x = Ok y -> length y = length x.
Proof.
  intros W b x y E. unfold F_linear2 in E. if_inv E. inversion E.
  now rewrite length_map.
Qed.

Section Scores.

Variable topk : nat -> vec -> vec * list nat.

(** X15: the full score tensor that [forward] returns under
    [return_all_scores] has one row per input row; every score lies in
    (0, 1], and the scores of every non-empty row add up to 1. *)
Theorem X15_scores_are_distributions :
  forall g inp top_idx top_val all_scores g',
    Gate.forward topk g inp true = Ok (top_idx, top_val, all_scores, g') ->
    exists gate,
      all_scores = Some gate /\
      length gate = length inp /\
      Forall (Forall (fun p => 0 < p <= 1)) gate /\
      Forall (fun row => row <> [] -> rsum row = 1) gate.
Proof.
  intros g inp ti tv sc g' E. unfold Gate.forward in E.
  destruct (F_linear2 (Gate.gate_weight g) (Gate.gate_bias g) inp)
    as [logits|e] eqn:El; [|discriminate].
  simpl bind in E.
  bind_inv_as E sel. destruct sel as [i v].
  bind_inv_as E tgt. bind_inv_as E g2. inversion E; subst.
  exists (map Gate.softmax logits).
  split; [reflexivity|].
  split; [rewrite length_map; eapply F_linear2_length; eauto|].
  split; [rewrite Forall_map; apply Forall_forall; intros; apply softmax_entries|].
  rewrite Forall_map. apply Forall_forall. intros row _ Hne.
  apply softmax_sum. intros ->. apply Hne. reflexivity.
Qed.

(** X16: the loss that an editing pass on a non-empty batch records is
    never negative. *)
Theorem X16_guided_loss_nonnegative :
  forall g inp return_all_scores top_idx top_val all_scores g',
    Gate.editing g = true ->
    inp <> [] ->
    Gate.forward topk g inp return_all_scores
    = Ok (top_idx, top_val, all_scores, g') ->
    exists l, Gate.loss g' = Some l /\ 0 <= l.
Proof.
  intros g inp ras ti tv sc g' He Hne E. unfold Gate.forward in E.
  destruct (F_linear2 (Gate.gate_weight g) (Gate.gate_bias g) inp)
    as [logits|e] eqn:El; [|discriminate].
  simpl bind in E.
  bind_inv_as E sel. destruct sel as [i v].
  bind_inv_as E tgt. rewrite He in E.
  destruct tgt as [idx|]; [|discriminate].
  destruct (Gate.gather (map Gate.softmax logits) idx) as [probs|e] eqn:Eg;
    [|discriminate].
  simpl in E. inversion E; subst. simpl.
  eexists. split; [reflexivity|].
  unfold Gate.guided_loss. rewrite length_map.
  rewrite (F_linear2_length _ _ _ _ El).
  assert (Hn : 0 < INR (length inp)).
  { apply lt_0_INR. destruct inp; [congruence | simpl; lia]. }
  assert (Hp : Forall (Forall (fun p => 0 < p <= 1)) probs).
  { eapply gather_entries; [|exact Eg].
    rewrite Forall_map. apply Forall_forall. intros; apply softmax_entries. }
  assert (Hs : rsum (map ln (concat probs)) <= 0).
  { apply rsum_ln_nonpos. apply Forall_concat. exact Hp. }
  unfold Rdiv. apply Rmult_le_pos; [lra|]. left. apply Rinv_0_lt_compat. exact Hn.
Qed.

End Scores.

(** A two-expert router whose hard preset names expert 1 while
    [torch.topk] would return expert 0. *)
Lemma X13_hard_preset_overrides_topk_witness :
  let g := Gate.mk 2 None [[1]; [2]] None 1 false None None false in
  let g1 := Gate.mk 2 None [[1]; [2]] None 1 true (Some "hard"%string)
                    (Some [[1%nat]]) false in
  let topk := fun (k : nat) (row : vec) => (firstn k row, seq 0 k) in
  Gate.set_target g [[false; true]] "hard" = Ok g1 /\
  exists vals, Gate.forward topk g1 [[3]] false = Ok ([[1%nat]], vals, None, g1).
Proof.
  intros g g1 topk. split; [reflexivity|]. eexists.
  apply (proj2 (proj2 (X13_hard_preset_overrides_topk topk g [[false; true]] g1
                         [[3]] false eq_refl eq_refl eq_refl
                         ltac:(intros b Hb; discriminate Hb)
                         ltac:(simpl; lia)
                         ltac:(repeat constructor)))).
Defined.

(** A pass outside editing over a router that still holds the loss 5. *)
Lemma X14_pending_loss_lifecycle_witness :
  let g := Gate.mk 2 (Some 5) [[1]; [2]] None 1 false None None false in
  let topk := fun (k : nat) (row : vec) => (firstn k row, seq 0 k) in
  exists top_idx top_val all_scores g',
    Gate.forward topk g [[3]] false = Ok (top_idx, top_val, all_scores, g') /\
    g' = g.
Proof.
  intros g topk.
  pose proof (fun ti tv sc g' =>
                proj1 (X14_pending_loss_lifecycle topk g) [[3]] false ti tv sc g'
                      eq_refl) as H.
  do 4 eexists. split; [reflexivity|]. eapply H. reflexivity.
Defined.

(** The scores of a two-expert router on one input row. *)
Lemma X15_scores_are_distributions_witness :
  let g := Gate.mk 2 None [[1]; [2]] None 1 false None None false in
  let topk := fun (k : nat) (row : vec) => (firstn k row, seq 0 k) in
  exists top_idx top_val all_scores g',
    Gate.forward topk g [[3]] true = Ok (top_idx, top_val, all_scores, g') /\
    exists gate,
      all_scores = Some gate /\
      length gate = length [[3]] /\
      Forall (Forall (fun p => 0 < p <= 1)) gate /\
      Forall (fun row => row <> [] -> rsum row = 1) gate.
Proof.
  intros g topk. do 4 eexists. split; [reflexivity|].
  eapply (X15_scores_are_distributions topk g [[3]]). reflexivity.
Defined.

(** An editing pass with a soft preset target on expert 0. *)
Lemma X16_guided_loss_nonnegative_witness :
  let g := Gate.mk 2 None [[1]; [2]] None 1 true (Some "soft"%string)
                   (Some [[0%nat]]) true in
  let topk := fun (k : nat) (row : vec) => (firstn k row, seq 0 k) in
  exists top_idx top_val all_scores g',
    Gate.forward topk g [[3]] false = Ok (top_idx, top_val, all_scores, g') /\
    exists l, Gate.loss g' = Some l /\ 0 <= l.
Proof.
  intros g topk. do 4 eexists. split; [reflexivity|].
  eapply (X16_guided_loss_nonnegative topk g [[3]] false _ _ _ _ eq_refl).
  - discriminate.
  - reflexivity.
Defined.

(** ** The deferral test of [ElderGraceLinear] *)

Lemma mapM_ok_map : forall (A B : Type) (f : A -> result B) (g : A -> B) l,
  (forall a, In a l -> f a = Ok (g a)) -> mapM f l = Ok (map g l).
Proof.
  intros A B f g l. induction l as [|a l IH]; intros H; simpl; [reflexivity|].
  rewrite (H a (or_introl eq_refl)). simpl.
  rewrite IH by (intros; apply H; right; assumption). reflexivity.
Qed.

Lemma mapM_In : forall (A B : Type) (f : A -> result B) l l' a,
  mapM f l = Ok l' -> In a l -> exists b, f a = Ok b /\ In b l'.
Proof.
  intros A B f l. induction l as [|x l IH]; intros l' a E Hin; [contradiction|].
  simpl in E. bind_inv_as E b. bind_inv_as E bs. inversion E; subst l'.
  destruct Hin as [->|Hin].
  - exists b. split; [assumption | left; reflexivity].
  - destruct (IH bs a eq_refl Hin) as [b' [Hb Hin']].
    exists b'. split; [assumption | right; assumption].
Qed.

Lemma fold_min_le : forall ds d,
  (fold_left Z.min ds d <= d)%Z /\
  (forall x, In x ds -> (fold_left Z.min ds d <= x)%Z) /\
  In (fold_left Z.min ds d) (d :: ds).
Proof.
  intros ds. induction ds as [|y ds IH]; intros d; simpl.
  - split; [lia|]. split; [tauto | left; reflexivity].
  - destruct (IH (Z.min d y)) as [H1 [H2 H3]]. split; [lia|]. split.
    + intros x [<-|Hx]; [lia | auto].
    + destruct H3 as [H3|H3]; [|right; right; exact H3].
      destruct (Z.min_spec d y) as [[_ E]|[_ E]];
        [left | right; left]; congruence.
Qed.

Lemma min_row_spec : forall ds m,
  ElderGrace.min_row ds = Ok m ->
  In m ds /\ forall x, In x ds -> (m <= x)%Z.
Proof.
  intros [|d ds] m E; simpl in E; [discriminate|]. inversion E; subst m.
  destruct (fold_min_le ds d) as [H1 [H2 H3]]. split; [exact H3|].
  intros x [<-|Hx]; auto.
Qed.

Lemma combine_map_both : forall (A B : Type) (g : A -> B) (c d : list A),
  combine (map g c) (map g d) = map (fun p => (g (fst p), g (snd p))) (combine c d).
Proof.
  intros A B g c. induction c as [|x c IH]; intros [|y d]; simpl; auto.
  now rewrite IH.
Qed.

Lemma hamming_same_width : forall c d,
  length c = length d -> ElderGrace.hamming c d = Ok (hamming_distance c d).
Proof.
  intros c d H. unfold ElderGrace.hamming, ElderGrace.xor_rows.
  rewrite !length_map, H, Nat.eqb_refl. simpl.
  unfold hamming_distance. rewrite combine_map_both, map_map. reflexivity.
Qed.

Lemma count_true_nonneg : forall xs, (0 <= ElderGrace.count_true xs)%Z.
Proof. intros xs. unfold ElderGrace.count_true. lia. Qed.

Lemma hamming_nonneg : forall c d h, ElderGrace.hamming c d = Ok h -> (0 <= h)%Z.
Proof.
  intros c d h E. unfold ElderGrace.hamming in E. bind_inv_as E xs.
  inversion E. apply count_true_nonneg.
Qed.

Lemma hamming_distance_self : forall c, hamming_distance c c = 0%Z.
Proof.
  intros c. unfold hamming_distance, ElderGrace.count_true.
  induction c as [|z c IH]; simpl; [reflexivity|].
  rewrite xorb_nilpotent. exact IH.
Qed.

Lemma cat0_ok : forall ms C,
  ms <> [] -> Forall (fun r => length r = C) (concat ms) ->
  ElderGrace.cat0 ms = Ok (concat ms).
Proof.
  intros ms C Hne H. unfold ElderGrace.cat0.
  destruct ms as [|m ms]; [congruence|].
  destruct (concat (m :: ms)) as [|r0 rows] eqn:E; [reflexivity|].
  assert (Hall : forallb (fun r => Nat.eqb (length r) (length r0)) (r0 :: rows) = true).
  { apply forallb_forall. intros r Hr. apply Nat.eqb_eq.
    rewrite Forall_forall in H. rewrite (H r Hr), (H r0 (or_introl eq_refl)).
    reflexivity. }
  rewrite Hall. reflexivity.
Qed.

Lemma cat0_inv : forall ms dataset,
  ElderGrace.cat0 ms = Ok dataset ->
  dataset = concat ms /\
  forall a b, In a dataset -> In b dataset -> length a = length b.
Proof.
  intros ms dataset E. unfold ElderGrace.cat0 in E.
  destruct ms as [|m ms]; [discriminate|].
  destruct (concat (m :: ms)) as [|r0 rows] eqn:Ec.
  - inversion E. split; [reflexivity | intros a b []].
  - if_inv E. inversion E; subst dataset. split; [reflexivity|].
    rewrite forallb_forall in Eb. intros a b Ha Hb.
    apply Eb in Ha. apply Eb in Hb. apply Nat.eqb_eq in Ha, Hb. congruence.
Qed.

Lemma flag_true_iff : forall x t,
  (if Rlt_dec (IZR x) t then true else false) = true <-> IZR x < t.
Proof. intros x t. destruct (Rlt_dec (IZR x) t); split; auto; discriminate. Qed.

(** X17: the deferral test on codes of one width.  With at least one
    recorded code row, [discriminate] returns one flag per row of the
    layer's code, and the flag of a row is true exactly when some
    recorded row is at Hamming distance below the threshold.  Raising
    the threshold never turns a flag off, and a threshold of 0 or less
    puts nothing in scope. *)
Theorem X17_discriminate_in_scope :
  forall l G t code C,
    ElderGrace.binary_code l = Some code ->
    concat (BINARY_CODE G) <> [] ->
    Forall (fun r => length r = C) (concat (BINARY_CODE G)) ->
    Forall (fun r => length r = C) code ->
    exists flag,
      ElderGrace.discriminate l G t = Ok flag /\
      length flag = length code /\
      (forall i c, nth_error code i = Some c ->
         (nth_error flag i = Some true <->
          exists d, In d (concat (BINARY_CODE G)) /\ IZR (hamming_distance c d) < t)) /\
      (forall t' flag' i,
         t <= t' -> ElderGrace.discriminate l G t' = Ok flag' ->
         nth_error flag i = Some true -> nth_error flag' i = Some true) /\
      (t <= 0 -> Forall (fun b => b = false) flag).
Proof.
  intros l G t code C Hcode Hne Hd Hc.
  set (dataset := concat (BINARY_CODE G)) in *.
  assert (Hms : BINARY_CODE G <> []).
  { intros E. apply Hne. subst dataset. rewrite E. reflexivity. }
  assert (Ecat : ElderGrace.cat0 (BINARY_CODE G) = Ok dataset)
    by (apply (cat0_ok _ C); assumption).
  destruct dataset as [|d0 ds] eqn:Eds; [congruence|]. rewrite <- Eds in *.
  set (dist := fun c => fold_left Z.min (map (hamming_distance c) ds)
                                  (hamming_distance c d0)).
  assert (Erow : forall c, In c code ->
            (hs <- mapM (ElderGrace.hamming c) dataset ;; ElderGrace.min_row hs)
            = Ok (dist c)).
  { intros c Hin.
    rewrite (mapM_ok_map _ _ _ (hamming_distance c)).
    - rewrite Eds. reflexivity.
    - intros d Hdin. apply hamming_same_width.
      rewrite Forall_forall in Hd, Hc. rewrite (Hc c Hin), (Hd d Hdin). reflexivity. }
  assert (Hdist : forall c,
            In (dist c) (map (hamming_distance c) dataset) /\
            forall d, In d dataset -> (dist c <= hamming_distance c d)%Z).
  { intros c. rewrite Eds. unfold dist. simpl.
    destruct (fold_min_le (map (hamming_distance c) ds) (hamming_distance c d0))
      as [H1 [H2 H3]].
    split; [exact H3|]. intros d [<-|Hin]; [exact H1|].
    apply H2. apply in_map. exact Hin. }
  assert (Eall : forall t0,
            ElderGrace.discriminate l G t0
            = Ok (map (fun x => if Rlt_dec (IZR x) t0 then true else false)
                      (map dist code))).
  { intros t0. unfold ElderGrace.discriminate. rewrite Ecat, Hcode. simpl bind.
    rewrite (mapM_ok_map _ _ _ dist _ Erow). reflexivity. }
  eexists. split; [apply Eall|].
  split; [now rewrite !length_map|].
  split; [|split].
  - intros i c Hi. rewrite !nth_error_map, Hi. simpl.
    split.
    + intros E. assert (E' : IZR (dist c) < t) by (apply flag_true_iff; congruence).
      destruct (Hdist c) as [Hin _]. apply in_map_iff in Hin.
      destruct Hin as [d [Hd1 Hd2]]. exists d. split; [exact Hd2|].
      rewrite Hd1. exact E'.
    + intros [d [Hin Hlt]]. f_equal. apply flag_true_iff.
      destruct (Hdist c) as [_ Hle]. specialize (Hle d Hin).
      apply IZR_le in Hle. lra.
  - intros t' flag' i Hle E' Hi. rewrite Eall in E'. inversion E'; subst flag'.
    rewrite !nth_error_map in *.
    destruct (nth_error code i) as [c|]; simpl in *; [|discriminate].
    assert (Hi' : IZR (dist c) < t) by (apply flag_true_iff; congruence).
    f_equal. apply flag_true_iff. lra.
  - intros Ht. rewrite !Forall_map. apply Forall_forall. intros c Hin.
    destruct (Rlt_dec (IZR (dist c)) t) as [Hlt|]; [|reflexivity].
    exfalso. destruct (Hdist c) as [Hi _]. apply in_map_iff in Hi.
    destruct Hi as [d [Hd1 _]].
    assert (0 <= dist c)%Z.
    { rewrite <- Hd1. unfold hamming_distance. apply count_true_nonneg. }
    assert (0 <= IZR (dist c)) by (apply IZR_le; assumption). lra.
Qed.

(** The code [1, 0] against the recorded codes [1, 0] and [0, 1], with
    the threshold 1. *)
Lemma X17_discriminate_in_scope_witness :
  let l := ElderGrace.mk [[1]] None false false (ElderGrace.KeyInt (-1)) [] 1 2
                         (Some [[1; 0]; [1; 1]]%Z) None None None in
  let G := mk_globals None None [[[1; 0]; [0; 1]]%Z] in
  exists flag,
    ElderGrace.discriminate l G 1 = Ok flag /\
    nth_error flag 0 = Some true.
Proof.
  intros l G.
  destruct (X17_discriminate_in_scope l G 1 [[1; 0]; [1; 1]]%Z 2%nat eq_refl
              ltac:(discriminate)
              ltac:(repeat constructor)
              ltac:(repeat constructor))
    as [flag [E [_ [H _]]]].
  exists flag. split; [exact E|].
  apply (H 0%nat [1; 0]%Z eq_refl).
  exists [1; 0]%Z. split; [left; reflexivity|].
  change (hamming_distance [1; 0]%Z [1; 0]%Z) with 0%Z. lra.
Defined.

(** ** Recording codes and looking them up again *)

Ltac obind_inv_as H x :=
  match type of H with
  | obind ?m _ = Returns _ =>
      let E := fresh "E" in
      destruct m as [x|] eqn:E; simpl in H; [| discriminate H]
  end.

Lemma lift_Returns : forall (A : Type) (m : result A) a,
  lift m = Returns a -> m = Ok a.
Proof. intros A [b|e] a E; simpl in E; inversion E; reflexivity. Qed.

Lemma mapM_Forall : forall (A B : Type) (f : A -> result B) (P : B -> Prop) l l',
  mapM f l = Ok l' ->
  (forall a b, In a l -> f a = Ok b -> P b) ->
  Forall P l'.
Proof.
  intros A B f P l. induction l as [|a l IH]; intros l' E H; simpl in E.
  - inversion E. constructor.
  - bind_inv_as E b. bind_inv_as E bs. inversion E; subst l'. constructor.
    + apply (H a b); [left; reflexivity | assumption].
    + apply IH; [reflexivity|]. intros a' b' Hin. apply H. right. exact Hin.
Qed.

Lemma with_binary_code_inj : forall l c c',
  ElderGrace.with_binary_code l c = ElderGrace.with_binary_code l c' -> c = c'.
Proof.
  intros l c c' H. apply (f_equal ElderGrace.binary_code) in H. simpl in H.
  now inversion H.
Qed.

Lemma get_bin_code_inv : forall topk l bq l',
  ElderGrace.get_bin_code topk l bq = Ok l' ->
  exists c,
    l' = ElderGrace.with_binary_code l c /\
    forall l2,
      ElderGrace.gate_linear_layers l2 = ElderGrace.gate_linear_layers l ->
      ElderGrace.top_k l2 = ElderGrace.top_k l ->
      ElderGrace.num_experts l2 = ElderGrace.num_experts l ->
      ElderGrace.get_bin_code topk l2 bq = Ok (ElderGrace.with_binary_code l2 c).
Proof.
  intros topk l bq l' E. unfold ElderGrace.get_bin_code in E.
  unfold ElderGrace.k_hot_output in E.
  bind_inv_as E outs. bind_inv_as E c. inversion E; subst l'.
  exists c. split; [reflexivity|]. intros l2 H1 H2 H3.
  unfold ElderGrace.get_bin_code, ElderGrace.k_hot_output.
  rewrite H1, H2, H3. rewrite E0. simpl. rewrite E1. reflexivity.
Qed.

Lemma all_true_repeat : forall (g : Z -> bool) ds,
  Forall (fun d => g d = true) ds -> map g ds = repeat true (length ds).
Proof.
  intros g ds H. induction H as [|d ds Hd _ IH]; simpl; [reflexivity|].
  now rewrite Hd, IH.
Qed.

Lemma discriminate_recorded : forall l G th flag c,
  ElderGrace.discriminate l G th = Ok flag ->
  ElderGrace.binary_code l = Some c ->
  In c (BINARY_CODE G) ->
  0 < th ->
  flag = repeat true (length c).
Proof.
  intros l G th flag c E Hc Hin Hth. unfold ElderGrace.discriminate in E.
  bind_inv_as E dataset. rewrite Hc in E. simpl in E. bind_inv_as E dm.
  inversion E; subst flag; clear E.
  destruct (cat0_inv _ _ E0) as [Hds _].
  rewrite <- (mapM_length _ _ _ _ _ E1).
  apply all_true_repeat.
  apply (mapM_Forall _ _ _ _ _ _ E1). intros a b Ha Hb.
  bind_inv_as Hb hs.
  assert (Hain : In a dataset).
  { rewrite Hds. apply in_concat. exists c. split; assumption. }
  destruct (mapM_In _ _ _ _ _ a E Hain) as [h [Hh Hhin]].
  rewrite hamming_same_width in Hh by reflexivity.
  rewrite hamming_distance_self in Hh. inversion Hh; subst h.
  destruct (min_row_spec _ _ Hb) as [_ Hmin]. specialize (Hmin 0%Z Hhin).
  apply flag_true_iff. apply IZR_le in Hmin. lra.
Qed.

Section Deferral.

Variable transpose : matrix -> bool -> matrix.
Variable topk : nat -> vec -> vec * list nat.

(** X18: an input whose code was recorded stays in scope.  After a pass
    with [is_last_iter] set over a batch, any later inference pass
    ([editing] false) of a layer with the same key position, gates,
    [top_k] and [num_experts] over the same batch, with a positive
    threshold and with the recorded codes still in [BINARY_CODE], marks
    every element of the batch as in scope, [torch.topk] being a
    function of its input. *)
Theorem X18_recorded_inputs_stay_in_scope :
  forall l G x l1 G1 out1 l' G' th l2 G2 out2,
    ElderGrace.forward transpose topk l G x = Returns (l1, G1, out1) ->
    ElderGrace.disable_grace l = false ->
    ElderGrace.is_last_iter l = Some true ->
    ElderGrace.key_id l' = ElderGrace.key_id l ->
    ElderGrace.gate_linear_layers l' = ElderGrace.gate_linear_layers l ->
    ElderGrace.top_k l' = ElderGrace.top_k l ->
    ElderGrace.num_experts l' = ElderGrace.num_experts l ->
    ElderGrace.disable_grace l' = false ->
    ElderGrace.editing l' = Some false ->
    ElderGrace.threshold l' = Some th ->
    0 < th ->
    (forall c, In c (BINARY_CODE G1) -> In c (BINARY_CODE G')) ->
    ElderGrace.forward transpose topk l' G' x = Returns (l2, G2, out2) ->
    exists code,
      ElderGrace.binary_code l1 = Some code /\
      BINARY_CODE G1 = BINARY_CODE G ++ [code] /\
      ElderGrace.binary_code l2 = Some code /\
      IN_EDIT_SCOPE G2 = Some (repeat true (length code)).
Proof.
  intros l G x l1 G1 out1 l' G' th l2 G2 out2
         E1 Hdis Hlast Hkey Hgates Htopk Hnum Hdis' Hed Hth Hpos Hsub E2.
  (* the recording pass *)
  unfold ElderGrace.forward in E1.
  obind_inv_as E1 layer_out. rewrite Hdis in E1.
  obind_inv_as E1 bq. rewrite Hlast in E1.
  destruct (ElderGrace.get_bin_code topk l bq) as [la|] eqn:Eg;
    simpl in E1; [|discriminate].
  destruct (get_bin_code_inv _ _ _ _ Eg) as [c [-> Hsame]].
  simpl in E1.
  assert (H1 : ElderGrace.binary_code l1 = Some c /\
               BINARY_CODE G1 = BINARY_CODE G ++ [c]).
  { destruct (ElderGrace.editing l) as [[|]|]; simpl in E1.
    - inversion E1; subst. split; reflexivity.
    - rewrite (Hsame (ElderGrace.with_binary_code l c) eq_refl eq_refl eq_refl)
        in E1.
      simpl in E1.
      destruct (ElderGrace.threshold l) as [th0|]; simpl in E1; [|discriminate].
      match type of E1 with
      | obind (obind (lift ?d) _) _ = _ =>
          destruct d as [flag|]; simpl in E1; [|discriminate]
      end.
      inversion E1; subst. split; reflexivity.
    - inversion E1; subst. split; reflexivity. }
  destruct H1 as [Hc1 HG1].
  exists c. split; [exact Hc1|]. split; [exact HG1|].
  assert (Hrec : In c (BINARY_CODE G')).
  { apply Hsub. rewrite HG1. apply in_or_app. right. left. reflexivity. }
  (* the inference pass *)
  unfold ElderGrace.forward in E2.
  obind_inv_as E2 layer_out2. rewrite Hdis' in E2.
  assert (Ebq : ElderGrace.batch_query l' x = Returns bq).
  { unfold ElderGrace.batch_query in *. rewrite Hkey. exact E0. }
  rewrite Ebq in E2. simpl in E2.
  assert (Hsame' : forall lb,
            ElderGrace.gate_linear_layers lb = ElderGrace.gate_linear_layers l' ->
            ElderGrace.top_k lb = ElderGrace.top_k l' ->
            ElderGrace.num_experts lb = ElderGrace.num_experts l' ->
            ElderGrace.get_bin_code topk lb bq
            = Ok (ElderGrace.with_binary_code lb c)).
  { intros lb Ha Hb Hn. apply Hsame; congruence. }
  assert (Hrec' : In c (BINARY_CODE G' ++ [c]))
    by (apply in_or_app; left; exact Hrec).
  destruct (ElderGrace.is_last_iter l') as [[|]|] eqn:Hl';
    [rewrite (Hsame' l' eq_refl eq_refl eq_refl) in E2 | |];
    simpl in E2; rewrite Hed in E2;
    [rewrite (Hsame' (ElderGrace.with_binary_code l' c) eq_refl eq_refl eq_refl)
       in E2
    |rewrite (Hsame' l' eq_refl eq_refl eq_refl) in E2
    |rewrite (Hsame' l' eq_refl eq_refl eq_refl) in E2];
    simpl in E2; rewrite Hth in E2; simpl in E2;
    match type of E2 with
    | context [ElderGrace.discriminate ?a ?b ?t] =>
        destruct (ElderGrace.discriminate a b t) as [flag|] eqn:Ed;
        simpl in E2; [|discriminate]
    end;
    inversion E2; subst; simpl; (split; [reflexivity|]); f_equal;
    (eapply discriminate_recorded;
     [exact Ed | reflexivity | simpl; assumption | exact Hpos]).
Qed.

End Deferral.

(** A layer with one two-expert gate records the code of a batch in an
    editing pass and meets the same batch again at inference. *)
Lemma X18_recorded_inputs_stay_in_scope_witness :
  let transpose := fun (w : matrix) (_ : bool) => w in
  let topk := fun (k : nat) (row : vec) => (firstn k row, seq 0 k) in
  let l := ElderGrace.mk [[1]] None false false (ElderGrace.KeyInt (-1))
                         [([[1]; [2]], None)] 1 2 None
                         (Some true) (Some true) None in
  let l' := ElderGrace.mk [[1]] None false false (ElderGrace.KeyInt (-1))
                          [([[1]; [2]], None)] 1 2 None
                          (Some false) (Some false) (Some 1) in
  exists l1 G1 out1 l2 G2 out2,
    ElderGrace.forward transpose topk l initial_globals [[[3]]]
    = Returns (l1, G1, out1) /\
    ElderGrace.forward transpose topk l' G1 [[[3]]] = Returns (l2, G2, out2) /\
    exists code,
      ElderGrace.binary_code l1 = Some code /\
      BINARY_CODE G1 = BINARY_CODE initial_globals ++ [code] /\
      ElderGrace.binary_code l2 = Some code /\
      IN_EDIT_SCOPE G2 = Some (repeat true (length code)).
Proof.
  intros transpose topk l l'.
  do 6 eexists. split; [reflexivity|]. split; [reflexivity|].
  eapply (X18_recorded_inputs_stay_in_scope transpose topk l initial_globals
            [[[3]]] _ _ _ l' _ 1);
    try reflexivity.
  - lra.
  - intros c H. exact H.
  - reflexivity.
Defined.

Section Transparent.

Variable transpose : matrix -> bool -> matrix.
Variable topk : nat -> vec -> vec * list nat.

(** X19: [ElderGraceLinear.forward] never changes what the wrapped layer
    computes.  Whenever it returns, the output is the base output, the
    layer differs from the one before at most in its code, and
    [BINARY_CODE] is unchanged or one code longer, the latter only under
    [is_last_iter].  A disabled layer leaves the module-level variables
    alone; an enabled one returns only for a tensor of positions or the
    position [-1]; in an editing pass every element of the batch is in
    scope; without the attribute [editing] the flags are left as they
    were. *)
Theorem X19_forward_returns_base_output :
  forall l G x l' G' out,
    ElderGrace.forward transpose topk l G x = Returns (l', G', out) ->
    F_linear (transpose (ElderGrace.weight l) (ElderGrace.fan_in_fan_out l))
             (ElderGrace.bias l) x = Ok out /\
    (l' = l \/ exists c, l' = ElderGrace.with_binary_code l c) /\
    (BINARY_CODE G' = BINARY_CODE G \/
     (ElderGrace.is_last_iter l = Some true /\
      exists c, ElderGrace.binary_code l' = Some c /\
                BINARY_CODE G' = BINARY_CODE G ++ [c])) /\
    (ElderGrace.disable_grace l = true -> l' = l /\ G' = G) /\
    (ElderGrace.disable_grace l = false ->
     (exists ids, ElderGrace.key_id l = ElderGrace.KeyTensor ids) \/
     ElderGrace.key_id l = ElderGrace.KeyInt (-1)) /\
    (ElderGrace.disable_grace l = false ->
     ElderGrace.editing l = Some true ->
     IN_EDIT_SCOPE G' = Some (repeat true (length x))) /\
    (ElderGrace.disable_grace l = false ->
     ElderGrace.editing l = None ->
     IN_EDIT_SCOPE G' = IN_EDIT_SCOPE G).
Proof.
  intros l G x l' G' out E. unfold ElderGrace.forward in E.
  obind_inv_as E layer_out. apply lift_Returns in E0.
  destruct (ElderGrace.disable_grace l) eqn:Hd.
  { inversion E; subst. split; [exact E0|]. split; [left; reflexivity|].
    split; [left; reflexivity|]. split; [auto|].
    split; [discriminate|]. split; discriminate. }
  obind_inv_as E bq.
  assert (Hkey : (exists ids, ElderGrace.key_id l = ElderGrace.KeyTensor ids) \/
                 ElderGrace.key_id l = ElderGrace.KeyInt (-1)).
  { unfold ElderGrace.batch_query in E1.
    destruct (ElderGrace.key_id l) as [ids|i]; [left; eauto|].
    destruct (i =? -1)%Z eqn:Ei; [|discriminate].
    apply Z.eqb_eq in Ei. subst i. right. reflexivity. }
  assert (Hsecond : forall la Ga,
            (la = l \/ exists c, la = ElderGrace.with_binary_code l c) ->
            ElderGrace.editing la = ElderGrace.editing l ->
            ('(lb, Gb) <~
               (match ElderGrace.editing la with
                | Some false =>
                    lb <~ lift (ElderGrace.get_bin_code topk la bq) ;;
                    th <~ match ElderGrace.threshold lb with
                          | Some th => Returns th
                          | None => Raises (Std AttributeError)
                          end ;;
                    flag <~ lift (ElderGrace.discriminate lb Ga th) ;;
                    Returns (lb, mk_globals (SEQ_REPR Ga) (Some flag) (BINARY_CODE Ga))
                | Some true =>
                    Returns (la, mk_globals (SEQ_REPR Ga)
                                            (Some (repeat true (length x)))
                                            (BINARY_CODE Ga))
                | None => Returns (la, Ga)
                end) ;;
             Returns (lb, Gb, layer_out)) = Returns (l', G', out) ->
            out = layer_out /\
            (l' = l \/ exists c, l' = ElderGrace.with_binary_code l c) /\
            (l' = la \/ exists c, l' = ElderGrace.with_binary_code la c) /\
            BINARY_CODE G' = BINARY_CODE Ga /\
            (ElderGrace.editing l = Some true ->
             IN_EDIT_SCOPE G' = Some (repeat true (length x))) /\
            (ElderGrace.editing l = None -> IN_EDIT_SCOPE G' = IN_EDIT_SCOPE Ga) /\
            (forall c0,
               ElderGrace.get_bin_code topk l bq
               = Ok (ElderGrace.with_binary_code l c0) ->
               ElderGrace.binary_code la = Some c0 ->
               ElderGrace.binary_code l' = Some c0)).
  { intros la Ga Hla Hed Es. rewrite Hed in Es.
    destruct (ElderGrace.editing l) as [[|]|].
    - simpl in Es. inversion Es; subst. simpl. repeat split; auto; discriminate.
    - destruct (ElderGrace.get_bin_code topk la bq) as [lc|] eqn:Eg;
        simpl in Es; [|discriminate].
      destruct (get_bin_code_inv _ _ _ _ Eg) as [c [-> _]]. simpl in Es.
      destruct (ElderGrace.threshold la) as [th|]; simpl in Es; [|discriminate].
      destruct (ElderGrace.discriminate (ElderGrace.with_binary_code la c) Ga th)
        as [flag|]; simpl in Es; [|discriminate].
      inversion Es; subst. simpl.
      split; [reflexivity|]. split.
      { right. destruct Hla as [->|[c0 ->]]; exists c; reflexivity. }
      split; [right; exists c; reflexivity|].
      split; [reflexivity|]. split; [discriminate|]. split; [discriminate|].
      intros c0 Hl0 _.
      destruct (get_bin_code_inv _ _ _ _ Hl0) as [c1 [Hc1 Hsame]].
      assert (Eg' : ElderGrace.get_bin_code topk la bq
                    = Ok (ElderGrace.with_binary_code la c1)).
      { apply Hsame; destruct Hla as [->|[c2 ->]]; reflexivity. }
      rewrite Eg in Eg'. injection Eg' as Eg'.
      apply with_binary_code_inj in Hc1.
      simpl. congruence.
    - simpl in Es. inversion Es; subst. repeat split; auto; discriminate. }
  destruct (ElderGrace.is_last_iter l) as [[|]|] eqn:Hlast.
  - destruct (ElderGrace.get_bin_code topk l bq) as [la|] eqn:Eg;
      simpl in E; [|discriminate].
    destruct (get_bin_code_inv _ _ _ _ Eg) as [c [-> _]].
    apply (Hsecond (ElderGrace.with_binary_code l c)
                   (mk_globals (Some bq) (IN_EDIT_SCOPE G) (BINARY_CODE G ++ [c]))
                   (or_intror (ex_intro _ c eq_refl)) eq_refl) in E.
    destruct E as [-> [H1 [H2 [H3 [H4 [H5 H6]]]]]].
    split; [exact E0|]. split; [exact H1|]. split.
    { right. split; [reflexivity|]. exists c. split.
      - apply H6; reflexivity.
      - rewrite H3. reflexivity. }
    split; [discriminate|]. split; [auto|]. split; [auto|].
    intros _ He. rewrite (H5 He). reflexivity.
  - apply (Hsecond l (mk_globals (Some bq) (IN_EDIT_SCOPE G) (BINARY_CODE G))
                   (or_introl eq_refl) eq_refl) in E.
    destruct E as [-> [H1 [H2 [H3 [H4 [H5 H6]]]]]].
    split; [exact E0|]. split; [exact H1|].
    split; [left; rewrite H3; reflexivity|].
    split; [discriminate|]. split; [auto|]. split; [auto|].
    intros _ He. rewrite (H5 He). reflexivity.
  - apply (Hsecond l (mk_globals (Some bq) (IN_EDIT_SCOPE G) (BINARY_CODE G))
                   (or_introl eq_refl) eq_refl) in E.
    destruct E as [-> [H1 [H2 [H3 [H4 [H5 H6]]]]]].
    split; [exact E0|]. split; [exact H1|].
    split; [left; rewrite H3; reflexivity|].
    split; [discriminate|]. split; [auto|]. split; [auto|].
    intros _ He. rewrite (H5 He). reflexivity.
Qed.

End Transparent.

(** A layer at position [-1] in an editing pass over one input. *)
Lemma X19_forward_returns_base_output_witness :
  let transpose := fun (w : matrix) (_ : bool) => w in
  let topk := fun (k : nat) (row : vec) => (firstn k row, seq 0 k) in
  let l := ElderGrace.mk [[1]] None false false (ElderGrace.KeyInt (-1))
                         [([[1]; [2]], None)] 1 2 None
                         None (Some true) None in
  exists l' G' out,
    ElderGrace.forward transpose topk l initial_globals [[[3]]]
    = Returns (l', G', out) /\
    F_linear (transpose (ElderGrace.weight l) (ElderGrace.fan_in_fan_out l))
             (ElderGrace.bias l) [[[3]]] = Ok out.
Proof.
  intros transpose topk l. do 3 eexists. split; [reflexivity|].
  refine (proj1 (X19_forward_returns_base_output transpose topk l initial_globals
                   [[[3]]] _ _ _ eq_refl)).
Defined.

(** ** The shape of a code *)

Lemma scatter_ones_spec : forall idx row r,
  ElderGrace.scatter_ones row idx = Ok r ->
  length r = length row /\
  (Forall (fun z => z = 0 \/ z = 1)%Z row -> Forall (fun z => z = 0 \/ z = 1)%Z r).
Proof.
  intros idx. induction idx as [|j idx IH]; intros row r E; simpl in E.
  - inversion E. auto.
  - if_inv E. destruct (IH _ _ E) as [H1 H2]. rewrite setitem_length in H1.
    split; [exact H1|]. intros Hrow. apply H2. apply setitem_Forall; auto.
Qed.

Lemma k_hot_spec : forall E idx r,
  ElderGrace.k_hot E idx = Ok r ->
  length r = E /\ Forall (fun z => z = 0 \/ z = 1)%Z r.
Proof.
  intros E idx r H. unfold ElderGrace.k_hot in H.
  destruct (scatter_ones_spec _ _ _ H) as [H1 H2]. rewrite repeat_length in H1.
  split; [exact H1|]. apply H2. apply Forall_forall. intros z Hz.
  apply repeat_spec in Hz. auto.
Qed.

Lemma cat1_fold_spec : forall (E n : nat) ms m w,
  length m = n ->
  Forall (fun r => length r = w /\ Forall (fun z => z = 0 \/ z = 1)%Z r) m ->
  Forall (fun m' => length m' = n /\
                    Forall (fun r => length r = E /\
                                     Forall (fun z => z = 0 \/ z = 1)%Z r) m') ms ->
  let code := fold_left (fun acc m' => map (fun p => fst p ++ snd p) (combine acc m'))
                        ms m in
  length code = n /\
  Forall (fun r => length r = (w + length ms * E)%nat /\
                   Forall (fun z => z = 0 \/ z = 1)%Z r) code.
Proof.
  intros E n ms. induction ms as [|m' ms IH]; intros m w Hn Hm Hms; simpl.
  - split; [exact Hn|]. rewrite Nat.add_0_r. exact Hm.
  - inversion Hms as [|? ? [Hn' Hm'] Hrest]; subst.
    replace (w + (E + length ms * E))%nat with ((w + E) + length ms * E)%nat by lia.
    apply IH.
    + rewrite length_map, length_combine. lia.
    + rewrite Forall_map. apply Forall_forall. intros [a b] Hin. simpl.
      rewrite Forall_forall in Hm, Hm'.
      destruct (Hm a (in_combine_l _ _ _ _ Hin)) as [Ha1 Ha2].
      destruct (Hm' b (in_combine_r _ _ _ _ Hin)) as [Hb1 Hb2].
      split; [rewrite length_app; lia | apply Forall_app; split; assumption].
    + exact Hrest.
Qed.

(** X20: the code that [get_bin_code] stores has one row per query, and
    every row has [num_experts] entries per gate, each of them 0 or 1;
    nothing else in the layer changes.  A layer without gates has no
    code: the call raises. *)
Theorem X20_code_shape :
  forall topk l bq,
    (ElderGrace.gate_linear_layers l = [] ->
     ElderGrace.get_bin_code topk l bq = Raise RuntimeError) /\
    (forall l',
       ElderGrace.get_bin_code topk l bq = Ok l' ->
       exists code,
         l' = ElderGrace.with_binary_code l code /\
         length code = length bq /\
         Forall (fun r =>
                   length r = (length (ElderGrace.gate_linear_layers l)
                               * ElderGrace.num_experts l)%nat /\
                   Forall (fun z => z = 0 \/ z = 1)%Z r) code).
Proof.
  intros topk l bq. split.
  { intros Hg. unfold ElderGrace.get_bin_code. rewrite Hg. reflexivity. }
  intros l' E. unfold ElderGrace.get_bin_code in E.
  bind_inv_as E outs. bind_inv_as E code. inversion E; subst l'; clear E.
  exists code. split; [reflexivity|].
  assert (Houts : Forall (fun m' => length m' = length bq /\
                    Forall (fun r => length r = ElderGrace.num_experts l /\
                                     Forall (fun z => z = 0 \/ z = 1)%Z r) m') outs).
  { apply (mapM_Forall _ _ _ _ _ _ E0). intros lin out _ Hout.
    unfold ElderGrace.k_hot_output in Hout.
    bind_inv_as Hout gate. bind_inv_as Hout idx.
    split.
    - rewrite (mapM_length _ _ _ _ _ Hout), (mapM_length _ _ _ _ _ E2).
      eapply F_linear2_length; eauto.
    - apply (mapM_Forall _ _ _ _ _ _ Hout). intros i r _ Hr.
      apply k_hot_spec in Hr. exact Hr. }
  rewrite <- (mapM_length _ _ _ _ _ E0).
  unfold ElderGrace.cat1 in E1. destruct outs as [|m ms]; [discriminate|].
  inversion E1; subst code; clear E1.
  inversion Houts as [|? ? [Hn Hm] Hrest]; subst.
  destruct (cat1_fold_spec (ElderGrace.num_experts l) (length bq) ms m
              (ElderGrace.num_experts l) Hn Hm Hrest) as [H1 H2].
  split; [exact H1|].
  simpl length. simpl Nat.mul. exact H2.
Qed.

(** Two gates of two experts each over one query. *)
Lemma X20_code_shape_witness :
  let topk := fun (k : nat) (row : vec) => (firstn k row, seq 0 k) in
  let l := ElderGrace.mk [[1]] None false false (ElderGrace.KeyInt (-1))
                         [([[1]; [2]], None); ([[2]; [1]], None)] 1 2 None
                         None None None in
  exists code,
    ElderGrace.get_bin_code topk l [[3]] = Ok (ElderGrace.with_binary_code l code) /\
    length code = 1%nat /\
    Forall (fun r => length r = 4%nat /\ Forall (fun z => z = 0 \/ z = 1)%Z r) code.
Proof.
  intros topk l.
  destruct (proj2 (X20_code_shape topk l [[3]]) _ eq_refl)
    as [code [Hl [Hlen Hrows]]].
  exists code. split; [|split; [exact Hlen | exact Hrows]].
  apply with_binary_code_inj in Hl. subst code. reflexivity.
Defined.

(** ** Which parameters stay trainable *)

Lemma freeze_spec : forall p,
  Trainable.name (Trainable.freeze p) = Trainable.name p /\
  Trainable.requires_grad (Trainable.freeze p)
  = Trainable.requires_grad p
    && (Trainable.contains "lora_" (Trainable.name p)
        || Trainable.contains "gate" (Trainable.name p))
    && negb (Trainable.contains "gate_proj" (Trainable.name p)).
Proof.
  intros [n g]. unfold Trainable.freeze. simpl.
  destruct (Trainable.contains "lora_" n), (Trainable.contains "gate" n);
    simpl; destruct (Trainable.contains "gate_proj" n); simpl;
    split; try reflexivity; destruct g; reflexivity.
Qed.

Lemma enable_spec : forall ps i j p',
  nth_error (Trainable.enable ps i) j = Some p' ->
  exists p, nth_error ps j = Some p /\
            Trainable.name p' = Trainable.name p /\
            (i = j -> Trainable.requires_grad p' = true) /\
            (i <> j -> p' = p) /\
            (Trainable.requires_grad p = true -> Trainable.requires_grad p' = true).
Proof.
  intros ps i j p' E. unfold Trainable.enable in E.
  destruct (nth_error ps i) as [q|] eqn:Eq.
  - apply setitem_nth_inv in E. destruct E as [[-> ->]|[Hne E]].
    + exists q. repeat split; auto; intros; congruence.
    + exists p'. repeat split; auto; intros; congruence.
  - exists p'. repeat split; auto; intros; congruence.
Qed.

Lemma enable_length : forall ps i, length (Trainable.enable ps i) = length ps.
Proof.
  intros ps i. unfold Trainable.enable.
  destruct (nth_error ps i); [apply setitem_length | reflexivity].
Qed.

Lemma enable_fold_spec : forall mods ps j p',
  nth_error
    (fold_left (fun ps md =>
                  if Trainable.is_LoraLayer md
                  then match Trainable.bias md with
                       | Some i => Trainable.enable ps i
                       | None => ps
                       end
                  else ps) mods ps) j = Some p' ->
  exists p, nth_error ps j = Some p /\
            Trainable.name p' = Trainable.name p /\
            (Trainable.requires_grad p = true -> Trainable.requires_grad p' = true) /\
            ((exists md, In md mods /\ Trainable.is_LoraLayer md = true
                         /\ Trainable.bias md = Some j) ->
             Trainable.requires_grad p' = true) /\
            (Trainable.requires_grad p' = true ->
             Trainable.requires_grad p = true \/
             exists md, In md mods /\ Trainable.is_LoraLayer md = true
                        /\ Trainable.bias md = Some j).
Proof.
  intros mods. induction mods as [|md mods IH]; intros ps j p' E; simpl in E.
  - exists p'. repeat split; auto. intros [md [[] _]].
  - destruct (IH _ _ _ E) as [q [Hq [Hn [Hmono [Hen Hwhy]]]]].
    destruct (Trainable.is_LoraLayer md) eqn:Hl;
      [destruct (Trainable.bias md) as [i|] eqn:Hb|].
    + destruct (enable_spec _ _ _ _ Hq) as [p [Hp [Hn' [Hi [Hne Hmono']]]]].
      exists p. split; [exact Hp|]. split; [congruence|].
      split; [auto|]. split.
      * intros [md' [[<-|Hin] [Hl' Hb']]].
        -- apply Hmono. apply Hi. congruence.
        -- apply Hen. exists md'. auto.
      * intros Hg. destruct (Hwhy Hg) as [Hq'|[md' [Hin Hmd']]].
        -- destruct (Nat.eq_dec i j) as [->|Hij].
           ++ right. exists md. split; [left; reflexivity | auto].
           ++ left. rewrite <- (Hne Hij). exact Hq'.
        -- right. exists md'. split; [right; exact Hin | exact Hmd'].
    + exists q. split; [exact Hq|]. split; [exact Hn|]. split; [exact Hmono|].
      split.
      * intros [md' [[<-|Hin] [Hl' Hb']]]; [congruence|].
        apply Hen. exists md'. auto.
      * intros Hg. destruct (Hwhy Hg) as [Hq'|[md' [Hin Hmd']]]; [left; auto|].
        right. exists md'. split; [right; exact Hin | exact Hmd'].
    + exists q. split; [exact Hq|]. split; [exact Hn|]. split; [exact Hmono|].
      split.
      * intros [md' [[<-|Hin] [Hl' Hb']]]; [congruence|].
        apply Hen. exists md'. auto.
      * intros Hg. destruct (Hwhy Hg) as [Hq'|[md' [Hin Hmd']]]; [left; auto|].
        right. exists md'. split; [right; exact Hin | exact Hmd'].
Qed.

Lemma enable_fold_length : forall mods ps,
  length (fold_left (fun ps md =>
                       if Trainable.is_LoraLayer md
                       then match Trainable.bias md with
                            | Some i => Trainable.enable ps i
                            | None => ps
                            end
                       else ps) mods ps) = length ps.
Proof.
  intros mods. induction mods as [|md mods IH]; intros ps; simpl; [reflexivity|].
  rewrite IH. destruct (Trainable.is_LoraLayer md); [|reflexivity].
  destruct (Trainable.bias md); [apply enable_length | reflexivity].
Qed.

(** X21: [mark_only_lora_as_trainable] keeps the parameters, their names
    and their order.  It raises exactly for a bias mode other than
    ["none"], ["all"] and ["lora_only"], and then only after the
    freezing loop has run: the model is left as under ["none"].  A
    parameter is trainable afterwards only if (a) it was trainable, its
    name contains ["lora_"] or ["gate"], and does not contain
    ["gate_proj"], or (b) the mode is ["all"] and its name contains
    ["bias"], or (c) the mode is ["lora_only"] and it is the bias of a
    [LoraLayer]; each of the three is also sufficient. *)
Theorem X21_trainable_parameters :
  forall m mode i p,
    nth_error (Trainable.named_parameters m) i = Some p ->
    let m' := fst (Trainable.mark_only_lora_as_trainable m mode) in
    let raised := snd (Trainable.mark_only_lora_as_trainable m mode) in
    let kept :=
      Trainable.requires_grad p
      && (Trainable.contains "lora_" (Trainable.name p)
          || Trainable.contains "gate" (Trainable.name p))
      && negb (Trainable.contains "gate_proj" (Trainable.name p)) in
    let lora_bias :=
      exists md, In md (Trainable.modules m) /\ Trainable.is_LoraLayer md = true
                 /\ Trainable.bias md = Some i in
    length (Trainable.named_parameters m') = length (Trainable.named_parameters m) /\
    Trainable.modules m' = Trainable.modules m /\
    (raised = None <->
     mode = "none"%string \/ mode = "all"%string \/ mode = "lora_only"%string) /\
    (raised <> None ->
     raised = Some NotImplementedError /\
     m' = fst (Trainable.mark_only_lora_as_trainable m "none")) /\
    exists p',
      nth_error (Trainable.named_parameters m') i = Some p' /\
      Trainable.name p' = Trainable.name p /\
      (Trainable.requires_grad p' = true <->
       kept = true \/
       (mode = "all"%string /\ Trainable.contains "bias" (Trainable.name p) = true) \/
       (mode = "lora_only"%string /\ lora_bias)).
Proof.
  intros m mode i p Hp m' raised kept lora_bias.
  subst m' raised. unfold Trainable.mark_only_lora_as_trainable.
  destruct (freeze_spec p) as [Hn Hg]. fold kept in Hg.
  assert (Hf : nth_error (map Trainable.freeze (Trainable.named_parameters m)) i
               = Some (Trainable.freeze p))
    by (rewrite nth_error_map, Hp; reflexivity).
  destruct (String.eqb mode "none") eqn:E1.
  { apply String.eqb_eq in E1. subst mode. simpl.
    split; [apply length_map|]. split; [reflexivity|].
    split; [split; auto|]. split; [congruence|].
    exists (Trainable.freeze p). split; [exact Hf|]. split; [exact Hn|].
    rewrite Hg. split; [auto|].
    intros [H|[[H _]|[H _]]]; [exact H | discriminate H | discriminate H]. }
  destruct (String.eqb mode "all") eqn:E2.
  { apply String.eqb_eq in E2. subst mode. simpl.
    split; [now rewrite !length_map|]. split; [reflexivity|].
    split; [split; auto|]. split; [congruence|].
    eexists. split; [rewrite nth_error_map, Hf; reflexivity|].
    rewrite Hn.
    destruct (Trainable.contains "bias" (Trainable.name p)) eqn:Hb; simpl.
    - split; [exact Hn|]. split; [intros _; right; left; auto | reflexivity].
    - split; [exact Hn|]. rewrite Hg. split; [auto|].
      intros [H|[[_ H]|[H _]]]; [exact H | discriminate H | discriminate H]. }
  destruct (String.eqb mode "lora_only") eqn:E3.
  { apply String.eqb_eq in E3. subst mode. simpl.
    split; [rewrite enable_fold_length; apply length_map|].
    split; [reflexivity|]. split; [split; auto|]. split; [congruence|].
    match goal with
    | |- exists p', nth_error ?l i = Some p' /\ _ =>
        destruct (nth_error l i) as [p'|] eqn:Ep
    end.
    - destruct (enable_fold_spec _ _ _ _ Ep) as [q [Hq [Hn' [Hmono [Hen Hwhy]]]]].
      rewrite Hf in Hq. inversion Hq; subst q.
      exists p'. split; [reflexivity|]. split; [congruence|].
      rewrite Hg in Hmono, Hwhy. split.
      + intros H. destruct (Hwhy H) as [Hk|Hmd]; [left; exact Hk|].
        right. right. split; [reflexivity | exact Hmd].
      + intros [H|[[H _]|[_ H]]]; [auto | discriminate H | auto].
    - exfalso. apply nth_error_None in Ep.
      rewrite enable_fold_length, length_map in Ep.
      apply nth_error_lt in Hp. lia. }
  simpl. split; [apply length_map|]. split; [reflexivity|].
  apply String.eqb_neq in E1, E2, E3.
  split; [split; [discriminate | intros [H|[H|H]]; congruence]|].
  split; [intros _; split; reflexivity|].
  exists (Trainable.freeze p). split; [exact Hf|]. split; [exact Hn|].
  rewrite Hg. split; [auto|].
  intros [H|[[H _]|[H _]]]; [exact H | congruence | congruence].
Qed.

(** The adapter of a [gate_proj] projection is frozen, the adapter of a
    [q_proj] is not. *)
Lemma X21_trainable_parameters_witness :
  let m := Trainable.mk_model
             [Trainable.mk_param "mlp.gate_proj.lora_A.default" true;
              Trainable.mk_param "attn.q_proj.lora_A.default" true] [] in
  exists p',
    nth_error (Trainable.named_parameters
                 (fst (Trainable.mark_only_lora_as_trainable m "none"))) 0
    = Some p' /\
    Trainable.requires_grad p' = false.
Proof.
  intros m.
  destruct (X21_trainable_parameters m "none" 0%nat
              (Trainable.mk_param "mlp.gate_proj.lora_A.default" true) eq_refl)
    as [_ [_ [_ [_ [p' [Hp [_ _]]]]]]].
  exists p'. split; [exact Hp|].
  simpl in Hp. inversion Hp. reflexivity.
Defined.

(** ** [ElderLinear.forward]: the deferred output *)

Lemma F_linear_length : forall W b x y,
  F_linear W b x = Ok y -> length y = length x.
Proof. intros W b x y E. unfold F_linear in E. eapply mapM_length; eauto. Qed.

Lemma add3_length : forall a b s,
  ElderLinear.add3 a b = Ok s -> length s = length a /\ length b = length a.
Proof.
  intros a b s E. unfold ElderLinear.add3, ElderLinear.same_shape3 in E.
  if_inv E. apply andb_true_iff in Eb. destruct Eb as [El _].
  apply Nat.eqb_eq in El. inversion E; subst s.
  rewrite length_map, length_combine. lia.
Qed.

Lemma where3_spec : forall flag a b out,
  ElderLinear.where3 flag a b = Ok out ->
  length flag = length a -> length a = length b ->
  length out = length a /\
  forall i c, nth_error flag i = Some c ->
              nth_error out i = if c : bool then nth_error a i else nth_error b i.
Proof.
  intros flag a b out E Hf Hab.
  assert (Eout : out = map (fun p : bool * (matrix * matrix) =>
                              if fst p then fst (snd p) else snd (snd p))
                           (combine flag (combine a b))).
  { unfold ElderLinear.where3 in E. destruct flag as [|c flag]; [discriminate|].
    rewrite (proj2 (Nat.eqb_eq _ _) Hf) in E. inversion E. reflexivity. }
  subst out. clear E. split.
  - rewrite length_map, !length_combine. lia.
  - revert a b Hf Hab.
    induction flag as [|c0 flag IH]; intros [|x a] [|y b] Hf Hab [|i] c Hi;
      simpl in *; try discriminate.
    + inversion Hi; subst c. destruct c0; reflexivity.
    + apply IH; auto.
Qed.

Section Deferred.

Variable transpose : matrix -> bool -> matrix.
Variable topk : nat -> vec -> vec * list nat.
Variable nn_dropout : R -> list matrix -> list matrix.

Lemma elder_forward_inv : forall l G x l' out,
  ElderLinear.forward transpose topk nn_dropout l G x = Returns (l', out) ->
  ElderLinear.disable_adapters l = false ->
  exists base bq g lora flag sum,
    F_linear (transpose (ElderLinear.weight l) (ElderLinear.fan_in_fan_out l))
             (ElderLinear.bias l) x = Ok base /\
    SEQ_REPR G = Some bq /\
    ElderLinear.lora_result topk nn_dropout l bq x = Ok (g, lora) /\
    IN_EDIT_SCOPE G = Some flag /\
    ElderLinear.add3 base lora = Ok sum /\
    ElderLinear.where3 flag sum base = Ok out /\
    l' = ElderLinear.with_gate l g (Some (Gate.loss g)).
Proof.
  intros l G x l' out E Hd. unfold ElderLinear.forward in E.
  obind_inv_as E base. apply lift_Returns in E0. rewrite Hd in E.
  destruct (SEQ_REPR G) as [bq|] eqn:Hs; simpl in E; [|discriminate].
  destruct (ElderLinear.lora_result topk nn_dropout l bq x) as [[g lora]|] eqn:El;
    simpl in E; [|discriminate].
  destruct (IN_EDIT_SCOPE G) as [flag|] eqn:Hf; simpl in E; [|discriminate].
  destruct (ElderLinear.add3 base lora) as [sum|] eqn:Ea; simpl in E; [|discriminate].
  destruct (ElderLinear.where3 flag sum base) as [rt|] eqn:Ew; simpl in E;
    [|discriminate].
  inversion E; subst.
  exists base, bq, g, lora, flag, sum. repeat split; auto.
Qed.

Lemma elder_deferral : forall l G x l' out flag,
  ElderLinear.forward transpose topk nn_dropout l G x = Returns (l', out) ->
  ElderLinear.disable_adapters l = false ->
  IN_EDIT_SCOPE G = Some flag ->
  length flag = length x ->
  exists base,
    F_linear (transpose (ElderLinear.weight l) (ElderLinear.fan_in_fan_out l))
             (ElderLinear.bias l) x = Ok base /\
    length out = length x /\
    forall b, nth_error flag b = Some false -> nth_error out b = nth_error base b.
Proof.
  intros l G x l' out flag E Hd Hflag Hlen.
  destruct (elder_forward_inv _ _ _ _ _ E Hd)
    as [base [bq [g [lora [flag' [sum [Hb [Hs [Hl [Hf [Ha [Hw Hl']]]]]]]]]]]].
  rewrite Hflag in Hf. inversion Hf; subst flag'.
  exists base. split; [exact Hb|].
  destruct (add3_length _ _ _ Ha) as [Hsum _].
  pose proof (F_linear_length _ _ _ _ Hb) as Hbase.
  destruct (where3_spec _ _ _ _ Hw ltac:(lia) ltac:(lia)) as [Hout Hnth].
  split; [lia|]. intros b Hfb. rewrite (Hnth b false Hfb). reflexivity.
Qed.

(** X22: the deferral of [ElderLinear.forward].  With one flag per
    element of the batch, an element whose flag is false leaves the layer
    with the base output, whatever the gate and the experts compute; if
    no flag is set the whole output is the base output.  The pass changes
    nothing in the layer but the gate and the copy of its loss.  The
    module-level variables must have been bound: a first pass of an
    enabled layer before any [ElderGraceLinear.forward] raises
    [NameError], while a disabled layer does not read them. *)
Theorem X22_out_of_scope_gets_base_output :
  forall l G x,
    (forall l' out flag,
       ElderLinear.forward transpose topk nn_dropout l G x = Returns (l', out) ->
       ElderLinear.disable_adapters l = false ->
       IN_EDIT_SCOPE G = Some flag ->
       length flag = length x ->
       exists base,
         F_linear (transpose (ElderLinear.weight l) (ElderLinear.fan_in_fan_out l))
                  (ElderLinear.bias l) x = Ok base /\
         length out = length x /\
         (forall b, nth_error flag b = Some false ->
                    nth_error out b = nth_error base b) /\
         (Forall (fun c => c = false) flag -> out = base) /\
         exists g, l' = ElderLinear.with_gate l g (Some (Gate.loss g))) /\
    (forall base,
       F_linear (transpose (ElderLinear.weight l) (ElderLinear.fan_in_fan_out l))
                (ElderLinear.bias l) x = Ok base ->
       (ElderLinear.disable_adapters l = true ->
        ElderLinear.forward transpose topk nn_dropout l G x = Returns (l, base)) /\
       (ElderLinear.disable_adapters l = false ->
        SEQ_REPR G = None ->
        ElderLinear.forward transpose topk nn_dropout l G x = Raises NameError)).
Proof.
  intros l G x. split.
  - intros l' out flag E Hd Hflag Hlen.
    destruct (elder_deferral _ _ _ _ _ _ E Hd Hflag Hlen) as [base [Hb [Hout Hnth]]].
    exists base. split; [exact Hb|]. split; [exact Hout|]. split; [exact Hnth|].
    split.
    + intros Hall. apply nth_error_ext. intros n.
      destruct (nth_error flag n) as [c|] eqn:Hn.
      * rewrite Forall_forall in Hall.
        rewrite (Hall c (nth_error_In _ _ Hn)) in Hn. apply Hnth. exact Hn.
      * apply nth_error_None in Hn.
        pose proof (F_linear_length _ _ _ _ Hb) as Hbase.
        rewrite (proj2 (nth_error_None out n)) by lia.
        rewrite (proj2 (nth_error_None base n)) by lia. reflexivity.
    + destruct (elder_forward_inv _ _ _ _ _ E Hd)
        as [_ [_ [g [_ [_ [_ [_ [_ [_ [_ [_ [_ Hl']]]]]]]]]]]].
      exists g. exact Hl'.
  - intros base Hb. unfold ElderLinear.forward. rewrite Hb. simpl. split.
    + intros ->. reflexivity.
    + intros -> ->. reflexivity.
Qed.

End Deferred.

(** A two-expert layer on a batch of one element that is out of scope. *)
Lemma X22_out_of_scope_gets_base_output_witness :
  let transpose := fun (w : matrix) (_ : bool) => w in
  let topk := fun (k : nat) (row : vec) => (firstn k row, seq 0 k) in
  let nn_dropout := fun (_ : R) (x : list matrix) => x in
  let e := ElderLoraLayer.mk 1 1 [("a"%string, 1%nat)] [("a"%string, 1)]
                             [("a"%string, 1)]
                             [("a"%string, ElderLoraLayer.Identity)]
                             [("a"%string, [[3]])] [("a"%string, [[5]])] in
  let l := ElderLinear.mk [[2]] None false false "a" 2
                          (Gate.mk 2 None [[1]; [2]] None 1 false None None false)
                          [e; e] None in
  let G := mk_globals (Some [[3]]) (Some [false]) [] in
  exists l' out,
    ElderLinear.forward transpose topk nn_dropout l G [[[3]]] = Returns (l', out) /\
    exists base,
      F_linear (transpose (ElderLinear.weight l) (ElderLinear.fan_in_fan_out l))
               (ElderLinear.bias l) [[[3]]] = Ok base /\
      length out = length [[[3]]] /\
      (forall b, nth_error [false] b = Some false ->
                 nth_error out b = nth_error base b) /\
      (Forall (fun c => c = false) [false] -> out = base) /\
      exists g, l' = ElderLinear.with_gate l g (Some (Gate.loss g)).
Proof.
  intros transpose topk nn_dropout e l G. do 2 eexists. split; [reflexivity|].
  eapply (proj1 (X22_out_of_scope_gets_base_output transpose topk nn_dropout l G
                   [[[3]]]));
    reflexivity.
Defined.

(** ** From the codes to the output *)

Lemma mapM_In_inv : forall (A B : Type) (f : A -> result B) l l' b,
  mapM f l = Ok l' -> In b l' -> exists a, In a l /\ f a = Ok b.
Proof.
  intros A B f l. induction l as [|x l IH]; intros l' b E Hin; simpl in E.
  - inversion E; subst. contradiction.
  - bind_inv_as E y. bind_inv_as E ys. inversion E; subst l'.
    destruct Hin as [<-|Hin].
    + exists x. split; [left; reflexivity | assumption].
    + destruct (IH ys b eq_refl Hin) as [a [Ha Hf]].
      exists a. split; [right; assumption | assumption].
Qed.

Lemma discriminate_far : forall l G th flag code,
  ElderGrace.discriminate l G th = Ok flag ->
  ElderGrace.binary_code l = Some code ->
  length flag = length code /\
  forall b c,
    nth_error code b = Some c ->
    (forall d dist, In d (concat (BINARY_CODE G)) ->
                    ElderGrace.hamming c d = Ok dist -> th <= IZR dist) ->
    nth_error flag b = Some false.
Proof.
  intros l G th flag code E Hc. unfold ElderGrace.discriminate in E.
  bind_inv_as E dataset. rewrite Hc in E. simpl in E. bind_inv_as E dm.
  inversion E; subst flag; clear E.
  destruct (cat0_inv _ _ E0) as [Hds _].
  split; [rewrite length_map; eapply mapM_length; eauto|].
  intros b c Hb Hfar.
  destruct (mapM_nth _ _ _ _ _ _ _ E1 Hb) as [m [Hm Hnth]].
  bind_inv_as Hm hs.
  destruct (min_row_spec _ _ Hm) as [Hin _].
  destruct (mapM_In_inv _ _ _ _ _ _ E Hin) as [d [Hd Hh]].
  rewrite Hds in Hd. specialize (Hfar d m Hd Hh).
  rewrite nth_error_map, Hnth. simpl.
  destruct (Rlt_dec (IZR m) th); [exfalso; lra | reflexivity].
Qed.

Section EndToEnd.

Variable transpose : matrix -> bool -> matrix.
Variable topk : nat -> vec -> vec * list nat.
Variable nn_dropout : R -> list matrix -> list matrix.

Lemma grace_forward_inference : forall l G x l' G' o th,
  ElderGrace.forward transpose topk l G x = Returns (l', G', o) ->
  ElderGrace.disable_grace l = false ->
  ElderGrace.editing l = Some false ->
  ElderGrace.threshold l = Some th ->
  exists code flag,
    ElderGrace.binary_code l' = Some code /\
    IN_EDIT_SCOPE G' = Some flag /\
    ElderGrace.discriminate l' G' th = Ok flag.
Proof.
  intros l G x l' G' o th E Hd He Ht. unfold ElderGrace.forward in E.
  obind_inv_as E layer_out. rewrite Hd in E. obind_inv_as E bq.
  assert (Hsecond : forall la Ga,
            ElderGrace.editing la = Some false ->
            ElderGrace.threshold la = Some th ->
            ('(lb, Gb) <~
               (match ElderGrace.editing la with
                | Some false =>
                    lb <~ lift (ElderGrace.get_bin_code topk la bq) ;;
                    th <~ match ElderGrace.threshold lb with
                          | Some th => Returns th
                          | None => Raises (Std AttributeError)
                          end ;;
                    flag <~ lift (ElderGrace.discriminate lb Ga th) ;;
                    Returns (lb, mk_globals (SEQ_REPR Ga) (Some flag) (BINARY_CODE Ga))
                | Some true =>
                    Returns (la, mk_globals (SEQ_REPR Ga)
                                            (Some (repeat true (length x)))
                                            (BINARY_CODE Ga))
                | None => Returns (la, Ga)
                end) ;;
             Returns (lb, Gb, layer_out)) = Returns (l', G', o) ->
            exists code flag,
              ElderGrace.binary_code l' = Some code /\
              IN_EDIT_SCOPE G' = Some flag /\
              ElderGrace.discriminate l' G' th = Ok flag).
  { intros la Ga Hea Hta Es. rewrite Hea in Es.
    destruct (ElderGrace.get_bin_code topk la bq) as [lc|] eqn:Eg;
      simpl in Es; [|discriminate].
    destruct (get_bin_code_inv _ _ _ _ Eg) as [c [-> _]]. simpl in Es.
    rewrite Hta in Es. simpl in Es.
    destruct (ElderGrace.discriminate (ElderGrace.with_binary_code la c) Ga th)
      as [flag|] eqn:Ed; simpl in Es; [|discriminate].
    inversion Es; subst. exists c, flag.
    split; [reflexivity|]. split; [reflexivity|]. exact Ed. }
  destruct (ElderGrace.is_last_iter l) as [[|]|] eqn:Hlast.
  - destruct (ElderGrace.get_bin_code topk l bq) as [la|] eqn:Eg;
      simpl in E; [|discriminate].
    destruct (get_bin_code_inv _ _ _ _ Eg) as [c [-> _]].
    apply (Hsecond (ElderGrace.with_binary_code l c)
                   (mk_globals (Some bq) (IN_EDIT_SCOPE G) (BINARY_CODE G ++ [c]))
                   He Ht) in E.
    exact E.
  - apply (Hsecond l (mk_globals (Some bq) (IN_EDIT_SCOPE G) (BINARY_CODE G))
                   He Ht) in E.
    exact E.
  - apply (Hsecond l (mk_globals (Some bq) (IN_EDIT_SCOPE G) (BINARY_CODE G))
                   He Ht) in E.
    exact E.
Qed.

(** X23: the deferral mechanism end to end.  After an inference pass of
    the [ElderGraceLinear] layer over a batch, an [ElderLinear] layer
    that runs on a batch of the same size gives every element whose code
    is at Hamming distance at least the threshold from every recorded
    code the base output: the experts do not touch it. *)
Theorem X23_distant_inputs_are_deferred :
  forall lg G x lg' G' o th le h le' out,
    ElderGrace.forward transpose topk lg G x = Returns (lg', G', o) ->
    ElderGrace.disable_grace lg = false ->
    ElderGrace.editing lg = Some false ->
    ElderGrace.threshold lg = Some th ->
    ElderLinear.forward transpose topk nn_dropout le G' h = Returns (le', out) ->
    ElderLinear.disable_adapters le = false ->
    exists code base,
      ElderGrace.binary_code lg' = Some code /\
      F_linear (transpose (ElderLinear.weight le) (ElderLinear.fan_in_fan_out le))
               (ElderLinear.bias le) h = Ok base /\
      (length h = length code ->
       forall b c,
         nth_error code b = Some c ->
         (forall d dist, In d (concat (BINARY_CODE G')) ->
                         ElderGrace.hamming c d = Ok dist -> th <= IZR dist) ->
         nth_error out b = nth_error base b).
Proof.
  intros lg G x lg' G' o th le h le' out Eg Hdg Hed Hth El Hdl.
  destruct (grace_forward_inference _ _ _ _ _ _ _ Eg Hdg Hed Hth)
    as [code [flag [Hc [Hf Hdisc]]]].
  destruct (discriminate_far _ _ _ _ _ Hdisc Hc) as [Hlen Hfar].
  destruct (elder_forward_inv _ _ _ _ _ _ _ _ El Hdl)
    as [base [bq [g [lora [flag' [sum [Hb [Hs [Hl [Hf' [Ha [Hw Hl']]]]]]]]]]]].
  exists code, base. split; [exact Hc|]. split; [exact Hb|].
  intros Hh b c Hcb Hd.
  destruct (elder_deferral _ _ _ _ _ _ _ _ _ El Hdl Hf ltac:(lia))
    as [base' [Hb' [_ Hnth]]].
  rewrite Hb in Hb'. inversion Hb'; subst base'.
  apply Hnth. apply (Hfar b c Hcb Hd).
Qed.

End EndToEnd.

(** A query with the code [1, 0] against the recorded code [0, 1], at
    distance 2, with the threshold 1. *)
Lemma X23_distant_inputs_are_deferred_witness :
  let transpose := fun (w : matrix) (_ : bool) => w in
  let topk := fun (k : nat) (row : vec) => (firstn k row, seq 0 k) in
  let nn_dropout := fun (_ : R) (x : list matrix) => x in
  let lg := ElderGrace.mk [[1]] None false false (ElderGrace.KeyInt (-1))
                          [([[1]; [2]], None)] 1 2 None
                          None (Some false) (Some 1) in
  let e := ElderLoraLayer.mk 1 1 [("a"%string, 1%nat)] [("a"%string, 1)]
                             [("a"%string, 1)]
                             [("a"%string, ElderLoraLayer.Identity)]
                             [("a"%string, [[3]])] [("a"%string, [[5]])] in
  let le := ElderLinear.mk [[2]] None false false "a" 2
                           (Gate.mk 2 None [[1]; [2]] None 1 false None None false)
                           [e; e] None in
  let G := mk_globals None None [[[0; 1]%Z]] in
  exists lg' G' o le' out,
    ElderGrace.forward transpose topk lg G [[[3]]] = Returns (lg', G', o) /\
    ElderLinear.forward transpose topk nn_dropout le G' [[[3]]]
    = Returns (le', out) /\
    exists code base,
      ElderGrace.binary_code lg' = Some code /\
      F_linear (transpose (ElderLinear.weight le) (ElderLinear.fan_in_fan_out le))
               (ElderLinear.bias le) [[[3]]] = Ok base /\
      (length [[[3]]] = length code ->
       forall b c,
         nth_error code b = Some c ->
         (forall d dist, In d (concat (BINARY_CODE G')) ->
                         ElderGrace.hamming c d = Ok dist -> 1 <= IZR dist) ->
         nth_error out b = nth_error base b).
Proof.
  intros transpose topk nn_dropout lg e le G. do 5 eexists.
  split; [reflexivity|]. split; [reflexivity|].
  eapply (X23_distant_inputs_are_deferred transpose topk nn_dropout lg G [[[3]]]);
    reflexivity.
Defined.

(** ** A freshly constructed [ElderLinear] *)

Lemma all_zero_mscale_zero : forall m, all_zero (mscale m 0).
Proof.
  intros m. unfold all_zero, mscale. rewrite Forall_map.
  apply Forall_forall. intros row _. rewrite Forall_map.
  apply Forall_forall. intros x _. ring.
Qed.

Lemma all_zero_madd : forall a b,
  all_zero a -> all_zero b -> all_zero (ElderLinear.madd a b).
Proof.
  intros a b Ha Hb. unfold all_zero, ElderLinear.madd in *. rewrite Forall_map.
  apply Forall_forall. intros [r1 r2] Hin. simpl.
  rewrite Forall_forall in Ha, Hb.
  pose proof (Ha _ (in_combine_l _ _ _ _ Hin)) as H1.
  pose proof (Hb _ (in_combine_r _ _ _ _ Hin)) as H2.
  unfold vadd. rewrite Forall_map. apply Forall_forall. intros [u v] Huv. simpl.
  rewrite Forall_forall in H1, H2.
  rewrite (H1 _ (in_combine_l _ _ _ _ Huv)), (H2 _ (in_combine_r _ _ _ _ Huv)).
  ring.
Qed.

Lemma fresh_expert : forall in_f out_f name rank alpha dropout ilw A0 e,
  ElderLoraLayer.update_layer (ElderLoraLayer.init in_f out_f) name rank alpha
                              dropout ilw A0 = Ok e ->
  ((0 < rank)%nat ->
   exists B, Linear.lookup (ElderLoraLayer.lora_B e) name = Some B /\ all_zero B) /\
  (rank = 0%nat -> Linear.lookup (ElderLoraLayer.lora_A e) name = None).
Proof.
  intros in_f out_f name rank alpha dropout ilw A0 e E.
  unfold ElderLoraLayer.update_layer in E.
  destruct (Nat.ltb 0 rank) eqn:Hr.
  - split; [|intros ->; discriminate]. intros _.
    destruct ilw.
    + unfold ElderLoraLayer.reset_lora_parameters, Linear.dict_get in E.
      simpl in E. rewrite String.eqb_refl in E. simpl in E.
      inversion E; subst e. simpl. rewrite String.eqb_refl.
      eexists. split; [reflexivity|]. apply all_zero_mscale_zero.
    + inversion E; subst e. simpl. rewrite String.eqb_refl.
      eexists. split; [reflexivity|]. apply all_zero_zeros.
  - apply Nat.ltb_ge in Hr. split; [intros; lia|]. intros _.
    destruct ilw.
    + unfold ElderLoraLayer.reset_lora_parameters in E. simpl in E.
      inversion E; subst e. reflexivity.
    + inversion E; subst e. reflexivity.
Qed.

Section Fresh.

Variable transpose : matrix -> bool -> matrix.
Variable topk : nat -> vec -> vec * list nat.
Variable nn_dropout : R -> list matrix -> list matrix.

Lemma expert_output_zero : forall name x e o B,
  ElderLinear.expert_output nn_dropout name x e = Ok o ->
  Linear.lookup (ElderLoraLayer.lora_B e) name = Some B ->
  all_zero B ->
  Forall all_zero o.
Proof.
  intros name x e o B E HB Hz. unfold ElderLinear.expert_output in E.
  bind_inv_as E d. bind_inv_as E A. bind_inv_as E xa.
  unfold Linear.dict_get at 1 in E. rewrite HB in E. simpl in E.
  bind_inv_as E xab. bind_inv_as E s. inversion E; subst o.
  rewrite Forall_map.
  assert (Hxab : Forall all_zero xab).
  { apply (mapM_Forall _ _ _ _ _ _ E3). intros m y _ Hy.
    eapply matmul_zero_right; eauto. }
  eapply Forall_impl; [|exact Hxab]. intros m Hm. apply all_zero_mscale. exact Hm.
Qed.

Lemma expert_output_needs_A : forall name x e o,
  ElderLinear.expert_output nn_dropout name x e = Ok o ->
  Linear.lookup (ElderLoraLayer.lora_A e) name <> None.
Proof.
  intros name x e o E. unfold ElderLinear.expert_output in E.
  bind_inv_as E d. unfold Linear.dict_get at 1 in E.
  destruct (Linear.lookup (ElderLoraLayer.lora_A e) name); [discriminate|].
  simpl in E. discriminate.
Qed.

Lemma stack1_zero : forall outs st,
  ElderLinear.stack1 outs = Ok st ->
  Forall (Forall all_zero) outs ->
  Forall (Forall all_zero) st.
Proof.
  intros outs st E Hz. unfold ElderLinear.stack1 in E.
  destruct outs as [|o outs']; [discriminate|]. if_inv E. inversion E; subst st.
  rewrite Forall_map. apply Forall_forall. intros b _.
  assert (Hnth : forall o' : list matrix,
            Forall all_zero o' -> all_zero (nth b o' [])).
  { intros o' Ho'. destruct (nth_in_or_default b o' []) as [Hin|Hd].
    - rewrite Forall_forall in Ho'. apply Ho'. exact Hin.
    - rewrite Hd. constructor. }
  inversion Hz as [|? ? Ho Houts]; subst.
  constructor; [apply Hnth; exact Ho|].
  rewrite Forall_map. eapply Forall_impl; [|exact Houts].
  intros o' Ho'. apply Hnth. exact Ho'.
Qed.

Lemma fold_madd_zero : forall terms z,
  all_zero z -> Forall all_zero terms ->
  all_zero (fold_left ElderLinear.madd terms z).
Proof.
  intros terms. induction terms as [|t terms IH]; intros z Hz Ht; simpl; [exact Hz|].
  inversion Ht; subst. apply IH; [apply all_zero_madd; assumption | assumption].
Qed.

Lemma einsum_zero : forall st w lora,
  ElderLinear.einsum st w = Ok lora ->
  Forall (Forall all_zero) st ->
  Forall all_zero lora.
Proof.
  intros st w lora E Hz. unfold ElderLinear.einsum in E.
  apply (mapM_Forall _ _ _ _ _ _ E). intros [mats wr] m Hin Hm. simpl in Hm.
  rewrite Forall_forall in Hz. pose proof (Hz _ (in_combine_l _ _ _ _ Hin)) as Hmats.
  unfold ElderLinear.einsum_row in Hm. bind_inv_as Hm terms.
  inversion Hm; subst m. apply fold_madd_zero; [apply all_zero_mscale_zero|].
  destruct (Nat.eqb (length mats) (length wr)).
  - inversion E0; subst terms. rewrite Forall_map. apply Forall_forall.
    intros [m c] Hmc. simpl. apply all_zero_mscale.
    rewrite Forall_forall in Hmats. apply Hmats. eapply in_combine_l; eauto.
  - assert (Hgen : forall c, Forall all_zero (map (fun m => mscale m c) mats)).
    { intros c. rewrite Forall_map. eapply Forall_impl; [|exact Hmats].
      intros m Hm'. apply all_zero_mscale. exact Hm'. }
    destruct mats as [|m0 [|m1 mats]].
    + destruct wr as [|c [|c' wr]]; try discriminate.
      inversion E0; subst terms. constructor.
    + inversion E0; subst terms. rewrite Forall_map. apply Forall_forall.
      intros c _. apply all_zero_mscale. inversion Hmats; assumption.
    + destruct wr as [|c [|c' wr]]; try discriminate.
      inversion E0; subst terms. exact (Hgen c).
Qed.

Lemma add3_zero : forall a z s,
  ElderLinear.add3 a z = Ok s -> Forall all_zero z -> s = a.
Proof.
  intros a z s E Hz. unfold ElderLinear.add3, ElderLinear.same_shape3 in E.
  if_inv E. apply andb_true_iff in Eb. destruct Eb as [El Ef].
  apply Nat.eqb_eq in El. inversion E; subst s; clear E.
  revert z El Ef Hz. induction a as [|x a IH]; intros [|y z] El Ef Hz;
    simpl in *; try discriminate; [reflexivity|].
  apply andb_true_iff in Ef. destruct Ef as [Hxy Ef]. inversion Hz; subst.
  f_equal.
  - apply (iadd2_zero x y); [|assumption].
    unfold iadd2. rewrite Hxy. reflexivity.
  - apply IH; auto.
Qed.

Lemma where3_same : forall flag a out,
  ElderLinear.where3 flag a a = Ok out -> length flag = length a -> out = a.
Proof.
  intros flag a out E Hl.
  destruct (where3_spec _ _ _ _ E Hl eq_refl) as [Hout Hnth].
  apply nth_error_ext. intros n.
  destruct (nth_error flag n) as [c|] eqn:Hn.
  - rewrite (Hnth n c Hn). destruct c; reflexivity.
  - apply nth_error_None in Hn.
    rewrite (proj2 (nth_error_None out n)) by lia.
    rewrite (proj2 (nth_error_None a n)) by lia. reflexivity.
Qed.

(** X24: an [ElderLinear] layer as its constructor leaves it.  Its
    forward pass returns only if the rank is positive and there is at
    least one expert (the default rank 0 leaves the experts without
    factors); and then, with one flag per element of the batch, the
    output is the base output whatever the flags are, because every
    [lora_B] starts at zero. *)
Theorem X24_fresh_layer_is_identity :
  forall name in_f out_f rank alpha dropout fifo n k ilw W b Wg bg A0 l
         G x l' out,
    ElderLinear.init name in_f out_f rank alpha dropout fifo n k ilw W b Wg bg A0
    = Ok l ->
    ElderLinear.forward transpose topk nn_dropout l G x = Returns (l', out) ->
    (0 < rank)%nat /\ (0 < n)%nat /\
    (forall flag, IN_EDIT_SCOPE G = Some flag -> length flag = length x ->
                  F_linear (transpose W fifo) b x = Ok out).
Proof.
  intros name in_f out_f rank alpha dropout fifo n k ilw W b Wg bg A0 l
         G x l' out Ei E.
  unfold ElderLinear.init in Ei. bind_inv_as Ei es.
  inversion Ei; subst l; clear Ei.
  destruct (elder_forward_inv _ _ _ _ _ _ _ _ E eq_refl)
    as [base [bq [g [lora [flag' [sum [Hb [Hs [Hl [Hf' [Ha [Hw Hl']]]]]]]]]]]].
  simpl in Hb.
  unfold ElderLinear.lora_result in Hl. simpl in Hl.
  bind_inv_as Hl r. destruct r as [[[idx score] sc] g0].
  bind_inv_as Hl fgw. bind_inv_as Hl outs. bind_inv_as Hl st.
  bind_inv_as Hl lora0. inversion Hl; subst g0 lora0; clear Hl.
  assert (Hn : (0 < n)%nat).
  { destruct n as [|n]; [|lia]. simpl in E0. inversion E0; subst es.
    simpl in E3. inversion E3; subst outs. discriminate. }
  assert (Hr : (0 < rank)%nat).
  { destruct rank as [|rank]; [|lia]. exfalso.
    destruct n as [|n]; [lia|]. simpl in E0.
    bind_inv_as E0 e0. bind_inv_as E0 es'. inversion E0; subst es.
    simpl in E3. bind_inv_as E3 o0.
    match goal with
    | Hu : ElderLoraLayer.update_layer _ _ _ _ _ _ _ = Ok e0,
      Ho : ElderLinear.expert_output _ _ _ e0 = Ok _ |- _ =>
        apply (expert_output_needs_A _ _ _ _ Ho);
        apply (proj2 (fresh_expert _ _ _ _ _ _ _ _ _ Hu)); reflexivity
    end. }
  split; [exact Hr|]. split; [exact Hn|].
  intros flag Hflag Hlen. rewrite Hflag in Hf'. inversion Hf'; subst flag'.
  assert (Hes : Forall (fun e => exists B,
                          Linear.lookup (ElderLoraLayer.lora_B e) name = Some B
                          /\ all_zero B) es).
  { apply (mapM_Forall _ _ _ _ _ _ E0). intros j e _ He.
    apply (proj1 (fresh_expert _ _ _ _ _ _ _ _ _ He)). exact Hr. }
  assert (Houts : Forall (Forall all_zero) outs).
  { apply (mapM_Forall _ _ _ _ _ _ E3). intros e o He Ho.
    rewrite Forall_forall in Hes. destruct (Hes e He) as [B [HB Hz]].
    eapply expert_output_zero; eauto. }
  pose proof (stack1_zero _ _ E4 Houts) as Hst.
  pose proof (einsum_zero _ _ _ E5 Hst) as Hlora.
  pose proof (add3_zero _ _ _ Ha Hlora) as Hsum. subst sum.
  pose proof (F_linear_length _ _ _ _ Hb) as Hbase.
  rewrite (where3_same _ _ _ Hw ltac:(lia)). exact Hb.
Qed.

End Fresh.

(** A fresh two-expert layer of rank 1 on an element that is in scope. *)
Lemma X24_fresh_layer_is_identity_witness :
  let transpose := fun (w : matrix) (_ : bool) => w in
  let topk := fun (k : nat) (row : vec) => (firstn k row, seq 0 k) in
  let nn_dropout := fun (_ : R) (x : list matrix) => x in
  let G := mk_globals (Some [[3]]) (Some [true]) [] in
  exists l l' out,
    ElderLinear.init "a" 1 1 1 1 0 false 2 1 true [[2]] None [[1]; [2]] None
                     (fun _ => [[3]]) = Ok l /\
    ElderLinear.forward transpose topk nn_dropout l G [[[3]]] = Returns (l', out) /\
    F_linear (transpose [[2]] false) None [[[3]]] = Ok out.
Proof.
  intros transpose topk nn_dropout G. do 3 eexists.
  match goal with |- ?A /\ _ => assert (Ei : A) end.
  { unfold ElderLinear.init, ElderLoraLayer.update_layer. simpl.
    destruct (Rgt_dec 0 0) as [H|H]; [exfalso; lra|]. reflexivity. }
  split; [exact Ei|]. split; [reflexivity|].
  refine (proj2 (proj2 (X24_fresh_layer_is_identity transpose topk nn_dropout
                          "a"%string 1%nat 1%nat 1%nat 1 0 false 2%nat 1%nat true
                          [[2]] None [[1]; [2]] None (fun _ => [[3]])
                          _ G [[[3]]] _ _ Ei eq_refl))
                [true] eq_refl eq_refl).
Defined.

(** * The update loop of the memory layer *)

Lemma search_database_at : forall db bq sd nc i q,
  VecDB.search_database db bq = Ok (sd, nc) ->
  nth_error bq i = Some q ->
  exists d n c,
    nth_error sd i = Some d /\ nth_error nc i = Some n /\
    nth_error (VecDB.table db) n = Some c /\
    d = euc q (VecDB.cluster_center c) /\
    forall c', In c' (VecDB.table db) -> d <= euc q (VecDB.cluster_center c').
Proof.
  intros db bq sd nc i q E Hq. unfold VecDB.search_database in E.
  destruct (VecDB.table db) as [|c cs] eqn:Etab; [discriminate|].
  destruct bq as [|q0 bq']; [discriminate|].
  remember (q0 :: bq') as qs eqn:Hqs. clear Hqs.
  inversion E; subst sd nc; clear E.
  set (dists := map (fun x => euc q (VecDB.cluster_center x)) cs).
  destruct (tensor_min (euc q (VecDB.cluster_center c)) dists) as [m n] eqn:Et.
  destruct (tensor_min_spec _ _ _ _ Et) as [Hn Hmin].
  assert (Hall : euc q (VecDB.cluster_center c) :: dists
                 = map (fun x => euc q (VecDB.cluster_center x)) (c :: cs))
    by reflexivity.
  rewrite Hall in Hn, Hmin. rewrite nth_error_map in Hn.
  destruct (nth_error (c :: cs) n) as [cn|] eqn:Ecn; [|discriminate].
  simpl in Hn. inversion Hn as [Hm].
  exists m, n, cn. rewrite !nth_error_map, Hq. simpl. fold dists. rewrite Et.
  simpl. split; [reflexivity|]. split; [reflexivity|]. split; [exact Ecn|].
  split; [symmetry; exact Hm|].
  intros c' Hc'. apply Hmin.
  apply (in_map (fun x => euc q (VecDB.cluster_center x))). exact Hc'.
Qed.

Lemma train_loop_at : forall bq st sdl ncl i0 st1 k q,
  Grace.train_loop st sdl ncl i0 bq = Ok st1 ->
  nth_error bq k = Some q ->
  exists stb sta,
    Grace.train_loop st sdl ncl i0 (firstn k bq) = Ok stb /\
    Grace.train_one stb sdl ncl (i0 + k) q = Ok sta /\
    Grace.train_loop sta sdl ncl (S (i0 + k)) (skipn (S k) bq) = Ok st1.
Proof.
  intros bq. induction bq as [|q0 bq IH]; intros st sdl ncl i0 st1 k q E Hk.
  - destruct k; discriminate.
  - simpl in E.
    destruct (Grace.train_one st sdl ncl i0 q0) as [s'|] eqn:E1; simpl in E;
      [|discriminate].
    destruct k as [|k]; simpl in Hk.
    + inversion Hk; subst q0. exists st, s'. rewrite Nat.add_0_r.
      split; [reflexivity|]. split; [exact E1 | exact E].
    + destruct (IH _ _ _ _ _ _ _ E Hk) as (stb & sta & H1 & H2 & H3).
      exists stb, sta. simpl. rewrite E1. simpl.
      replace (i0 + S k)%nat with (S i0 + k)%nat by lia.
      split; [exact H1|]. split; [exact H2 | exact H3].
Qed.

Lemma split_table_length : forall db i d db',
  VecDB.split_cluster_radii_in_half db i d = Ok db' ->
  length (VecDB.table db') = length (VecDB.table db).
Proof.
  intros db i d db' E. unfold VecDB.split_cluster_radii_in_half in E.
  bind_inv E. bind_inv E. bind_inv E. bind_inv E.
  destruct (VecDB.refilter _ _ _). inversion E; subst db'. simpl.
  rewrite !setitem_length. reflexivity.
Qed.

(** What one pass through the body of the update loop has done, read off
    its result. *)
Lemma train_one_inv : forall st sdl ncl index query sta,
  Grace.train_one st sdl ncl index query = Ok sta ->
  exists nearest row smallest lbl,
    nth_error ncl index = Some nearest /\
    nth_error (VecDB.table (Grace.db st)) nearest = Some row /\
    nth_error sdl index = Some smallest /\
    nth_error (Grace.edit_label st) index = Some lbl /\
    let added := VecDB.add_cluster (Grace.db st) query (Grace.block_id st) lbl in
    (smallest > VecDB.radius row + Grace.init_radius st ->
     sta = Grace.with_db st added) /\
    (~ smallest > VecDB.radius row + Grace.init_radius st ->
     VecDB.label_match lbl (VecDB.key_label row) = true ->
     exists d' c',
       VecDB.update_cluster (Grace.db st) nearest query (Grace.block_id st) = Ok d' /\
       sta = Grace.with_db st d' /\
       VecDB.len d' = VecDB.len (Grace.db st) /\
       nth_error (VecDB.table d') nearest = Some c' /\
       VecDB.points c'
       = VecDB.points row ++ [VecDB.mk_point query (Grace.block_id st)]) /\
    (~ smallest > VecDB.radius row + Grace.init_radius st ->
     VecDB.label_match lbl (VecDB.key_label row) = false ->
     exists d',
       VecDB.split_cluster_radii_in_half added nearest smallest = Ok d' /\
       sta = Grace.with_db st d' /\
       VecDB.len d' = S (VecDB.len (Grace.db st)) /\
       VecDB.conflict_num d' = (VecDB.conflict_num (Grace.db st) + 1)%Z).
Proof.
  intros st sdl ncl index query sta E. unfold Grace.train_one in E.
  destruct (getitem ncl index) as [nearest|] eqn:En; simpl in E; [|discriminate].
  destruct (getitem (VecDB.table (Grace.db st)) nearest) as [row|] eqn:Er;
    simpl in E; [|discriminate].
  destruct (getitem sdl index) as [smallest|] eqn:Es; simpl in E; [|discriminate].
  apply getitem_Ok in En, Er, Es.
  unfold Grace.add_cluster, Grace.update_cluster, Grace.current_block in E.
  destruct (getitem (Grace.edit_label st) index) as [lbl|] eqn:El.
  2:{ destruct (Rgt_dec smallest (VecDB.radius row + Grace.init_radius st));
        simpl in E; discriminate. }
  apply getitem_Ok in El. simpl in E.
  exists nearest, row, smallest, lbl.
  split; [exact En|]. split; [exact Er|]. split; [exact Es|]. split; [exact El|].
  intros added.
  destruct (Rgt_dec smallest (VecDB.radius row + Grace.init_radius st)) as [Hgt|Hle].
  - inversion E; subst sta. split; [intros _; reflexivity|].
    split; intros C; contradiction.
  - split; [intros C; contradiction|].
    destruct (VecDB.label_match lbl (VecDB.key_label row)) eqn:Hm.
    + split; [|intros _ C; discriminate]. intros _ _.
      destruct (VecDB.update_cluster (Grace.db st) nearest query (Grace.block_id st))
        as [d'|] eqn:Eu; simpl in E; [|discriminate].
      inversion E; subst sta.
      destruct (update_cluster_ok (Grace.db st) nearest query (Grace.block_id st)
                                  row Er) as (d2 & c' & E2 & Hlen & Hc' & Hp).
      rewrite Eu in E2. inversion E2; subst d2.
      exists d', c'. repeat split; assumption.
    + split; [intros _ C; discriminate|]. intros _ _.
      destruct (VecDB.split_cluster_radii_in_half added nearest smallest)
        as [d'|] eqn:Esp; [|unfold added in Esp; rewrite Esp in E; discriminate].
      unfold added in Esp. rewrite Esp in E. simpl in E. inversion E; subst sta.
      exists d'. split; [reflexivity|]. split; [reflexivity|].
      pose proof (nth_error_lt _ _ _ _ Er) as Hlt.
      split.
      * unfold VecDB.len. rewrite (split_table_length _ _ _ _ Esp). simpl.
        rewrite length_app. simpl. lia.
      * assert (H1 : nth_error (VecDB.table
                        (VecDB.add_cluster (Grace.db st) query (Grace.block_id st) lbl))
                        nearest = Some row).
        { simpl. rewrite nth_error_app1 by exact Hlt. exact Er. }
        destruct (split_row _ _ _ _ _ Esp H1) as (c' & _ & _ & _ & _ & _ & Hcn).
        rewrite Hcn. reflexivity.
Qed.

(** C1: the training update of the first micro-batch on a
    non-empty store searches the store once, before the loop.  For every
    example of the batch, in order, exactly one of three actions is taken,
    decided from the distance [smallest] and the cluster [nearest] that
    this one search found for the example (its nearest cluster in the
    store as the pass found it: for the first example that is the current
    store, for a later one the clusters added or moved earlier in the same
    batch are not searched) and from the current radius and label [row]
    of that cluster.  If [smallest] exceeds the radius plus [init_radius],
    a cluster is added for the example whatever its label; otherwise, if
    the labels match, the example is appended to the cluster by
    [update_cluster] with the current block counter as its value;
    otherwise a cluster is added and [split_cluster_radii_in_half] runs on
    the nearest cluster. *)
Theorem C1_update_loop_three_way :
  forall (transpose : matrix -> bool -> matrix) st g x st' g' out,
    Grace.forward transpose st g x = Ok (st', g', out) ->
    Grace.disable_grace st = false ->
    Grace.training st = true ->
    VecDB.len (Grace.db st) <> 0%nat ->
    Grace.batch_iter st = Some 0%Z ->
    exists bq sdl ncl st1,
      length bq = length x /\
      VecDB.search_database (Grace.db st) bq = Ok (sdl, ncl) /\
      st' = Grace.with_block_id st1 (Grace.block_id st + 1)%Z /\
      forall index query,
        nth_error bq index = Some query ->
        exists smallest nearest c0 lbl stb row sta,
          nth_error sdl index = Some smallest /\
          nth_error ncl index = Some nearest /\
          nth_error (VecDB.table (Grace.db st)) nearest = Some c0 /\
          smallest = euc query (VecDB.cluster_center c0) /\
          (forall c, In c (VecDB.table (Grace.db st)) ->
                     smallest <= euc query (VecDB.cluster_center c)) /\
          nth_error (Grace.edit_label st) index = Some lbl /\
          Grace.train_loop
            (Grace.with_mapping st (repeat (Grace.block_id st) (length x)))
            sdl ncl 0 (firstn index bq) = Ok stb /\
          Grace.train_one stb sdl ncl index query = Ok sta /\
          Grace.train_loop sta sdl ncl (S index) (skipn (S index) bq) = Ok st1 /\
          nth_error (VecDB.table (Grace.db stb)) nearest = Some row /\
          VecDB.key_label row = VecDB.key_label c0 /\
          (index = 0%nat -> row = c0) /\
          let added :=
            VecDB.add_cluster (Grace.db stb) query (Grace.block_id st) lbl in
          (smallest > VecDB.radius row + Grace.init_radius st ->
           sta = Grace.with_db stb added) /\
          (~ smallest > VecDB.radius row + Grace.init_radius st ->
           VecDB.label_match lbl (VecDB.key_label row) = true ->
           exists d' c',
             VecDB.update_cluster (Grace.db stb) nearest query (Grace.block_id st)
             = Ok d' /\
             sta = Grace.with_db stb d' /\
             VecDB.len d' = VecDB.len (Grace.db stb) /\
             nth_error (VecDB.table d') nearest = Some c' /\
             VecDB.points c'
             = VecDB.points row ++ [VecDB.mk_point query (Grace.block_id st)]) /\
          (~ smallest > VecDB.radius row + Grace.init_radius st ->
           VecDB.label_match lbl (VecDB.key_label row) = false ->
           exists d',
             VecDB.split_cluster_radii_in_half added nearest smallest = Ok d' /\
             sta = Grace.with_db stb d' /\
             VecDB.len d' = S (VecDB.len (Grace.db stb)) /\
             VecDB.conflict_num d'
             = (VecDB.conflict_num (Grace.db stb) + 1)%Z).
Proof.
  intros transpose st g x st' g' out E Hdis Htr Hlen Hbi.
  unfold Grace.forward in E.
  destruct (F_linear (transpose (Grace.weight st) (Grace.fan_in_fan_out st))
                     (Grace.bias st) x) as [layer_out|] eqn:Elo;
    simpl in E; [|discriminate].
  rewrite Hdis in E.
  destruct (mapM (fun ex => py_index ex
                   (Z.min (Grace.key_id st) (Grace.shape1 layer_out - 1)))
                 layer_out) as [bq|] eqn:Ebq; simpl in E; [|discriminate].
  pose proof (mapM_length _ _ _ _ _ Elo) as Hlo.
  pose proof (mapM_length _ _ _ _ _ Ebq) as Hbq.
  apply Nat.eqb_neq in Hlen. rewrite Hlen in E.
  destruct (Grace.search st bq) as [[[sdl ncl] found]|] eqn:Es; simpl in E;
    [|discriminate].
  rewrite Htr, Hbi in E. simpl in E. rewrite Hlo in E.
  set (st0 := Grace.with_mapping st (repeat (Grace.block_id st) (length x))) in *.
  destruct (Grace.train_loop st0 sdl ncl 0 bq) as [st1|] eqn:Et; simpl in E;
    [|discriminate].
  inversion E; subst st' g' out; clear E.
  assert (Esd : VecDB.search_database (Grace.db st) bq = Ok (sdl, ncl)).
  { unfold Grace.search in Es.
    destruct (VecDB.search_database (Grace.db st) bq) as [[sd nc]|]; simpl in Es;
      [|discriminate].
    destruct (VecDB.search_cluster (Grace.db st) bq sd nc); simpl in Es;
      [|discriminate].
    inversion Es; reflexivity. }
  pose proof (train_loop_fields _ _ _ _ _ _ Et) as Hf1.
  exists bq, sdl, ncl, st1.
  split; [unfold matrix, vec in *; lia|]. split; [exact Esd|].
  split; [rewrite Hf1; reflexivity|].
  intros index query Hq.
  destruct (search_database_at _ _ _ _ _ _ Esd Hq)
    as (smallest & nearest & c0 & Hs & Hn & Hc0 & Hd & Hmin).
  destruct (train_loop_at _ _ _ _ _ _ _ _ Et Hq) as (stb & sta & Hb & Ho & Ha).
  simpl in Ho, Ha.
  pose proof (train_loop_fields _ _ _ _ _ _ Hb) as Hfb.
  pose proof (train_loop_grows _ _ _ _ _ _ Hb) as Hgrow.
  destruct Hgrow as [[_ Hkeep] [_ [_ [_ Hinit]]]].
  destruct (Hkeep _ _ Hc0) as (row & Hrow & Hlabel).
  destruct (train_one_inv _ _ _ _ _ _ Ho)
    as (nearest' & row' & smallest' & lbl & Hn' & Hrow' & Hs' & Hl & Hthree).
  rewrite Hn in Hn'. inversion Hn'; subst nearest'.
  rewrite Hs in Hs'. inversion Hs'; subst smallest'.
  rewrite Hrow in Hrow'. inversion Hrow'; subst row'.
  assert (Hbid : Grace.block_id stb = Grace.block_id st)
    by (rewrite Hfb; reflexivity).
  assert (Hlbl : Grace.edit_label stb = Grace.edit_label st)
    by (rewrite Hfb; reflexivity).
  assert (Hir : Grace.init_radius stb = Grace.init_radius st)
    by (unfold Grace.init_radius; exact Hinit).
  rewrite Hbid, Hlbl, Hir in *.
  exists smallest, nearest, c0, lbl, stb, row, sta.
  split; [exact Hs|]. split; [exact Hn|]. split; [exact Hc0|].
  split; [exact Hd|]. split; [exact Hmin|]. split; [exact Hl|].
  split; [exact Hb|]. split; [exact Ho|]. split; [exact Ha|].
  split; [exact Hrow|]. split; [exact Hlabel|]. split.
  { intros ->. simpl in Hb. inversion Hb; subst stb. simpl in Hrow.
    congruence. }
  exact Hthree.
Qed.

(** Two equal examples against a store whose only cluster is far away.
    The first example founds a cluster.  The second is at distance 0 from
    that cluster and carries its label, yet the loop gives it a cluster of
    its own: the distance it reads is the one of the search before the
    loop.  Read with the example's nearest cluster as the example is
    reached, the step would have appended it to the cluster of the
    first. *)
Lemma C1_stale_search_counterexample :
  let st := Grace.mk [[1]] None false
                     (VecDB.add_cluster (VecDB.init 1) [100] 0%Z [1%Z])
                     (Some 0%Z) [[2%Z]; [2%Z]] (-1)%Z [] false 1%Z true in
  exists sdl ncl sta stb stc,
    VecDB.search_database (Grace.db st) [[0]; [0]] = Ok (sdl, ncl) /\
    Grace.train_one st sdl ncl 0 [0] = Ok sta /\
    Grace.train_one sta sdl ncl 1 [0] = Ok stb /\
    claimed_update_step sta 1 [0] = Ok stc /\
    VecDB.len (Grace.db stb) = 3%nat /\
    VecDB.len (Grace.db stc) = 2%nat.
Proof.
  intros st.
  exists [100; 100], [0%nat; 0%nat].
  assert (Ea : Grace.train_one st [100; 100] [0%nat; 0%nat] 0 [0]
               = Ok (Grace.with_db st
                       (VecDB.add_cluster (Grace.db st) [0] 1%Z [2%Z]))).
  { unfold Grace.train_one, Grace.init_radius. cbn -[Rgt_dec].
    destruct (Rgt_dec 100 (1 + 1)); [reflexivity | exfalso; lra]. }
  set (sta := Grace.with_db st (VecDB.add_cluster (Grace.db st) [0] 1%Z [2%Z])) in *.
  assert (Eb : Grace.train_one sta [100; 100] [0%nat; 0%nat] 1 [0]
               = Ok (Grace.with_db sta
                       (VecDB.add_cluster (Grace.db sta) [0] 1%Z [2%Z]))).
  { unfold Grace.train_one, Grace.init_radius. cbn -[Rgt_dec].
    destruct (Rgt_dec 100 (1 + 1)); [reflexivity | exfalso; lra]. }
  assert (Ec : exists stc, claimed_update_step sta 1 [0] = Ok stc
                           /\ VecDB.len (Grace.db stc) = 2%nat).
  { unfold claimed_update_step, VecDB.search_database, Grace.init_radius.
    cbn -[euc Rle_dec Rgt_dec].
    rewrite (euc_1d_le 0 100) by lra. rewrite euc_1d_same.
    replace (100 - 0) with 100 by ring.
    destruct (Rle_dec 100 0); [exfalso; lra|]. cbn -[euc Rle_dec Rgt_dec].
    destruct (Rgt_dec 0 (1 + 1)); [exfalso; lra|].
    cbn -[euc Rle_dec Rgt_dec Rlt_dec].
    eexists. split; [reflexivity|]. reflexivity. }
  destruct Ec as (stc & Ec & Hc).
  exists sta, (Grace.with_db sta (VecDB.add_cluster (Grace.db sta) [0] 1%Z [2%Z])), stc.
  split.
  { unfold VecDB.search_database. cbn -[euc].
    rewrite (euc_1d_le 0 100) by lra. replace (100 - 0) with 100 by ring.
    reflexivity. }
  split; [exact Ea|]. split; [exact Eb|]. split; [exact Ec|].
  split; [reflexivity | exact Hc].
Qed.

(** A stored key presented again under another label, as a full training
    pass: the example is within the radius of its nearest cluster and the
    labels differ, the third action. *)
Lemma C1_update_loop_three_way_witness :
  let st := Grace.mk [[1]] None false
                     (VecDB.add_cluster (VecDB.init 1) [0] 0%Z [1%Z])
                     (Some 0%Z) [[2%Z]] (-1)%Z [] false 1%Z true in
  let x := [[[0]]] in
  exists st' g' out bq sdl ncl st1,
    Grace.forward (fun w _ => w) st [] x = Ok (st', g', out) /\
    length bq = length x /\
    VecDB.search_database (Grace.db st) bq = Ok (sdl, ncl) /\
    st' = Grace.with_block_id st1 (Grace.block_id st + 1)%Z /\
    VecDB.conflict_num (Grace.db st') = 1%Z.
Proof.
  intros st x.
  assert (E : exists st' g' out,
             Grace.forward (fun w _ => w) st [] x = Ok (st', g', out)
             /\ VecDB.conflict_num (Grace.db st') = 1%Z).
  { unfold Grace.forward. cbn -[euc Grace.search Grace.train_loop].
    replace (0 * 1 + 0) with 0 by ring.
    match goal with
    | |- context [Grace.search st ?q] =>
        assert (Es : Grace.search st q = Ok ([0], [0%nat], [0%Z]))
    end.
    { unfold Grace.search, VecDB.search_database, VecDB.search_cluster.
      cbn -[euc Rle_dec Rgt_dec]. rewrite (euc_1d_ge 0 0) by lra.
      replace (0 - 0) with 0 by ring.
      unfold VecDB.search_one. cbn -[euc Rle_dec Rgt_dec].
      decide_reals. reflexivity. }
    rewrite Es. cbn -[euc Rle_dec Rgt_dec VecDB.eps].
    unfold Grace.train_one. cbn -[euc Rle_dec Rgt_dec VecDB.eps].
    unfold Grace.init_radius. cbn -[euc Rle_dec Rgt_dec VecDB.eps].
    destruct (Rgt_dec 0 (1 + 1)); [exfalso; lra|].
    cbn -[euc Rle_dec Rgt_dec VecDB.eps].
    unfold VecDB.split_cluster_radii_in_half. cbn -[euc Rle_dec Rgt_dec VecDB.eps].
    rewrite euc_1d_same.
    destruct (Rle_dec 0 (0 / 2 - VecDB.eps)); [exfalso; unfold VecDB.eps in *; lra|].
    cbn. eexists. eexists. eexists. split; reflexivity. }
  destruct E as (st' & g' & out & E & Hconf).
  destruct (C1_update_loop_three_way (fun w _ => w) st [] x st' g' out E
              eq_refl eq_refl ltac:(simpl; discriminate) eq_refl)
    as (bq & sdl & ncl & st1 & Hlen & Hs & Hst & _).
  exists st', g', out, bq, sdl, ncl, st1.
  split; [exact E|]. split; [exact Hlen|]. split; [exact Hs|].
  split; [exact Hst | exact Hconf].
Defined.

(** * The length of the published mapping *)

(** A later micro-batch of a training pass: the store is searched, nothing
    is updated, and the mapping of the earlier pass is published again. *)
Lemma forward_later_micro_batch :
  forall (transpose : matrix -> bool -> matrix) st g x st' g' out,
    Grace.forward transpose st g x = Ok (st', g', out) ->
    Grace.disable_grace st = false ->
    Grace.training st = true ->
    VecDB.len (Grace.db st) <> 0%nat ->
    Grace.batch_iter st <> Some 0%Z ->
    st' = st /\ g' = Grace.lora_block_mapping st.
Proof.
  intros transpose st g x st' g' out E Hdis Htr Hlen Hbi.
  unfold Grace.forward in E.
  destruct (F_linear (transpose (Grace.weight st) (Grace.fan_in_fan_out st))
                     (Grace.bias st) x) as [layer_out|]; simpl in E; [|discriminate].
  rewrite Hdis in E.
  destruct (mapM (fun ex => py_index ex
                   (Z.min (Grace.key_id st) (Grace.shape1 layer_out - 1)))
                 layer_out) as [bq|]; simpl in E; [|discriminate].
  apply Nat.eqb_neq in Hlen. rewrite Hlen in E.
  destruct (Grace.search st bq) as [[[sdl ncl] found]|]; simpl in E; [|discriminate].
  rewrite Htr in E. simpl in E.
  destruct (Grace.batch_iter st) as [[|p|p]|]; try congruence;
    simpl in E; inversion E; subst; split; reflexivity.
Qed.

(** C7: on a store without empty clusters (every store the
    layer's own operations build is one), an enabled forward pass that
    returns publishes one entry per example of the current batch in the
    inference lookup, in the pass on the empty store and in the training
    update of the first micro-batch.  In a later micro-batch of a training
    pass (non-empty store, [batch_iter] other than 0) nothing is derived:
    the layer is unchanged and the mapping it already held is published
    again, whatever the size of the batch. *)
Theorem C7_published_mapping_length :
  forall (transpose : matrix -> bool -> matrix) st g x st' g' out,
    Grace.forward transpose st g x = Ok (st', g', out) ->
    Grace.disable_grace st = false ->
    nonempty_clusters (VecDB.table (Grace.db st)) ->
    (Grace.training st = false \/ VecDB.len (Grace.db st) = 0%nat
     \/ Grace.batch_iter st = Some 0%Z ->
     length g' = length x /\ Grace.lora_block_mapping st' = g') /\
    (Grace.training st = true -> VecDB.len (Grace.db st) <> 0%nat ->
     Grace.batch_iter st <> Some 0%Z ->
     st' = st /\ g' = Grace.lora_block_mapping st).
Proof.
  intros transpose st g x st' g' out E Hdis Hne. split.
  - intros Hmode. eapply forward_publishes_batch_length; eauto.
  - intros Htr Hlen Hbi. eapply forward_later_micro_batch; eauto.
Qed.

(** The first pass of a new layer, on a batch of one example. *)
Lemma C7_published_mapping_length_witness :
  let st := Grace.mk [[1]] None false (VecDB.init 1) (Some 0%Z) [[1%Z]] (-1)%Z []
                     false 0%Z true in
  exists st' g' out,
    Grace.forward (fun w _ => w) st [] [[[0]]] = Ok (st', g', out) /\
    length g' = length [[[0]]] /\ Grace.lora_block_mapping st' = g'.
Proof.
  intros st. do 3 eexists. split; [reflexivity|].
  eapply (proj1 (C7_published_mapping_length (fun w _ => w) st [] [[[0]]]
                   _ _ _ eq_refl eq_refl ltac:(constructor))).
  right. left. reflexivity.
Defined.

(** A layer is filled by a first pass over one example; the trainer moves
    on to the next micro-batch ([batch_iter = 1]), which has two examples.
    The pass publishes the list of the first pass: one entry for two
    examples. *)
Lemma C7_stale_mapping_counterexample :
  let st := Grace.mk [[1]] None false (VecDB.init 1) (Some 0%Z) [[1%Z]] (-1)%Z []
                     false 0%Z true in
  let x1 := [[[0]]] in
  let x2 := [[[0]]; [[5]]] in
  exists st1 g1 out1 st2 g2 out2,
    Grace.forward (fun w _ => w) st [] x1 = Ok (st1, g1, out1) /\
    Grace.forward (fun w _ => w) (set_batch_iter st1 1) g1 x2 = Ok (st2, g2, out2) /\
    length g2 = 1%nat /\ length x2 = 2%nat.
Proof.
  intros st x1 x2.
  assert (E1 : Grace.forward (fun w _ => w) st [] x1
               = Ok (Grace.mk [[1]] None false
                       (VecDB.add_cluster (VecDB.init 1) [0 * 1 + 0] 0%Z [1%Z])
                       (Some 0%Z) [[1%Z]] (-1)%Z [0%Z] false 1%Z true,
                     [0%Z], [[[0 * 1 + 0]]])).
  { reflexivity. }
  eexists. eexists. eexists. eexists. eexists. eexists.
  split; [exact E1|].
  split.
  - unfold Grace.forward. cbn -[euc Grace.search].
    replace (0 * 1 + 0) with 0 by ring. replace (5 * 1 + 0) with 5 by ring.
    match goal with
    | |- context [Grace.search ?s ?q] =>
        assert (Es : Grace.search s q = Ok ([0; 5], [0%nat; 0%nat], [0%Z; NO_LORA]))
    end.
    { unfold Grace.search, VecDB.search_database, VecDB.search_cluster.
      cbn -[euc Rle_dec Rgt_dec].
      replace (0 * 1 + 0) with 0 by ring.
      rewrite euc_1d_same. rewrite (euc_1d_ge 5 0) by lra.
      replace (5 - 0) with 5 by ring.
      unfold VecDB.search_one. cbn -[euc Rle_dec Rgt_dec].
      destruct (Rgt_dec 0 1); [exfalso; lra|].
      destruct (Rgt_dec 5 1); [|exfalso; lra].
      reflexivity. }
    rewrite Es. cbn. reflexivity.
  - split; reflexivity.
Qed.
